(** * The multiwaiter of the CHERIoT RTOS scheduler

    A shallow embedding of [sdk/core/scheduler/multiwait.h]: the event
    waiter (one monitored event source), the multiwaiter (a bounded array of
    event waiters), the list of multiwaiters whose threads have been woken
    but have not run yet, and the operations on them. *)

From stdpp Require Import gmap list.
From Stdlib Require Import ZArith Lia.

Local Open Scope Z_scope.

(** ** Outcomes

    The C++ code can trap (a failed [Debug::Assert] or [Debug::Invariant]),
    dereference a null or freed pointer, index past the end of the trailing
    array, or walk a cyclic list for ever.  Each of these is a [Fault]. *)

Inductive fault :=
| NullDereference
| DanglingPointer
| OutOfBounds
| AssertionFailure
| NoTermination.

Inductive result (A : Type) :=
| Ok (a : A)
| Fault (f : fault).
Arguments Ok {A} a.
Arguments Fault {A} f.

#[global] Instance result_ret : MRet result := λ A a, Ok a.
#[global] Instance result_bind : MBind result := λ A B k m,
  match m with
  | Ok a => k a
  | Fault f => Fault f
  end.

(** ** Integer widths *)

Definition uint8 (z : Z) : Z := z mod 2 ^ 8.
Definition uint32 (z : Z) : Z := z mod 2 ^ 32.
(** The 24-bit bit-field [readyEvents]. *)
Definition bits24 (z : Z) : Z := Z.land z 16777215.

(** ** Event kinds and event sources *)

(** Modelled from the spec: the enumeration [EventWaiterKind] of
    [multiwaiter.h], which is not part of the sources.  The spec lists the
    kinds as Queue, EventChannel, ConditionWord; the enumerators carry the
    names used in [multiwait.h] and are numbered from zero in that order. *)
Inductive EventWaiterKind :=
| EventWaiterQueue
| EventWaiterEventChannel
| EventWaiterFutex.

#[global] Instance EventWaiterKind_eq_dec : EqDecision EventWaiterKind.
Proof. solve_decision. Defined.

Definition kind_code (k : EventWaiterKind) : Z :=
  match k with
  | EventWaiterQueue => 0
  | EventWaiterEventChannel => 1
  | EventWaiterFutex => 2
  end.

(** The [switch] of [set_events] on a raw kind value: [None] is the
    [default] label. *)
Definition kind_of_code (z : Z) : option EventWaiterKind :=
  if decide (z = 0) then Some EventWaiterQueue
  else if decide (z = 1) then Some EventWaiterEventChannel
  else if decide (z = 2) then Some EventWaiterFutex
  else None.

(** [struct EventWaiter]: the state for waiting for a single event source.
    [eventSource] holds an address; [kind] is the two-bit field, [flags] the
    six-bit one and [readyEvents] the 24-bit one. *)
Record EventWaiter := mkEventWaiter {
  eventSource : Z;
  eventValue : Z;
  kind : EventWaiterKind;
  flags : Z;
  readyEvents : Z
}.

(** The default member initialisers. *)
Definition EventWaiter_zero : EventWaiter :=
  mkEventWaiter 0 0 EventWaiterQueue 0 0.

(** ** Collaborators

    The queue and event-channel halves of [reset] and [trigger] are defined
    in [queue.h] and [event.h], the unsealing of handles in [Handle] and the
    permission check in the CHERI helpers; none of them is part of the
    sources.  They are the interface that the multiwaiter is written
    against. *)
Class Collaborators := {
  (** What a [void *] supplied by the caller can be. *)
  Cap : Type;
  (** [Capability{p}.address()] *)
  address : Cap → Z;
  (** [Handle::unseal<Queue>(p)]; [None] is [nullptr]. *)
  unseal_Queue : Cap → option Z;
  (** [Handle::unseal<Event>(p)]; [None] is [nullptr]. *)
  unseal_Event : Cap → option Z;
  (** [check_pointer<PermissionSet{Permission::Load}>(p)] *)
  check_pointer_Load : Cap → bool;
  (** The state of the queues and event channels. *)
  Env : Type;
  (** [EventWaiter::reset] for a [Queue] pointer and a [uint32_t] *)
  reset_Queue : Env → Z → Z → EventWaiter → EventWaiter * bool;
  (** [EventWaiter::reset] for an [Event] pointer and a [uint32_t] *)
  reset_Event : Env → Z → Z → EventWaiter → EventWaiter * bool;
  (** [EventWaiter::trigger] for a [Queue] pointer *)
  trigger_Queue : Env → Z → EventWaiter → EventWaiter * bool;
  (** [EventWaiter::trigger] for an [Event] pointer and a [uint32_t] *)
  trigger_Event : Env → Z → Z → EventWaiter → EventWaiter * bool
}.

(** Modelled from the spec: [struct EventWaiterSource] of [multiwaiter.h],
    the event specification {kind, sourceRef, condition} that the caller
    passes in and that receives the results.  The field names are the ones
    [multiwait.h] uses.  [src_kind] is the raw value the caller wrote. *)
Record EventWaiterSource `{Collaborators} := mkEventWaiterSource {
  src_eventSource : Cap;
  src_value : Z;
  src_kind : Z
}.
Arguments mkEventWaiterSource {_} _ _ _.

(** The [source] pointer of the templates [wake_waiters] and [trigger], for the
    three types [T] that [KindFor] accepts. *)
Inductive Source :=
| SourceQueue (queue : Z)
| SourceEvent (event : Z)
| SourceFutex (address : Z).

Definition KindFor (source : Source) : EventWaiterKind :=
  match source with
  | SourceQueue _ => EventWaiterQueue
  | SourceEvent _ => EventWaiterEventChannel
  | SourceFutex _ => EventWaiterFutex
  end.

(** ** [struct EventWaiter] *)

Definition set_ready (value : Z) (w : EventWaiter) : result EventWaiter :=
  if decide (Z.land value 4278190080 = 0) then
    Ok (mkEventWaiter (eventSource w) (eventValue w) (kind w) (flags w)
          (bits24 (Z.lor (readyEvents w) value)))
  else Fault AssertionFailure.

Definition has_fired (w : EventWaiter) : bool :=
  bool_decide (readyEvents w ≠ 0).

Section EventWaiter.
Context `{Collaborators}.

(** [reset] for a [uint32_t] pointer [address] and a [value]; [mem] gives
    the word stored at an address. *)
Definition reset_futex (mem : Z → Z) (addr : Cap) (value : Z)
    (w : EventWaiter) : result (EventWaiter * bool) :=
  let w0 := mkEventWaiter (address addr) value EventWaiterFutex 0 0 in
  if decide (mem (address addr) ≠ value) then
    w1 ← set_ready 1 w0; Ok (w1, true)
  else Ok (w0, false).

(** [trigger] for a [uint32_t] pointer *)
Definition trigger_futex (triggeredAddress : Z) (w : EventWaiter)
    : result (EventWaiter * bool) :=
  let sourceAddress := eventSource w in
  if decide (kind w ≠ EventWaiterFutex ∨ sourceAddress ≠ triggeredAddress)
  then Ok (w, false)
  else w1 ← set_ready 1 w; Ok (w1, true).

(** The overload of [trigger] that [T] selects. *)
Definition EventWaiter_trigger (e : Env) (source : Source) (info : Z)
    (w : EventWaiter) : result (EventWaiter * bool) :=
  match source with
  | SourceQueue q => Ok (trigger_Queue e q w)
  | SourceEvent ev => Ok (trigger_Event e ev info w)
  | SourceFutex a => trigger_futex a w
  end.
End EventWaiter.

(** ** [class MultiWaiter] *)

Definition MaxMultiWaiterSize : Z := 8.

(** [next] is [None] for [nullptr]; [events] is the trailing array, as long
    as the allocation made it. *)
Record MultiWaiter := mkMultiWaiter {
  Length : Z;
  usedLength : Z;
  containedKinds : Z;
  next : option Z;
  events : list EventWaiter
}.

Inductive EventOperationResult := Error | Wake | Sleep.

#[global] Instance EventOperationResult_eq_dec :
  EqDecision EventOperationResult.
Proof. solve_decision. Defined.

Section MultiWaiterObject.
Context `{Collaborators}.

(** A spec that passed the checks of its [case]. *)
Inductive Validated :=
| ValidQueue (queue : Z)
| ValidEvent (event : Z)
| ValidFutex (address : Cap).

(** The checks of the [switch] in [set_events]; [None] is
    [return EventOperationResult::Error]. *)
Definition validate (ev : EventWaiterSource) : option Validated :=
  let ptr := src_eventSource ev in
  match kind_of_code (src_kind ev) with
  | None => None
  | Some EventWaiterQueue =>
      match unseal_Queue ptr with
      | None => None
      | Some queue => Some (ValidQueue queue)
      end
  | Some EventWaiterEventChannel =>
      match unseal_Event ptr with
      | None => None
      | Some event =>
          if decide (Z.land (src_value ev) 16777215 = 0) then None
          else Some (ValidEvent event)
      end
  | Some EventWaiterFutex =>
      if check_pointer_Load ptr then Some (ValidFutex ptr) else None
  end.

(** [events[i].reset(...)] for a validated source. *)
Definition reset (e : Env) (mem : Z → Z) (v : Validated) (value : Z)
    (w : EventWaiter) : result (EventWaiter * bool) :=
  match v with
  | ValidQueue queue => Ok (reset_Queue e queue value w)
  | ValidEvent event => Ok (reset_Event e event value w)
  | ValidFutex addr => reset_futex mem addr value w
  end.

(** The loop of [set_events] from index [i] on.  The second component of
    the outcome is [None] when the loop left through
    [return EventOperationResult::Error] and the final [eventTriggered]
    when it ran to its end. *)
Fixpoint set_events_loop (e : Env) (mem : Z → Z)
    (newEvents : list EventWaiterSource) (i : nat) (eventTriggered : bool)
    (this : MultiWaiter) : result (MultiWaiter * option bool) :=
  match newEvents with
  | [] => Ok (this, Some eventTriggered)
  | ev :: rest =>
      match validate ev with
      | None => Ok (this, None)
      | Some v =>
          match events this !! i with
          | None => Fault OutOfBounds
          | Some slot =>
              '(slot', fired) ← reset e mem v (src_value ev) slot;
              set_events_loop e mem rest (S i) (eventTriggered || fired)
                (mkMultiWaiter (Length this) (usedLength this)
                   (uint8 (Z.lor (containedKinds this)
                             (Z.shiftl 1 (src_kind ev))))
                   (next this) (<[i := slot']> (events this)))
          end
      end
  end.

(** [set_events(newEvents, count)], with [count] the length of the list. *)
Definition set_events (e : Env) (mem : Z → Z)
    (newEvents : list EventWaiterSource) (this : MultiWaiter)
    : result (MultiWaiter * EventOperationResult) :=
  let this0 := mkMultiWaiter (Length this) (usedLength this) 0 (next this)
                 (events this) in
  '(this1, r) ← set_events_loop e mem newEvents 0 false this0;
  match r with
  | None => Ok (this1, Error)
  | Some eventTriggered =>
      Ok (mkMultiWaiter (Length this1)
            (uint8 (Z.of_nat (length newEvents)))
            (containedKinds this1) (next this1) (events this1),
          if (eventTriggered : bool) then Wake else Sleep)
  end.

(** The loop of [trigger] over [begin() .. end()], that is over the first
    [n] event waiters. *)
Fixpoint trigger_loop (e : Env) (source : Source) (info : Z) (n : nat)
    (slots : list EventWaiter) (shouldWake : bool)
    : result (list EventWaiter * bool) :=
  match n with
  | O => Ok (slots, shouldWake)
  | S n' =>
      match slots with
      | [] => Fault OutOfBounds
      | registeredSource :: rest =>
          '(w, fired) ← EventWaiter_trigger e source info registeredSource;
          '(rest', wake) ← trigger_loop e source info n' rest
                             (shouldWake || fired);
          Ok (w :: rest', wake)
      end
  end.

(** [MultiWaiter::trigger(source, info)] *)
Definition trigger (e : Env) (source : Source) (info : Z)
    (this : MultiWaiter) : result (MultiWaiter * bool) :=
  if decide (Z.land (containedKinds this)
               (Z.shiftl 1 (kind_code (KindFor source))) = 0)
  then Ok (this, false)
  else
    '(slots, shouldWake) ← trigger_loop e source info
                             (Z.to_nat (usedLength this)) (events this) false;
    Ok (mkMultiWaiter (Length this) (usedLength this) (containedKinds this)
          (next this) slots, shouldWake).
End MultiWaiterObject.

(** ** Threads

    [thread.h] is not part of the sources; [multiwait.h] uses the field
    [multiWaiter] of a thread, [Thread::ready], [Thread::suspend] and
    [Thread::walk_thread_list]. *)

(** Modelled from the spec: the enumeration [Thread::WakeReason], of which
    [multiwait.h] uses the timeout-style reason [Timer] and the reason
    [MultiWaiter]. *)
Module WakeReason.
Inductive t := Timer | MultiWaiter.
End WakeReason.

(** Modelled from the spec: what the scheduling primitives do to a thread.
    A thread runs, is suspended until it is ready, or has been marked ready
    for a reason and has not run yet. *)
Inductive ThreadState :=
| Running
| Suspended
| Ready (reason : WakeReason.t).

(** Modelled from the spec: the thread record.  [multiWaiter] is the field
    that [multiwait.h] reads and writes, the multiwaiter the thread is
    blocked on, [None] for [nullptr]. *)
Record Thread := mkThread {
  multiWaiter : option Z;
  state : ThreadState
}.

(** ** The scheduler's state

    [heap] holds the live multiwaiters by address and [thread_table] the
    threads by address.  [threads] is the wait queue of the threads blocked
    on a multiwaiter, in queue order, and [wokenMultiwaiters] the head of the
    list of multiwaiters whose threads have been woken but have not run:
    the list is threaded through the [next] fields in [heap]. *)
Record Sched := mkSched {
  heap : gmap Z MultiWaiter;
  thread_table : gmap Z Thread;
  threads : list Z;
  wokenMultiwaiters : option Z
}.

Definition load (p : Z) (s : Sched) : result MultiWaiter :=
  match heap s !! p with
  | Some m => Ok m
  | None => Fault DanglingPointer
  end.

Definition store (p : Z) (m : MultiWaiter) (s : Sched) : Sched :=
  mkSched (<[p := m]> (heap s)) (thread_table s) (threads s)
    (wokenMultiwaiters s).

Definition load_thread (t : Z) (s : Sched) : result Thread :=
  match thread_table s !! t with
  | Some th => Ok th
  | None => Fault DanglingPointer
  end.

Definition store_thread (t : Z) (th : Thread) (s : Sched) : Sched :=
  mkSched (heap s) (<[t := th]> (thread_table s)) (threads s)
    (wokenMultiwaiters s).

Definition set_next (n : option Z) (m : MultiWaiter) : MultiWaiter :=
  mkMultiWaiter (Length m) (usedLength m) (containedKinds m) n (events m).

Definition set_wokenMultiwaiters (head : option Z) (s : Sched) : Sched :=
  mkSched (heap s) (thread_table s) (threads s) head.

(** Modelled from the spec: [Thread::ready(reason)], not part of the sources.
    Marking a thread ready takes it off the Sleeping-Thread List and records
    the wake reason. *)
Definition Thread_ready (t : Z) (reason : WakeReason.t) (s : Sched)
    : result Sched :=
  th ← load_thread t s;
  Ok (mkSched (heap s)
        (<[t := mkThread (multiWaiter th) (Ready reason)]> (thread_table s))
        (filter (λ x, x ≠ t) (threads s))
        (wokenMultiwaiters s)).

(** Modelled from the spec: the first half of [Thread::suspend(timeout,
    &threads)], not part of the sources: the thread is put on the
    Sleeping-Thread List and stops running.  The list is ordered by priority;
    [pos] is the position the thread's priority gives it. *)
Definition suspend_enter (t : Z) (pos : nat) (s : Sched) : result Sched :=
  th ← load_thread t s;
  Ok (mkSched (heap s)
        (<[t := mkThread (multiWaiter th) Suspended]> (thread_table s))
        (take pos (threads s) ++ t :: drop pos (threads s))
        (wokenMultiwaiters s)).

(** Modelled from the spec: the second half of [Thread::suspend]: a thread
    that has been marked ready runs again.  [None] when the thread cannot
    run. *)
Definition suspend_return (t : Z) (s : Sched) : option Sched :=
  match thread_table s !! t with
  | Some (mkThread w (Ready _)) => Some (store_thread t (mkThread w Running) s)
  | _ => None
  end.

(** Modelled from the spec: [Thread::walk_thread_list(head, fn, predicate)],
    not part of the sources.  It walks the list as it is when the walk
    starts, calls [fn] on each thread in list order ([fn] may take the
    thread it is called on off the list), and stops early once [predicate]
    holds. *)
Fixpoint walk_thread_list {S : Type} (l : list Z) (fn : Z → S → result S)
    (predicate : S → bool) (s : S) : result S :=
  match l with
  | [] => Ok s
  | thread :: rest =>
      if predicate s then Ok s
      else s' ← fn thread s; walk_thread_list rest fn predicate s'
  end.

(** ** The list of woken multiwaiters *)

(** What a [MultiWaiter **] can point to: the head of the list or the [next]
    field of a multiwaiter. *)
Inductive Link :=
| LinkHead
| LinkNext (p : Z).

Definition read_link (l : Link) (s : Sched) : result (option Z) :=
  match l with
  | LinkHead => Ok (wokenMultiwaiters s)
  | LinkNext p => m ← load p s; Ok (next m)
  end.

Definition write_link (l : Link) (v : option Z) (s : Sched) : result Sched :=
  match l with
  | LinkHead => Ok (set_wokenMultiwaiters v s)
  | LinkNext p => m ← load p s; Ok (store p (set_next v m) s)
  end.

(** The [while] loop of [remove_from_pending_wake_list].  Each step after the
    first reads the [next] field of one more multiwaiter, so a walk that is
    not over after two steps more than there are multiwaiters has read one
    of them twice: it has entered a cycle and never ends. *)
Fixpoint find_link (fuel : nat) (this : Z) (prev : Link) (s : Sched)
    : result Link :=
  match fuel with
  | O => Fault NoTermination
  | S fuel' =>
      cur ← read_link prev s;
      match cur with
      | None => Ok prev
      | Some p =>
          if decide (p = this) then Ok prev
          else find_link fuel' this (LinkNext p) s
      end
  end.

Definition remove_from_pending_wake_list (this : Z) (s : Sched)
    : result Sched :=
  prev ← find_link (S (S (size (heap s)))) this LinkHead s;
  me ← load this s;
  s1 ← write_link prev (next me) s;
  me1 ← load this s1;
  Ok (store this (set_next None me1) s1).

(** ** Operations on the scheduler's state *)

(** The error numbers of [errno.h], which is not part of the sources, with
    their usual values. *)
Definition ENOMEM : Z := 12.
Definition EINVAL : Z := 22.

(** [MultiWaiter::create(length, error)].  [q] is what [heap_allocate]
    returned ([None] for [nullptr]); the constructor leaves the trailing
    array as the allocator handed it out, [uninitialised i] being what is
    found in slot [i].  The outcome is the state, the pointer returned and
    the value of [error]. *)
Definition create (length : Z) (q : option Z)
    (uninitialised : nat → EventWaiter) (s : Sched)
    : Sched * option Z * Z :=
  if decide (length > MaxMultiWaiterSize) then (s, None, - EINVAL)
  else
    match q with
    | None => (s, None, - ENOMEM)
    | Some p =>
        (store p (mkMultiWaiter (uint8 length) 0 0 None
                    (uninitialised <$> seq 0 (Z.to_nat length))) s,
         Some p, 0)
    end.

(** The body of the destructor [~MultiWaiter]. *)
Definition destructor_visit (this : Z) (thread : Z) (s : Sched)
    : result Sched :=
  th ← load_thread thread s;
  if decide (multiWaiter th = Some this) then
    Thread_ready thread WakeReason.Timer
      (store_thread thread (mkThread None (state th)) s)
  else Ok s.

Definition destructor (this : Z) (s : Sched) : result Sched :=
  s1 ← remove_from_pending_wake_list this s;
  walk_thread_list (threads s1) (destructor_visit this) (λ _, false) s1.

(** Destroying a multiwaiter runs the destructor and frees the object. *)
Definition destroy (this : Z) (s : Sched) : result Sched :=
  s1 ← destructor this s;
  Ok (mkSched (delete this (heap s1)) (thread_table s1) (threads s1)
        (wokenMultiwaiters s1)).

(** [wait(timeout)] up to the point where the thread stops running. *)
Definition wait_enter (currentThread : Z) (this : Z) (pos : nat) (s : Sched)
    : result Sched :=
  th ← load_thread currentThread s;
  _ ← load this s;
  suspend_enter currentThread pos
    (store_thread currentThread (mkThread (Some this) (state th)) s).

(** [wait(timeout)] from the point where the thread runs again. *)
Definition wait_exit (currentThread : Z) (s : Sched) : option Sched :=
  s1 ← suspend_return currentThread s;
  th ← thread_table s1 !! currentThread;
  Some (store_thread currentThread (mkThread None (state th)) s1).

Section MultiWaiterOperations.
Context `{Collaborators}.

(** The loop of [get_results] from index [i] on: the list returned is
    [newEvents] with the [value] fields written. *)
Fixpoint get_results_loop (slots : list EventWaiter)
    (newEvents : list EventWaiterSource) (i : nat) (found : bool)
    : result (list EventWaiterSource * bool) :=
  match newEvents with
  | [] => Ok ([], found)
  | ev :: rest =>
      match slots !! i with
      | None => Fault OutOfBounds
      | Some w =>
          '(rest', found') ←
            get_results_loop slots rest (S i)
              (found || bool_decide (readyEvents w ≠ 0));
          Ok (mkEventWaiterSource (src_eventSource ev) (readyEvents w)
                (src_kind ev) :: rest', found')
      end
  end.

(** [get_results(newEvents, count)], with [count] the length of the
    list. *)
Definition get_results (this : Z) (newEvents : list EventWaiterSource)
    (s : Sched) : result (Sched * list EventWaiterSource * bool) :=
  s1 ← remove_from_pending_wake_list this s;
  me ← load this s1;
  if decide (Z.of_nat (length newEvents) ≤ Length me) then
    '(out, found) ← get_results_loop (events me) newEvents 0 false;
    Ok (s1, out, found)
  else Fault AssertionFailure.

(** [set_events] on the multiwaiter at [this]. *)
Definition set_events_at (e : Env) (mem : Z → Z) (this : Z)
    (newEvents : list EventWaiterSource) (s : Sched)
    : result (Sched * EventOperationResult) :=
  me ← load this s;
  '(me', r) ← set_events e mem newEvents me;
  Ok (store this me' s, r).

(** The first loop of [wake_waiters]: trigger the multiwaiters whose
    threads have been woken, following [next] from [mw].  Each step reads
    one multiwaiter, so a walk that is not over after one step more than
    there are multiwaiters has entered a cycle and never ends. *)
Fixpoint trigger_woken (fuel : nat) (e : Env) (source : Source) (info : Z)
    (mw : option Z) (s : Sched) : result Sched :=
  match mw with
  | None => Ok s
  | Some p =>
      match fuel with
      | O => Fault NoTermination
      | S fuel' =>
          m ← load p s;
          '(m', _) ← trigger e source info m;
          trigger_woken fuel' e source info (next m') (store p m' s)
      end
  end.

(** The function that the second loop of [wake_waiters] calls on each
    thread; the state it works on is the scheduler's state and the local
    [woken]. *)
Definition wake_visit (e : Env) (source : Source) (info : Z) (thread : Z)
    (sw : Sched * Z) : result (Sched * Z) :=
  let '(s, woken) := sw in
  th ← load_thread thread s;
  match multiWaiter th with
  | None => Fault NullDereference
  | Some w =>
      m ← load w s;
      '(m', threadReady) ← trigger e source info m;
      let s1 := store w m' s in
      if (threadReady : bool) then
        s2 ← Thread_ready thread WakeReason.MultiWaiter s1;
        let woken' := uint32 (woken + 1) in
        m2 ← load w s2;
        let s3 := store w (set_next (wokenMultiwaiters s2) m2) s2 in
        Ok (set_wokenMultiwaiters (Some w) s3, woken')
      else Ok (s1, woken)
  end.

(** [wake_waiters(source, info, maxWakes)] *)
Definition wake_waiters (e : Env) (source : Source) (info : Z)
    (maxWakes : Z) (s : Sched) : result (Sched * Z) :=
  s1 ← trigger_woken (S (size (heap s))) e source info
         (wokenMultiwaiters s) s;
  walk_thread_list (threads s1) (wake_visit e source info)
    (λ sw, bool_decide (sw.2 >= maxWakes)) (s1, 0).
End MultiWaiterOperations.

(** ** A concrete set of collaborators

    Queues and event channels small enough to run the operations on.  A
    capability is a sealed queue, a sealed event channel, or a pointer with
    or without load permission.  The environment gives, for the address of
    a queue or of an event channel, the bits that are ready on it. *)

Inductive ExampleCap :=
| SealedQueue (queue : Z)
| SealedEvent (event : Z)
| Pointer (addr : Z) (load : bool).

Definition example_fire (w : EventWaiter) (bits : Z) : EventWaiter * bool :=
  let ready := Z.lor (readyEvents w) bits in
  (mkEventWaiter (eventSource w) (eventValue w) (kind w) (flags w) ready,
   negb (ready =? 0)).

Definition example_matches (k : EventWaiterKind) (p : Z) (w : EventWaiter)
    : bool :=
  match k, kind w with
  | EventWaiterQueue, EventWaiterQueue
  | EventWaiterEventChannel, EventWaiterEventChannel
  | EventWaiterFutex, EventWaiterFutex => eventSource w =? p
  | _, _ => false
  end.

#[global] Instance example_collaborators : Collaborators := {|
  Cap := ExampleCap;
  address := λ c,
    match c with SealedQueue a | SealedEvent a | Pointer a _ => a end;
  unseal_Queue := λ c, match c with SealedQueue q => Some q | _ => None end;
  unseal_Event := λ c, match c with SealedEvent ev => Some ev | _ => None end;
  check_pointer_Load := λ c, match c with Pointer _ b => b | _ => false end;
  Env := Z → Z;
  reset_Queue := λ e q v _,
    example_fire (mkEventWaiter q v EventWaiterQueue 0 0) (Z.land (e q) v);
  reset_Event := λ e ev v _,
    example_fire (mkEventWaiter ev v EventWaiterEventChannel 0 0)
      (Z.land (e ev) v);
  trigger_Queue := λ e q w,
    if example_matches EventWaiterQueue q w
    then example_fire w (Z.land (e q) (eventValue w))
    else (w, false);
  trigger_Event := λ e ev info w,
    if example_matches EventWaiterEventChannel ev w
    then example_fire w (Z.land info (eventValue w))
    else (w, false)
|}.

Definition example_spec (k : Z) (c : ExampleCap) (v : Z)
    : @EventWaiterSource example_collaborators :=
  mkEventWaiterSource (c : @Cap example_collaborators) v k.

Definition example_waiter (n : Z) : MultiWaiter :=
  mkMultiWaiter n 0 0 None (replicate (Z.to_nat n) EventWaiter_zero).


(** ** The specification's words

    Predicates that follow the wording of the specification, to be compared
    with what the code computes. *)

(** The low 24 bits of a condition value are all zero. *)
Definition low24_zero (v : Z) : Prop :=
  ∀ i, 0 ≤ i < 24 → Z.testbit v i = false.

Section SpecificationWording.
Context `{Collaborators}.

(** A spec that fails validation: a queue whose reference does not unseal as
    a queue, an event channel whose reference does not unseal as an event
    channel or whose condition has no bit among the low 24, a futex whose
    address cannot be loaded from, or any other kind value. *)
Definition fails_validation (ev : EventWaiterSource) : Prop :=
  (src_kind ev = kind_code EventWaiterQueue ∧
   unseal_Queue (src_eventSource ev) = None) ∨
  (src_kind ev = kind_code EventWaiterEventChannel ∧
   (unseal_Event (src_eventSource ev) = None ∨ low24_zero (src_value ev))) ∨
  (src_kind ev = kind_code EventWaiterFutex ∧
   check_pointer_Load (src_eventSource ev) = false) ∨
  (src_kind ev ≠ kind_code EventWaiterQueue ∧
   src_kind ev ≠ kind_code EventWaiterEventChannel ∧
   src_kind ev ≠ kind_code EventWaiterFutex).

End SpecificationWording.

(** ** Well-formed multiwaiters

    What the constructor, reached only through [create], establishes and
    [set_events] with [count <= Length] keeps: [Length] is at most
    [MaxMultiWaiterSize] and is the number of elements of the trailing
    array, and [usedLength] is at most [Length]. *)
Definition MultiWaiter_wf (m : MultiWaiter) : Prop :=
  0 ≤ Length m ≤ MaxMultiWaiterSize ∧
  0 ≤ usedLength m ≤ Length m ∧
  length (events m) = Z.to_nat (Length m).

(** ** Concrete inputs *)

(** A futex at 1000 expected to hold 5, an event channel with no bit in its
    condition, a queue. *)
Definition example_batch_bad
    : list (@EventWaiterSource example_collaborators) :=
  [example_spec 2 (Pointer 1000 true) 5; example_spec 1 (SealedEvent 200) 0;
   example_spec 0 (SealedQueue 100) 1].

(** A queue and a futex at 1000 expected to hold 5. *)
Definition example_batch_ok
    : list (@EventWaiterSource example_collaborators) :=
  [example_spec 0 (SealedQueue 100) 1; example_spec 2 (Pointer 1000 true) 5].

(** No bit is ready on any queue or event channel. *)
Definition example_env : Z → Z := λ _, 0.

(** Every word of memory holds 7. *)
Definition example_mem : Z → Z := λ _, 7.

(** A multiwaiter of capacity 3 after the registration of
    [example_batch_bad] has failed at its second spec. *)
Definition example_failed : MultiWaiter :=
  mkMultiWaiter 3 0 4 None
    [mkEventWaiter 1000 5 EventWaiterFutex 0 1; EventWaiter_zero;
     EventWaiter_zero].

(** ** The list of woken multiwaiters, as a list

    [lseg h from l to]: following [next] in [h] from [from] visits the
    multiwaiters [l], in this order, and arrives at [to].  [pending s l]:
    the list that starts at [wokenMultiwaiters] is [l] and ends in
    [nullptr]. *)
Fixpoint lseg (h : gmap Z MultiWaiter) (from : option Z) (l : list Z)
    (to : option Z) : Prop :=
  match l with
  | [] => from = to
  | p :: l' =>
      from = Some p ∧ ∃ m, h !! p = Some m ∧ lseg h (next m) l' to
  end.

Definition pending (s : Sched) (l : list Z) : Prop :=
  lseg (heap s) (wokenMultiwaiters s) l None.

(** The link that the loop of [remove_from_pending_wake_list] stops at when
    it starts at [prev] and the multiwaiters after [prev] are [l]. *)
Fixpoint link_before (this : Z) (prev : Link) (l : list Z) : Link :=
  match l with
  | [] => prev
  | p :: l' =>
      if decide (p = this) then prev else link_before this (LinkNext p) l'
  end.

(** The link that ends the list [l] that starts at [prev]. *)
Definition last_link (prev : Link) (l : list Z) : Link :=
  match last l with
  | None => prev
  | Some q => LinkNext q
  end.

(** The multiwaiters without their [next] fields. *)
Definition heap_erase (h : gmap Z MultiWaiter) : gmap Z MultiWaiter :=
  set_next None <$> h.

Definition Sched_empty : Sched := mkSched ∅ ∅ [] None.

(** ** Threads and their multiwaiters *)

(** [thread->multiWaiter], [None] when there is no such thread or the field
    is [nullptr]. *)
Definition waiter_of (s : Sched) (t : Z) : option Z :=
  match thread_table s !! t with
  | Some th => multiWaiter th
  | None => None
  end.

(** The thread at [t] records the multiwaiter at [this]. *)
Definition waits_on (s : Sched) (this : Z) (t : Z) : Prop :=
  waiter_of s t = Some this.

#[global] Instance waits_on_dec (s : Sched) (this t : Z) :
  Decision (waits_on s this t).
Proof. unfold waits_on. apply _. Defined.

(** Every thread on the Sleeping-Thread List is suspended and records a
    multiwaiter that is live. *)
Definition sleepers_have_waiter (s : Sched) : Prop :=
  ∀ t, t ∈ threads s →
    ∃ th w, thread_table s !! t = Some th ∧ state th = Suspended ∧
      multiWaiter th = Some w ∧ is_Some (heap s !! w).

(** ** The steps of the scheduler

    What can happen to the scheduler's state: the operations of the
    multiwaiter, called by a thread that runs or by an event source, and the
    expiry of the timeout of a sleeping thread. *)
Section Steps.
Context `{Collaborators}.

Inductive step : Sched → Sched → Prop :=
| step_create (s s' : Sched) (length : Z) (p : Z)
    (uninitialised : nat → EventWaiter) :
    heap s !! p = None →
    create length (Some p) uninitialised s = (s', Some p, 0) →
    step s s'
| step_set_events (s s' : Sched) (e : Env) (mem : Z → Z) (this : Z)
    (newEvents : list EventWaiterSource) (r : EventOperationResult) :
    set_events_at e mem this newEvents s = Ok (s', r) →
    step s s'
| step_wait_enter (s s' : Sched) (t this : Z) (pos : nat) (th : Thread) :
    thread_table s !! t = Some th →
    state th = Running →
    wait_enter t this pos s = Ok s' →
    step s s'
| step_wait_exit (s s' : Sched) (t : Z) :
    wait_exit t s = Some s' →
    step s s'
| step_timeout (s s' : Sched) (t : Z) :
    t ∈ threads s →
    Thread_ready t WakeReason.Timer s = Ok s' →
    step s s'
| step_get_results (s s' : Sched) (this : Z)
    (newEvents out : list EventWaiterSource) (found : bool) :
    get_results this newEvents s = Ok (s', out, found) →
    step s s'
| step_wake_waiters (s s' : Sched) (e : Env) (source : Source)
    (info maxWakes woken : Z) :
    wake_waiters e source info maxWakes s = Ok (s', woken) →
    step s s'
| step_destroy (s s' : Sched) (this : Z) :
    destroy this s = Ok s' →
    step s s'.

(** The states the scheduler can be in: it starts with no multiwaiter, with
    every thread running and recording no multiwaiter. *)
Definition initial (s : Sched) : Prop :=
  heap s = ∅ ∧ threads s = [] ∧ wokenMultiwaiters s = None ∧
  ∀ t th, thread_table s !! t = Some th → th = mkThread None Running.

Inductive reachable : Sched → Prop :=
| reachable_initial (s : Sched) : initial s → reachable s
| reachable_step (s s' : Sched) : reachable s → step s s' → reachable s'.

End Steps.

(** ** Concrete states

    Two threads, at 1 and 2, and a multiwaiter of capacity 2 at 64 that
    waits for the futex at 1000 to change from 7. *)

Definition example_waitset (ready : Z) : MultiWaiter :=
  mkMultiWaiter 2 1 4 None
    [mkEventWaiter 1000 7 EventWaiterFutex 0 ready; EventWaiter_zero].

Definition example_threads (th : Thread) : gmap Z Thread :=
  <[1 := th]> (<[2 := mkThread None Running]> ∅).

(** Nothing has happened yet. *)
Definition example_start : Sched :=
  mkSched ∅ (example_threads (mkThread None Running)) [] None.

(** The multiwaiter has been created. *)
Definition example_created : Sched :=
  mkSched
    (<[64 := mkMultiWaiter 2 0 0 None [EventWaiter_zero; EventWaiter_zero]]>
       ∅)
    (example_threads (mkThread None Running)) [] None.

(** The futex has been registered. *)
Definition example_registered : Sched :=
  mkSched (<[64 := example_waitset 0]> ∅)
    (example_threads (mkThread None Running)) [] None.

(** Thread 1 sleeps on the multiwaiter. *)
Definition example_sleeping : Sched :=
  mkSched (<[64 := example_waitset 0]> ∅)
    (example_threads (mkThread (Some 64) Suspended)) [1] None.

(** The futex has been signalled: thread 1 is ready and has not run yet, and
    the multiwaiter is on the list of woken multiwaiters. *)
Definition example_woken : Sched :=
  mkSched (<[64 := example_waitset 1]> ∅)
    (example_threads (mkThread (Some 64) (Ready WakeReason.MultiWaiter)))
    [] (Some 64).

(** The multiwaiter has been destroyed before thread 1 ran. *)
Definition example_destroyed : Sched :=
  mkSched ∅
    (example_threads (mkThread (Some 64) (Ready WakeReason.MultiWaiter)))
    [] None.

(** [keeps s s']: from [s] to [s'] no multiwaiter has been freed, no thread
    has joined the Sleeping-Thread List, and the threads that are on it are
    as they were. *)
Definition keeps (s s' : Sched) : Prop :=
  (∀ p, is_Some (heap s !! p) → is_Some (heap s' !! p)) ∧
  (∀ x, x ∈ threads s' →
     x ∈ threads s ∧ thread_table s' !! x = thread_table s !! x).

(** ** The effect of [wake_waiters], in closed form *)

Section WakeWording.
Context `{Collaborators}.

(** A multiwaiter after [trigger] (itself, should [trigger] fault). *)
Definition triggered (e : Env) (source : Source) (info : Z)
    (m : MultiWaiter) : MultiWaiter :=
  match trigger e source info m with
  | Ok (m', _) => m'
  | Fault _ => m
  end.

(** What [trigger] returns on a multiwaiter. *)
Definition fires (e : Env) (source : Source) (info : Z) (m : MultiWaiter)
    : bool :=
  match trigger e source info m with
  | Ok (_, b) => b
  | Fault _ => false
  end.

(** What [trigger] returns on the multiwaiter that a thread records. *)
Definition thread_fires (e : Env) (source : Source) (info : Z) (s : Sched)
    (t : Z) : bool :=
  match waiter_of s t with
  | Some w =>
      match heap s !! w with
      | Some m => fires e source info m
      | None => false
      end
  | None => false
  end.

(** [trigger] on each multiwaiter of a list, in list order. *)
Fixpoint trigger_each (e : Env) (source : Source) (info : Z) (l : list Z)
    (s : Sched) : result Sched :=
  match l with
  | [] => Ok s
  | p :: l' =>
      m ← load p s;
      '(m', _) ← trigger e source info m;
      trigger_each e source info l' (store p m' s)
  end.

End WakeWording.

(** The threads of [l] that a walk visits when it stops once [budget] of the
    threads visited satisfy [f]. *)
Fixpoint visited (f : Z → bool) (budget : nat) (l : list Z) : list Z :=
  match l, budget with
  | [], _ => []
  | _ :: _, O => []
  | t :: l', S b => t :: visited f (if f t then b else S b) l'
  end.

(** The state in which [wake_waiters] runs: the list of woken multiwaiters
    is [lp]; the threads on the Sleeping-Thread List are distinct and record
    the multiwaiters [ws], which are distinct, live and not on the list of
    woken multiwaiters; every multiwaiter is well formed. *)
Definition wake_ready (s : Sched) (lp ws : list Z) : Prop :=
  pending s lp ∧
  NoDup (threads s) ∧
  Forall2 (λ t w, waiter_of s t = Some w) (threads s) ws ∧
  NoDup (ws ++ lp) ∧
  (∀ w, w ∈ ws → is_Some (heap s !! w)) ∧
  (∀ p m, heap s !! p = Some m → MultiWaiter_wf m).

(** Threads 1 and 2 sleep on the multiwaiters at 64 and 96, which both wait
    for the futex at 1000; thread 3 has been woken and has not run, and its
    multiwaiter at 32 is on the list of woken multiwaiters. *)
Definition example_two_sleepers : Sched :=
  mkSched
    (<[32 := example_waitset 1]>
       (<[64 := example_waitset 0]> (<[96 := example_waitset 0]> ∅)))
    (<[1 := mkThread (Some 64) Suspended]>
       (<[2 := mkThread (Some 96) Suspended]>
          (<[3 := mkThread (Some 32) (Ready WakeReason.MultiWaiter)]> ∅)))
    [1; 2] (Some 32).


(** Thread 1 has been woken through the multiwaiter at 64, has run, and
    sleeps on it again without [get_results] having been called in between:
    the multiwaiter is still on the list of woken multiwaiters. *)
Definition example_waiting_again : Sched :=
  mkSched (<[64 := example_waitset 1]> ∅)
    (example_threads (mkThread (Some 64) Suspended)) [1] (Some 64).
(** * Properties *)

(** ** Bits *)

Lemma land_bit_zero (a k : Z) :
  0 ≤ k → Z.land a (Z.shiftl 1 k) = 0 ↔ Z.testbit a k = false.
Proof.
  intros Hk. split.
  - intros Hz.
    assert (Hb : Z.testbit (Z.land a (Z.shiftl 1 k)) k = false)
      by (rewrite Hz; apply Z.bits_0).
    rewrite Z.land_spec, Z.shiftl_spec, Z.sub_diag in Hb by lia.
    change (Z.testbit 1 0) with true in Hb.
    by rewrite andb_true_r in Hb.
  - intros Hb. apply Z.bits_inj'. intros n Hn.
    rewrite Z.land_spec, Z.shiftl_spec, Z.bits_0 by lia.
    destruct (decide (n = k)) as [->|Hne].
    + by rewrite Hb.
    + destruct (decide (n < k)).
      * rewrite (Z.testbit_neg_r 1) by lia. apply andb_false_r.
      * rewrite (Z.bits_above_log2 1) by (simpl; lia). apply andb_false_r.
Qed.

Lemma testbit_shiftl_1 (k n : Z) :
  0 ≤ k → 0 ≤ n → Z.testbit (Z.shiftl 1 k) n = bool_decide (n = k).
Proof.
  intros Hk Hn. rewrite Z.shiftl_spec by lia.
  destruct (decide (n = k)) as [->|Hne].
  - rewrite Z.sub_diag, bool_decide_eq_true_2; done.
  - rewrite bool_decide_eq_false_2 by done.
    destruct (decide (n < k)).
    + apply Z.testbit_neg_r; lia.
    + apply Z.bits_above_log2; simpl; lia.
Qed.

Lemma land_low24 (v : Z) : Z.land v 16777215 = 0 ↔ low24_zero v.
Proof.
  change 16777215 with (Z.ones 24). unfold low24_zero. split.
  - intros Hz i Hi.
    assert (Hb : Z.testbit (Z.land v (Z.ones 24)) i = false)
      by (rewrite Hz; apply Z.bits_0).
    rewrite Z.land_spec, Z.testbit_ones_nonneg in Hb by lia.
    destruct (Z.ltb_spec i 24); [|lia].
    by rewrite andb_true_r in Hb.
  - intros Hb. apply Z.bits_inj'. intros n Hn.
    rewrite Z.land_spec, Z.testbit_ones_nonneg, Z.bits_0 by lia.
    destruct (Z.ltb_spec n 24).
    + rewrite Hb by lia. done.
    + apply andb_false_r.
Qed.

(** ** The event waiter of a futex *)

Lemma set_ready_1 (w : EventWaiter) :
  set_ready 1 w =
    Ok (mkEventWaiter (eventSource w) (eventValue w) (kind w) (flags w)
          (bits24 (Z.lor (readyEvents w) 1))).
Proof. reflexivity. Qed.

Section SlotProperties.
Context `{Collaborators}.

(** C6: resetting the event waiter of a futex (condition word) with an address
    and an expected value stores the address, the value and the futex kind;
    when the word at the address differs from the expected value it sets
    [readyEvents] to 1 and returns true at once, and when the word equals the
    expected value it leaves [readyEvents] at 0 and returns false. *)
Theorem reset_futex_fires_iff_changed (mem : Z → Z) (addr : Cap) (value : Z)
    (w : EventWaiter) :
  reset_futex mem addr value w =
    Ok (mkEventWaiter (address addr) value EventWaiterFutex 0
          (if decide (mem (address addr) = value) then 0 else 1),
        bool_decide (mem (address addr) ≠ value)).
Proof.
  unfold reset_futex.
  destruct (decide (mem (address addr) ≠ value)) as [Hne|Heq].
  - rewrite set_ready_1. simpl.
    rewrite decide_False by done. rewrite bool_decide_eq_true_2 by done.
    reflexivity.
  - apply dec_stable in Heq.
    rewrite decide_True by done.
    rewrite bool_decide_eq_false_2 by (intros Hc; by apply Hc).
    reflexivity.
Qed.

Lemma reset_total (e : Env) (mem : Z → Z) (v : Validated) (value : Z)
    (w : EventWaiter) :
  ∃ r, reset e mem v value w = Ok r.
Proof.
  destruct v; simpl; eauto.
  unfold reset_futex. case_decide; [rewrite set_ready_1|]; simpl; eauto.
Qed.

(** C7: when the kind of the triggering source is not in [containedKinds]
    (its bit is clear), [trigger] on the multiwaiter returns false and the
    multiwaiter, with every event waiter and its [readyEvents], is as it was:
    no event waiter is visited, whatever the event waiters' own triggers would
    have answered. *)
Theorem trigger_skips_absent_kind (e : Env) (source : Source) (info : Z)
    (this : MultiWaiter) :
  Z.testbit (containedKinds this) (kind_code (KindFor source)) = false →
  trigger e source info this = Ok (this, false).
Proof.
  intros Hbit. unfold trigger.
  rewrite decide_True; [done|].
  apply land_bit_zero; [by destruct source|done].
Qed.

End SlotProperties.

Lemma trigger_skips_absent_kind_witness :
  Z.testbit (containedKinds (mkMultiWaiter 2 1 4 None
      [mkEventWaiter 1000 5 EventWaiterFutex 0 0; EventWaiter_zero]))
    (kind_code (KindFor (SourceQueue 100))) = false ∧
  trigger (fun _ => 1) (SourceQueue 100) 0
    (mkMultiWaiter 2 1 4 None
      [mkEventWaiter 1000 5 EventWaiterFutex 0 0; EventWaiter_zero]) =
  Ok (mkMultiWaiter 2 1 4 None
      [mkEventWaiter 1000 5 EventWaiterFutex 0 0; EventWaiter_zero], false).
Proof.
  split; [reflexivity|].
  apply (trigger_skips_absent_kind (H := example_collaborators)).
  reflexivity.
Defined.

(** ** Registration: [set_events] *)

Section SetEventsProperties.
Context `{Collaborators}.

Lemma kind_of_code_Some (z : Z) (k : EventWaiterKind) :
  kind_of_code z = Some k ↔ z = kind_code k.
Proof.
  unfold kind_of_code. repeat case_decide; destruct k; simpl; split;
    intros; simplify_eq; try done; lia.
Qed.

Lemma kind_of_code_None (z : Z) :
  kind_of_code z = None ↔ z ≠ 0 ∧ z ≠ 1 ∧ z ≠ 2.
Proof.
  unfold kind_of_code. repeat case_decide; split; intros; simplify_eq;
    try done; lia.
Qed.

Lemma validate_None_iff (ev : EventWaiterSource) :
  validate ev = None ↔ fails_validation ev.
Proof.
  unfold validate, fails_validation. simpl.
  destruct (kind_of_code (src_kind ev)) as [k|] eqn:Hk.
  - apply kind_of_code_Some in Hk. rewrite Hk.
    destruct k; simpl.
    + destruct (unseal_Queue (src_eventSource ev)); split; try done;
        intros; try intuition (try congruence; try lia).
    + destruct (unseal_Event (src_eventSource ev)).
      * case_decide as Hl; rewrite land_low24 in Hl; split; try done;
          intros; try intuition (try congruence; try lia).
      * split; try done; intros; intuition (try congruence; try lia).
    + destruct (check_pointer_Load (src_eventSource ev)); split; try done;
        intros; try intuition (try congruence; try lia).
  - apply kind_of_code_None in Hk. split; [intros _|done].
    do 3 right. simpl. lia.
Qed.

Lemma validate_Some_kind (ev : EventWaiterSource) (v : Validated) :
  validate ev = Some v → 0 ≤ src_kind ev ≤ 2.
Proof.
  unfold validate. destruct (kind_of_code (src_kind ev)) as [k|] eqn:Hk;
    [|done].
  apply kind_of_code_Some in Hk. intros _. destruct k; simpl in Hk; lia.
Qed.

Lemma uint8_range (z : Z) : 0 ≤ uint8 z < 256.
Proof. unfold uint8. apply Z.mod_pos_bound. lia. Qed.

Lemma testbit_uint8_lor (ck kd k : Z) :
  0 ≤ ck < 256 → 0 ≤ kd ≤ 2 → 0 ≤ k →
  Z.testbit (uint8 (Z.lor ck (Z.shiftl 1 kd))) k =
    Z.testbit ck k || bool_decide (k = kd).
Proof.
  intros Hck Hkd Hk. unfold uint8.
  rewrite <- Z.land_ones by lia.
  rewrite Z.land_spec, Z.lor_spec, testbit_shiftl_1 by lia.
  rewrite Z.testbit_ones_nonneg by lia.
  destruct (Z.ltb_spec k 8) as [Hlt|Hge]; [by rewrite andb_true_r|].
  rewrite andb_false_r.
  rewrite (Z.bits_above_log2 ck k).
  - rewrite bool_decide_eq_false_2 by lia. done.
  - lia.
  - destruct (decide (ck = 0)) as [->|]; [simpl; lia|].
    apply Z.log2_lt_pow2; [lia|].
    assert (2 ^ 8 ≤ 2 ^ k) by (apply Z.pow_le_mono_r; lia). lia.
Qed.

(** The loop of [set_events] runs to an outcome when the specs fit in the
    array. *)
Lemma set_events_loop_total (e : Env) (mem : Z → Z) :
  ∀ (newEvents : list EventWaiterSource) (i : nat) (trig : bool)
    (this : MultiWaiter),
  (i + length newEvents ≤ length (events this))%nat →
  ∃ this' r, set_events_loop e mem newEvents i trig this = Ok (this', r).
Proof.
  induction newEvents as [|ev rest IH]; intros i trig this Hlen; simpl.
  - eauto.
  - simpl in Hlen. destruct (validate ev) as [v|]; [|eauto].
    destruct (lookup_lt_is_Some_2 (events this) i) as [slot ->]; [lia|].
    destruct (reset_total e mem v (src_value ev) slot) as [[slot' fired] ->].
    simpl. apply IH. simpl. rewrite length_insert. lia.
Qed.

(** What the loop of [set_events] has done from index [i] on when it is
    over: [regs] are the results of the resets it made, one for each spec
    before the first that fails validation. *)
Lemma set_events_loop_inv (e : Env) (mem : Z → Z) :
  ∀ (newEvents : list EventWaiterSource) (i : nat) (trig : bool)
    (this this' : MultiWaiter) (r : option bool),
  set_events_loop e mem newEvents i trig this = Ok (this', r) →
  0 ≤ containedKinds this < 256 →
  ∃ regs : list (EventWaiter * bool),
    Length this' = Length this ∧
    usedLength this' = usedLength this ∧
    next this' = next this ∧
    length (events this') = length (events this) ∧
    0 ≤ containedKinds this' < 256 ∧
    (length regs ≤ length newEvents)%nat ∧
    match r with
    | None => ∃ ev, newEvents !! length regs = Some ev ∧ validate ev = None
    | Some t => length regs = length newEvents ∧
                t = trig || existsb snd regs
    end ∧
    (∀ j ev, (j < length regs)%nat → newEvents !! j = Some ev →
       ∃ v slot reg, validate ev = Some v ∧
         events this !! (i + j)%nat = Some slot ∧
         reset e mem v (src_value ev) slot = Ok reg ∧
         regs !! j = Some reg ∧
         events this' !! (i + j)%nat = Some reg.1) ∧
    (∀ j, (j < i ∨ i + length regs ≤ j)%nat →
       events this' !! j = events this !! j) ∧
    (∀ k, 0 ≤ k →
       Z.testbit (containedKinds this') k =
         Z.testbit (containedKinds this) k ||
         existsb (λ ev, bool_decide (k = src_kind ev))
           (take (length regs) newEvents)).
Proof.
  induction newEvents as [|ev rest IH]; intros i trig this this' r Hrun Hck;
    simpl in Hrun.
  - simplify_eq. exists []. simpl.
    repeat split; try done; try lia.
    + by rewrite orb_false_r.
    + intros k Hk. by rewrite orb_false_r.
  - destruct (validate ev) as [v|] eqn:Hv.
    + destruct (events this !! i) as [slot|] eqn:Hslot; [|done].
      destruct (reset e mem v (src_value ev) slot) as [[slot' fired]|] eqn:Hr;
        [|done].
      simpl in Hrun.
      apply IH in Hrun as
        (regs & HL & HU & HN & HE & HC & Hn & Hres & Hreg & Hframe & Hbits);
        [|apply uint8_range].
      simpl in *. rewrite length_insert in HE.
      exists ((slot', fired) :: regs). simpl.
      repeat split; try done; try lia.
      * destruct r as [t|]; [|done].
        destruct Hres as [-> ->]. split; [done|].
        by rewrite orb_assoc.
      * intros [|j] ev' Hj Hev'; simpl in Hev'.
        -- simplify_eq. exists v, slot, (slot', fired).
           rewrite Nat.add_0_r. repeat split; try done.
           rewrite Hframe by lia.
           apply list_lookup_insert_eq.
           apply lookup_lt_Some in Hslot. done.
        -- destruct (Hreg j ev') as (v' & s' & reg & ? & Hs & ? & ? & ?);
             [lia|done|].
           exists v', s', reg.
           replace (i + S j)%nat with (S i + j)%nat by lia.
           repeat split; try done.
           rewrite list_lookup_insert_ne in Hs by lia. done.
      * intros j Hj. rewrite Hframe by lia.
        apply list_lookup_insert_ne. lia.
      * intros k Hk. rewrite Hbits by done.
        rewrite testbit_uint8_lor;
          [|done|by eapply validate_Some_kind|done].
        by rewrite orb_assoc.
    + simplify_eq. exists []. simpl.
      repeat split; try done; try lia.
      * eauto.
      * intros k Hk. by rewrite orb_false_r.
Qed.

Lemma set_events_total (e : Env) (mem : Z → Z)
    (newEvents : list EventWaiterSource) (this : MultiWaiter) :
  MultiWaiter_wf this →
  Z.of_nat (length newEvents) ≤ Length this →
  ∃ this' r, set_events e mem newEvents this = Ok (this', r).
Proof.
  intros (Hrange & _ & Hlen) Hcount. unfold set_events.
  edestruct (set_events_loop_total e mem newEvents 0 false) as
    (this1 & r & ->); [simpl; lia|].
  simpl. destruct r; eauto.
Qed.

(** What [set_events] has done when it returns. *)
Lemma set_events_inv (e : Env) (mem : Z → Z)
    (newEvents : list EventWaiterSource) (this this' : MultiWaiter)
    (r : EventOperationResult) :
  set_events e mem newEvents this = Ok (this', r) →
  ∃ regs : list (EventWaiter * bool),
    Length this' = Length this ∧
    next this' = next this ∧
    length (events this') = length (events this) ∧
    (length regs ≤ length newEvents)%nat ∧
    match r with
    | Error =>
        usedLength this' = usedLength this ∧
        ∃ ev, newEvents !! length regs = Some ev ∧ validate ev = None
    | _ =>
        usedLength this' = uint8 (Z.of_nat (length newEvents)) ∧
        length regs = length newEvents ∧
        r = (if existsb snd regs then Wake else Sleep)
    end ∧
    (∀ j ev, (j < length regs)%nat → newEvents !! j = Some ev →
       ∃ v slot reg, validate ev = Some v ∧
         events this !! j = Some slot ∧
         reset e mem v (src_value ev) slot = Ok reg ∧
         regs !! j = Some reg ∧
         events this' !! j = Some reg.1) ∧
    (∀ j, (length regs ≤ j)%nat →
       events this' !! j = events this !! j) ∧
    (∀ k, 0 ≤ k →
       Z.testbit (containedKinds this') k =
         existsb (λ ev, bool_decide (k = src_kind ev))
           (take (length regs) newEvents)).
Proof.
  unfold set_events. intros Hrun.
  destruct (set_events_loop e mem newEvents 0 false _)
    as [[this1 r1]|] eqn:Hloop; [|done].
  apply set_events_loop_inv in Hloop as
    (regs & HL & HU & HN & HE & HC & Hn & Hres & Hreg & Hframe & Hbits);
    [|simpl; lia].
  simpl in *. exists regs.
  assert (Hbits' : ∀ k, 0 ≤ k →
    Z.testbit (containedKinds this1) k =
      existsb (λ ev, bool_decide (k = src_kind ev))
        (take (length regs) newEvents)).
  { intros k Hk. rewrite Hbits by done. by rewrite Z.bits_0. }
  assert (Hframe' : ∀ j, (length regs ≤ j)%nat →
    events this1 !! j = events this !! j).
  { intros j Hj. apply Hframe. lia. }
  destruct r1 as [t|]; simplify_eq; simpl.
  - destruct Hres as [Hlen ->]. simpl.
    destruct (existsb snd regs); repeat split; done.
  - repeat split; done.
Qed.

(** C3: [set_events] on a multiwaiter with room for the batch returns [Error]
    exactly when some spec of the batch fails validation: a queue whose
    reference does not unseal as a queue, an event channel whose reference
    does not unseal or whose condition has its low 24 bits all zero, a futex
    whose address lacks load permission, or a spec of any other kind.  The
    first such spec ends the registration: no event waiter from its index on
    is written and [usedLength] is not updated. *)
Theorem set_events_error_iff_invalid (e : Env) (mem : Z → Z)
    (newEvents : list EventWaiterSource) (this : MultiWaiter) :
  MultiWaiter_wf this →
  Z.of_nat (length newEvents) ≤ Length this →
  ∃ this' r,
    set_events e mem newEvents this = Ok (this', r) ∧
    (r = Error ↔ ∃ ev, ev ∈ newEvents ∧ fails_validation ev) ∧
    (r = Error →
     ∃ i ev, newEvents !! i = Some ev ∧ fails_validation ev ∧
       (∀ j ev', (j < i)%nat → newEvents !! j = Some ev' →
          ¬ fails_validation ev') ∧
       (∀ j, (i ≤ j)%nat → events this' !! j = events this !! j) ∧
       usedLength this' = usedLength this).
Proof.
  intros Hwf Hcount.
  destruct (set_events_total e mem newEvents this Hwf Hcount)
    as (this' & r & Hrun).
  exists this', r. split; [done|].
  apply set_events_inv in Hrun as
    (regs & HL & HN & HE & Hn & Hres & Hreg & Hframe & Hbits).
  assert (Hfirst : r = Error →
    ∃ i ev, newEvents !! i = Some ev ∧ fails_validation ev ∧
      (∀ j ev', (j < i)%nat → newEvents !! j = Some ev' →
         ¬ fails_validation ev') ∧
      (∀ j, (i ≤ j)%nat → events this' !! j = events this !! j) ∧
      usedLength this' = usedLength this).
  { intros ->. destruct Hres as (HU & ev & Hev & Hinv).
    exists (length regs), ev. repeat split; try done.
    - by apply validate_None_iff.
    - intros j ev' Hj Hev' Hbad.
      destruct (Hreg j ev' Hj Hev') as (v & _ & _ & Hv & _).
      apply validate_None_iff in Hbad. congruence. }
  split; [|done]. split.
  - intros Herr. destruct (Hfirst Herr) as (i & ev & Hev & Hbad & _).
    exists ev. split; [|done]. by eapply list_elem_of_lookup_2.
  - intros (ev & Hin & Hbad).
    destruct r; [done| |].
    all: destruct Hres as (_ & Hlen & _).
    all: apply list_elem_of_lookup in Hin as [j Hj].
    all: destruct (Hreg j ev) as (v & _ & _ & Hv & _);
      [rewrite Hlen; by eapply lookup_lt_Some|done|].
    all: apply validate_None_iff in Hbad; congruence.
Qed.

(** C5: for a batch that fits in the multiwaiter ([count <= Length]) and in
    which every spec validates, [set_events] resets event waiter [i] from
    spec [i] for every [i], sets [usedLength] to [count], and returns [Wake]
    when at least one of these resets reported that its event had fired and
    [Sleep] when none did; [containedKinds] has the bit of a kind exactly
    when some spec of the batch has that kind, whether or not its event had
    fired. *)
Theorem set_events_success (e : Env) (mem : Z → Z)
    (newEvents : list EventWaiterSource) (this : MultiWaiter) :
  MultiWaiter_wf this →
  Z.of_nat (length newEvents) ≤ Length this →
  (∀ ev, ev ∈ newEvents → ¬ fails_validation ev) →
  ∃ this' r (regs : list (EventWaiter * bool)),
    set_events e mem newEvents this = Ok (this', r) ∧
    usedLength this' = Z.of_nat (length newEvents) ∧
    length regs = length newEvents ∧
    (∀ i ev, newEvents !! i = Some ev →
       ∃ v slot reg, validate ev = Some v ∧
         events this !! i = Some slot ∧
         reset e mem v (src_value ev) slot = Ok reg ∧
         regs !! i = Some reg ∧
         events this' !! i = Some reg.1) ∧
    (r = Wake ↔ ∃ reg, reg ∈ regs ∧ reg.2 = true) ∧
    (r = Sleep ↔ ∀ reg, reg ∈ regs → reg.2 = false) ∧
    (∀ k, 0 ≤ k →
       Z.testbit (containedKinds this') k = true ↔
       ∃ ev, ev ∈ newEvents ∧ src_kind ev = k).
Proof.
  intros Hwf Hcount Hvalid.
  destruct (set_events_total e mem newEvents this Hwf Hcount)
    as (this' & r & Hrun).
  exists this', r.
  apply set_events_inv in Hrun as Hinv.
  destruct Hinv as (regs & HL & HN & HE & Hn & Hres & Hreg & Hframe & Hbits).
  exists regs. split; [done|].
  assert (Hne : r ≠ Error).
  { intros ->. destruct Hres as (_ & ev & Hev & Hbad).
    apply (Hvalid ev); [by eapply list_elem_of_lookup_2|].
    by apply validate_None_iff. }
  assert (Hfacts : usedLength this' = uint8 (Z.of_nat (length newEvents)) ∧
                   length regs = length newEvents ∧
                   r = (if existsb snd regs then Wake else Sleep))
    by (destruct r; done).
  destruct Hfacts as (HU & Hlen & Hr).
  destruct Hwf as [Hrange _]. unfold MaxMultiWaiterSize in Hrange.
  repeat split; try done.
  - rewrite HU. unfold uint8. apply Z.mod_small. lia.
  - intros i ev Hev. apply Hreg; [|done].
    rewrite Hlen. by eapply lookup_lt_Some.
  - intros ->. destruct (existsb snd regs) eqn:Hex; [|done].
    apply existsb_exists in Hex as (reg & Hin & Hf).
    exists reg. split; [by apply list_elem_of_In|done].
  - intros (reg & Hin & Hf). rewrite Hr.
    rewrite (proj2 (existsb_exists snd regs)); [done|].
    exists reg. split; [by apply list_elem_of_In|done].
  - intros -> reg Hin. destruct (existsb snd regs) eqn:Hex; [done|].
    destruct (reg.2) eqn:Hf; [|done].
    rewrite (proj2 (existsb_exists snd regs)) in Hex; [done|].
    exists reg. split; [by apply list_elem_of_In|done].
  - intros Hall. rewrite Hr.
    destruct (existsb snd regs) eqn:Hex; [|done].
    apply existsb_exists in Hex as (reg & Hin & Hf).
    apply list_elem_of_In in Hin. rewrite Hall in Hf; done.
  - rewrite Hbits, Hlen, firstn_all by done.
    intros Hex. apply existsb_exists in Hex as (ev & Hin & Hk).
    exists ev. split; [by apply list_elem_of_In|].
    by apply bool_decide_eq_true_1 in Hk.
  - intros (ev & Hin & Hk). rewrite Hbits, Hlen, firstn_all.
    + apply existsb_exists. exists ev.
      split; [by apply list_elem_of_In|]. by apply bool_decide_eq_true_2.
    + rewrite <- Hk.
      destruct (validate ev) as [v|] eqn:Hv.
      * apply validate_Some_kind in Hv. lia.
      * apply validate_None_iff in Hv. by destruct (Hvalid ev).
Qed.

(** C9: when [set_events] returns [Error], [usedLength] is what it was before
    the call (and so are [Length] and [next]), while [containedKinds] has
    been cleared and rebuilt from the specs before the failing one, the event
    waiters before the failing index hold the results of their resets, and
    those from the failing index on are untouched. *)
Theorem set_events_error_keeps_usedLength (e : Env) (mem : Z → Z)
    (newEvents : list EventWaiterSource) (this this' : MultiWaiter) :
  set_events e mem newEvents this = Ok (this', Error) →
  usedLength this' = usedLength this ∧
  Length this' = Length this ∧
  next this' = next this ∧
  ∃ i ev,
    newEvents !! i = Some ev ∧ validate ev = None ∧
    (∀ k, 0 ≤ k →
       Z.testbit (containedKinds this') k =
         existsb (λ ev, bool_decide (k = src_kind ev)) (take i newEvents)) ∧
    (∀ j ev', (j < i)%nat → newEvents !! j = Some ev' →
       ∃ v slot reg, validate ev' = Some v ∧
         events this !! j = Some slot ∧
         reset e mem v (src_value ev') slot = Ok reg ∧
         events this' !! j = Some reg.1) ∧
    (∀ j, (i ≤ j)%nat → events this' !! j = events this !! j).
Proof.
  intros Hrun.
  apply set_events_inv in Hrun as
    (regs & HL & HN & HE & Hn & (HU & ev & Hev & Hbad) & Hreg & Hframe
     & Hbits).
  repeat split; try done.
  exists (length regs), ev. repeat split; try done.
  intros j ev' Hj Hev'.
  destruct (Hreg j ev' Hj Hev') as (v & slot & reg & ? & ? & ? & ? & ?).
  by exists v, slot, reg.
Qed.

End SetEventsProperties.

Lemma example_waiter_wf (n : Z) :
  0 ≤ n ≤ MaxMultiWaiterSize → MultiWaiter_wf (example_waiter n).
Proof.
  intros Hn. split; [exact Hn|]. split; [simpl; lia|].
  simpl. by rewrite length_replicate.
Defined.

Lemma example_batch_ok_valid (ev : @EventWaiterSource example_collaborators) :
  ev ∈ example_batch_ok → ¬ fails_validation ev.
Proof.
  intros Hin Hbad. apply validate_None_iff in Hbad.
  unfold example_batch_ok in Hin.
  repeat (apply elem_of_cons in Hin as [->|Hin]; [by cbv in Hbad|]).
  by apply elem_of_nil in Hin.
Defined.

Lemma set_events_error_iff_invalid_witness :
  MultiWaiter_wf (example_waiter 3) ∧
  Z.of_nat (length example_batch_bad) ≤ Length (example_waiter 3) ∧
  ∃ this' r,
    set_events example_env example_mem example_batch_bad (example_waiter 3)
      = Ok (this', r) ∧
    (r = Error ↔ ∃ ev, ev ∈ example_batch_bad ∧ fails_validation ev) ∧
    (r = Error →
     ∃ i ev, example_batch_bad !! i = Some ev ∧ fails_validation ev ∧
       (∀ j ev', (j < i)%nat → example_batch_bad !! j = Some ev' →
          ¬ fails_validation ev') ∧
       (∀ j, (i ≤ j)%nat →
          events this' !! j = events (example_waiter 3) !! j) ∧
       usedLength this' = usedLength (example_waiter 3)).
Proof.
  assert (Hwf : MultiWaiter_wf (example_waiter 3))
    by (apply example_waiter_wf; unfold MaxMultiWaiterSize; lia).
  assert (Hcount : Z.of_nat (length example_batch_bad)
                   ≤ Length (example_waiter 3)) by (simpl; lia).
  split; [exact Hwf|]. split; [exact Hcount|].
  exact (set_events_error_iff_invalid example_env example_mem
           example_batch_bad (example_waiter 3) Hwf Hcount).
Defined.

Lemma set_events_success_witness :
  MultiWaiter_wf (example_waiter 2) ∧
  Z.of_nat (length example_batch_ok) ≤ Length (example_waiter 2) ∧
  (∀ ev, ev ∈ example_batch_ok → ¬ fails_validation ev) ∧
  ∃ this' r (regs : list (EventWaiter * bool)),
    set_events example_env example_mem example_batch_ok (example_waiter 2)
      = Ok (this', r) ∧
    usedLength this' = Z.of_nat (length example_batch_ok) ∧
    length regs = length example_batch_ok ∧
    (∀ i ev, example_batch_ok !! i = Some ev →
       ∃ v slot reg, validate ev = Some v ∧
         events (example_waiter 2) !! i = Some slot ∧
         reset example_env example_mem v (src_value ev) slot = Ok reg ∧
         regs !! i = Some reg ∧
         events this' !! i = Some reg.1) ∧
    (r = Wake ↔ ∃ reg, reg ∈ regs ∧ reg.2 = true) ∧
    (r = Sleep ↔ ∀ reg, reg ∈ regs → reg.2 = false) ∧
    (∀ k, 0 ≤ k →
       Z.testbit (containedKinds this') k = true ↔
       ∃ ev, ev ∈ example_batch_ok ∧ src_kind ev = k).
Proof.
  assert (Hwf : MultiWaiter_wf (example_waiter 2))
    by (apply example_waiter_wf; unfold MaxMultiWaiterSize; lia).
  assert (Hcount : Z.of_nat (length example_batch_ok)
                   ≤ Length (example_waiter 2)) by (simpl; lia).
  split; [exact Hwf|]. split; [exact Hcount|].
  split; [exact example_batch_ok_valid|].
  exact (set_events_success example_env example_mem example_batch_ok
           (example_waiter 2) Hwf Hcount example_batch_ok_valid).
Defined.

Lemma set_events_error_keeps_usedLength_witness :
  set_events example_env example_mem example_batch_bad (example_waiter 3)
    = Ok (example_failed, Error) ∧
  usedLength example_failed = usedLength (example_waiter 3) ∧
  Length example_failed = Length (example_waiter 3) ∧
  next example_failed = next (example_waiter 3) ∧
  ∃ i ev,
    example_batch_bad !! i = Some ev ∧ validate ev = None ∧
    (∀ k, 0 ≤ k →
       Z.testbit (containedKinds example_failed) k =
         existsb (λ ev, bool_decide (k = src_kind ev))
           (take i example_batch_bad)) ∧
    (∀ j ev', (j < i)%nat → example_batch_bad !! j = Some ev' →
       ∃ v slot reg, validate ev' = Some v ∧
         events (example_waiter 3) !! j = Some slot ∧
         reset example_env example_mem v (src_value ev') slot = Ok reg ∧
         events example_failed !! j = Some reg.1) ∧
    (∀ j, (i ≤ j)%nat →
       events example_failed !! j = events (example_waiter 3) !! j).
Proof.
  assert (Hrun : set_events example_env example_mem example_batch_bad
                   (example_waiter 3) = Ok (example_failed, Error))
    by reflexivity.
  split; [exact Hrun|].
  exact (set_events_error_keeps_usedLength example_env example_mem
           example_batch_bad (example_waiter 3) example_failed Hrun).
Defined.

(** ** The list of woken multiwaiters *)

Lemma lseg_app (h : gmap Z MultiWaiter) (l1 l2 : list Z) (a c : option Z) :
  lseg h a (l1 ++ l2) c ↔ ∃ b, lseg h a l1 b ∧ lseg h b l2 c.
Proof.
  revert a. induction l1 as [|p l1 IH]; intros a; simpl.
  - split.
    + intros Hl. by exists a.
    + by intros (b & -> & Hl).
  - split.
    + intros (-> & m & Hm & Hl). apply IH in Hl as (b & H1 & H2).
      exists b. split; [|done]. split; [done|]. by exists m.
    + intros (b & (-> & m & Hm & H1) & H2). split; [done|].
      exists m. split; [done|]. apply IH. by exists b.
Qed.

Lemma lseg_functional (h : gmap Z MultiWaiter) (a : option Z)
    (l l' : list Z) :
  lseg h a l None → lseg h a l' None → l = l'.
Proof.
  revert a l'. induction l as [|p l IH]; intros a [|p' l']; simpl.
  - done.
  - by intros -> [? _].
  - by intros [-> _] ?.
  - intros (-> & m & Hm & Hl) (? & m' & Hm' & Hl'). simplify_eq.
    f_equal. by eapply IH.
Qed.

Lemma lseg_NoDup (h : gmap Z MultiWaiter) (a : option Z) (l : list Z) :
  lseg h a l None → NoDup l.
Proof.
  revert a. induction l as [|p l IH]; intros a; simpl.
  - intros _. constructor.
  - intros (-> & m & Hm & Hl). constructor; [|by eapply IH].
    intros Hin. apply list_elem_of_split in Hin as (l1 & l2 & ->).
    apply lseg_app in Hl as Hsplit. destruct Hsplit as (b & H1 & H2).
    assert (Hfull : lseg h (Some p) (p :: l1 ++ p :: l2) None).
    { simpl. split; [done|]. by exists m. }
    assert (b = Some p) as -> by (simpl in H2; by destruct H2).
    pose proof (lseg_functional _ _ _ _ Hfull H2) as Heq.
    apply (f_equal length) in Heq. simpl in Heq.
    rewrite length_app in Heq. simpl in Heq. lia.
Qed.

Lemma lseg_lookup (h : gmap Z MultiWaiter) (a c : option Z) (l : list Z)
    (p : Z) :
  lseg h a l c → p ∈ l → is_Some (h !! p).
Proof.
  revert a. induction l as [|q l IH]; intros a; simpl.
  - intros _ Hin. by apply elem_of_nil in Hin.
  - intros (-> & m & Hm & Hl) Hin.
    apply elem_of_cons in Hin as [->|Hin]; [by exists m|by eapply IH].
Qed.

Lemma lseg_length (h : gmap Z MultiWaiter) (a : option Z) (l : list Z) :
  lseg h a l None → (length l ≤ size h)%nat.
Proof.
  intros Hl.
  rewrite <- (size_list_to_set (C := gset Z) l) by by eapply lseg_NoDup.
  rewrite <- size_dom. apply subseteq_size.
  intros p Hp. apply elem_of_list_to_set in Hp.
  apply elem_of_dom. by eapply lseg_lookup.
Qed.

Lemma lseg_frame (h h' : gmap Z MultiWaiter) (a c : option Z) (l : list Z) :
  (∀ p, p ∈ l → next <$> h' !! p = next <$> h !! p) →
  lseg h a l c → lseg h' a l c.
Proof.
  revert a. induction l as [|q l IH]; intros a Hsame; simpl; [done|].
  intros (-> & m & Hm & Hl). split; [done|].
  assert (Hq : next <$> h' !! q = next <$> h !! q)
    by (apply Hsame; apply elem_of_cons; by left).
  rewrite Hm in Hq. simpl in Hq.
  destruct (h' !! q) as [m'|] eqn:Hm'; [|done].
  simpl in Hq. exists m'. split; [done|].
  assert (next m' = next m) as -> by congruence.
  apply IH; [|done]. intros p Hp. apply Hsame, elem_of_cons. by right.
Qed.

Lemma heap_erase_lookup (h : gmap Z MultiWaiter) (p : Z) :
  heap_erase h !! p = set_next None <$> h !! p.
Proof. unfold heap_erase. apply lookup_fmap. Qed.

Lemma heap_erase_insert (h : gmap Z MultiWaiter) (p : Z) (m : MultiWaiter)
    (n : option Z) :
  h !! p = Some m → heap_erase (<[p := set_next n m]> h) = heap_erase h.
Proof.
  intros Hm. apply map_eq. intros q. rewrite !heap_erase_lookup.
  destruct (decide (p = q)) as [->|Hne].
  - rewrite lookup_insert_eq, Hm. done.
  - by rewrite lookup_insert_ne.
Qed.

Lemma heap_erase_fields (h h' : gmap Z MultiWaiter) (p : Z)
    (m : MultiWaiter) :
  heap_erase h' = heap_erase h → h !! p = Some m →
  ∃ m', h' !! p = Some m' ∧ m' = set_next (next m') m.
Proof.
  intros Heq Hm.
  assert (Hp : heap_erase h' !! p = heap_erase h !! p) by by rewrite Heq.
  rewrite !heap_erase_lookup, Hm in Hp.
  destruct (h' !! p) as [m'|]; [|done].
  exists m'. split; [done|].
  simpl in Hp. destruct m, m'. unfold set_next in *. simpl in *.
  by simplify_eq.
Qed.

(** The loop of [remove_from_pending_wake_list] ends, at the link before
    [this] or at the last link. *)
Lemma find_link_lseg (this : Z) (s : Sched) :
  ∀ (l : list Z) (prev : Link) (from : option Z) (fuel : nat),
  read_link prev s = Ok from →
  lseg (heap s) from l None →
  (length l < fuel)%nat →
  find_link fuel this prev s = Ok (link_before this prev l).
Proof.
  induction l as [|p l IH]; intros prev from fuel Hread Hl Hfuel;
    (destruct fuel as [|fuel]; [simpl in Hfuel; lia|]); simpl in *.
  - rewrite Hread. simpl. by rewrite Hl.
  - destruct Hl as (-> & m & Hm & Hl). rewrite Hread. simpl.
    case_decide; [done|].
    apply (IH _ (next m)); [|done|lia].
    simpl. unfold load. by rewrite Hm.
Qed.

Lemma link_before_not_in (this : Z) (l : list Z) (prev : Link) :
  this ∉ l → link_before this prev l = last_link prev l.
Proof.
  revert prev. induction l as [|p l IH]; intros prev Hin; [done|].
  simpl. apply not_elem_of_cons in Hin as [Hne Hin].
  rewrite decide_False by done. rewrite IH by done.
  unfold last_link. destruct l as [|q l]; [done|].
  rewrite last_cons_cons.
  destruct (last (q :: l)) eqn:Hlast; [done|].
  by apply last_None in Hlast.
Qed.

Lemma link_before_split (this : Z) (l1 l2 : list Z) (prev : Link) :
  this ∉ l1 →
  link_before this prev (l1 ++ this :: l2) = last_link prev l1.
Proof.
  revert prev. induction l1 as [|p l1 IH]; intros prev Hin; simpl.
  - by rewrite decide_True.
  - apply not_elem_of_cons in Hin as [Hne Hin].
    rewrite decide_False by done. rewrite IH by done.
    unfold last_link. destruct l1 as [|q l1]; [done|].
    rewrite last_cons_cons.
    destruct (last (q :: l1)) eqn:Hlast; [done|].
    by apply last_None in Hlast.
Qed.

Lemma filter_ne_not_in (this : Z) (l : list Z) :
  this ∉ l → filter (λ p, p ≠ this) l = l.
Proof.
  induction l as [|p l IH]; intros Hin; [done|].
  apply not_elem_of_cons in Hin as [Hne Hin].
  rewrite filter_cons_True by done. by rewrite IH.
Qed.

Lemma filter_ne_split (this : Z) (l1 l2 : list Z) :
  NoDup (l1 ++ this :: l2) →
  filter (λ p, p ≠ this) (l1 ++ this :: l2) = l1 ++ l2.
Proof.
  intros Hnd. apply NoDup_app in Hnd as (_ & Hdis & Hnd2).
  apply NoDup_cons in Hnd2 as [Hin2 _].
  rewrite filter_app, filter_cons_False by (intros Hc; by apply Hc).
  rewrite !filter_ne_not_in; [done|done|].
  intros Hin1. apply (Hdis _ Hin1). apply elem_of_cons. by left.
Qed.

Lemma load_Some (p : Z) (m : MultiWaiter) (s : Sched) :
  heap s !! p = Some m → load p s = Ok m.
Proof. intros Hm. unfold load. by rewrite Hm. Qed.

Lemma load_thread_Some (t : Z) (th : Thread) (s : Sched) :
  thread_table s !! t = Some th → load_thread t s = Ok th.
Proof. intros Hth. unfold load_thread. by rewrite Hth. Qed.

Lemma set_next_same (m : MultiWaiter) : set_next (next m) m = m.
Proof. by destruct m. Qed.

Lemma store_same (p : Z) (m : MultiWaiter) (s : Sched) :
  heap s !! p = Some m → store p m s = s.
Proof.
  intros Hm. destruct s as [h tt ts wk]. unfold store. simpl in *.
  by rewrite insert_id.
Qed.

(** Writing [v] to the link that ends the segment [l1]. *)
Lemma write_last_link (s : Sched) (l1 : list Z) (b v : option Z) :
  lseg (heap s) (wokenMultiwaiters s) l1 b →
  NoDup l1 →
  ∃ s1, write_link (last_link LinkHead l1) v s = Ok s1 ∧
    lseg (heap s1) (wokenMultiwaiters s1) l1 v ∧
    heap_erase (heap s1) = heap_erase (heap s) ∧
    thread_table s1 = thread_table s ∧
    threads s1 = threads s ∧
    (∀ p, p ∉ l1 → heap s1 !! p = heap s !! p) ∧
    (b = v → s1 = s).
Proof.
  intros Hl Hnd. destruct l1 as [|q0 l0] using rev_ind.
  - simpl in Hl. exists (set_wokenMultiwaiters v s).
    repeat split; try done.
    intros <-. destruct s. unfold set_wokenMultiwaiters. simpl in *.
    by rewrite Hl.
  - clear IHl0. unfold last_link. rewrite last_snoc. simpl.
    apply lseg_app in Hl as (mid & Hl0 & Hq).
    simpl in Hq. destruct Hq as (-> & mq & Hmq & Hb).
    apply NoDup_app in Hnd as (_ & Hdis & _).
    rewrite (load_Some _ _ _ Hmq). simpl.
    exists (store q0 (set_next v mq) s). simpl.
    repeat split; try done.
    + apply lseg_app. exists (Some q0). split.
      * eapply lseg_frame; [|done]. intros p Hp.
        rewrite lookup_insert_ne; [done|].
        intros ->. apply (Hdis _ Hp). apply elem_of_cons. by left.
      * simpl. split; [done|]. exists (set_next v mq).
        rewrite lookup_insert_eq. done.
    + by apply heap_erase_insert.
    + intros p Hp. rewrite lookup_insert_ne; [done|].
      intros ->. apply Hp. apply elem_of_app. right.
      apply elem_of_cons. by left.
    + intros <-. rewrite <- Hb, set_next_same. by apply store_same.
Qed.

(** [remove_from_pending_wake_list] on a well-formed list: it ends, touches
    nothing but [next] fields and the head of the list, leaves [this] with
    no successor, takes [this] out of the list when it is in it, and
    changes nothing when [this] is not in the list and has no successor. *)
Lemma remove_from_pending_wake_list_pending (this : Z) (s : Sched)
    (l : list Z) (me : MultiWaiter) :
  pending s l →
  heap s !! this = Some me →
  ∃ s1, remove_from_pending_wake_list this s = Ok s1 ∧
    thread_table s1 = thread_table s ∧
    threads s1 = threads s ∧
    heap_erase (heap s1) = heap_erase (heap s) ∧
    heap s1 !! this = Some (set_next None me) ∧
    (this ∈ l ∨ next me = None →
     pending s1 (filter (λ p, p ≠ this) l)) ∧
    (this ∉ l → next me = None → s1 = s).
Proof.
  intros Hl Hme. unfold remove_from_pending_wake_list.
  pose proof (lseg_NoDup _ _ _ Hl) as Hnd.
  rewrite (find_link_lseg this s l LinkHead (wokenMultiwaiters s));
    [|done|done|pose proof (lseg_length _ _ _ Hl); lia].
  simpl. rewrite (load_Some _ _ _ Hme). simpl.
  destruct (decide (this ∈ l)) as [Hin|Hin].
  - apply list_elem_of_split_l in Hin as (l1 & l2 & -> & Hin1).
    rewrite link_before_split by done.
    apply lseg_app in Hl as Hsplit. destruct Hsplit as (b & Hl1 & Hl2).
    simpl in Hl2. destruct Hl2 as (-> & me' & Hme' & Hl2).
    assert (me' = me) as -> by congruence.
    apply NoDup_app in Hnd as Hnd'. destruct Hnd' as (Hnd1 & Hdis & Hnd2).
    apply NoDup_cons in Hnd2 as [Hin2 Hnd2].
    destruct (write_last_link s l1 (Some this) (next me) Hl1 Hnd1)
      as (s1 & -> & Hl1' & Her & Htt & Hts & Hother & _).
    simpl. rewrite (load_Some this me s1) by by rewrite Hother.
    simpl. eexists. split; [done|]. simpl.
    repeat split; try done.
    + rewrite <- Her. by apply heap_erase_insert; rewrite Hother.
    + apply lookup_insert_eq.
    + intros _. rewrite filter_ne_split by done.
      unfold pending. simpl. apply lseg_app. exists (next me). split.
      * eapply lseg_frame; [|done]. intros p Hp.
        rewrite lookup_insert_ne; [done|]. by intros ->.
      * eapply lseg_frame; [|done]. intros p Hp.
        rewrite lookup_insert_ne by (by intros ->).
        rewrite Hother; [done|].
        intros Hp1. apply (Hdis _ Hp1). apply elem_of_cons. by right.
    + intros Hc. exfalso. apply Hc. apply elem_of_app. right.
      apply elem_of_cons. by left.
  - rewrite link_before_not_in by done.
    destruct (write_last_link s l None (next me) Hl Hnd)
      as (s1 & -> & Hl' & Her & Htt & Hts & Hother & Hsame).
    simpl. rewrite (load_Some this me s1) by by rewrite Hother.
    simpl. eexists. split; [done|]. simpl.
    repeat split; try done.
    + rewrite <- Her. by apply heap_erase_insert; rewrite Hother.
    + apply lookup_insert_eq.
    + intros [Hc|Hnone]; [done|].
      rewrite filter_ne_not_in by done.
      rewrite Hsame by done. unfold pending. simpl.
      eapply lseg_frame; [|done]. intros p Hp.
      rewrite lookup_insert_ne; [done|]. by intros ->.
    + intros _ Hnone. rewrite Hsame by done.
      rewrite <- Hnone, set_next_same. by apply store_same.
Qed.

(** ** Creation *)

(** C4, as amended: for a [length] of at most 8, 0 included, [create] succeeds
    when the allocation succeeds: it sets [error] to 0 and returns a
    multiwaiter of that capacity with [usedLength] 0, no kinds and no
    successor, stored at the allocated address; it fails with [-ENOMEM] when
    the allocation fails, and with [-EINVAL], before allocating, for every
    [length] above 8.  A failed [create] changes nothing. *)
Theorem create_outcome (length : Z) (q : option Z)
    (uninitialised : nat → EventWaiter) (s : Sched) :
  0 ≤ length →
  (length > 8 → create length q uninitialised s = (s, None, - EINVAL)) ∧
  (length ≤ 8 → q = None →
   create length q uninitialised s = (s, None, - ENOMEM)) ∧
  (length ≤ 8 → ∀ p, q = Some p →
   ∃ m, create length q uninitialised s = (store p m s, Some p, 0) ∧
     Length m = length ∧ usedLength m = 0 ∧ containedKinds m = 0 ∧
     next m = None ∧ MultiWaiter_wf m).
Proof.
  intros Hlen. unfold create, MaxMultiWaiterSize. repeat split.
  - intros Hgt. by rewrite decide_True.
  - intros Hle ->. by rewrite decide_False by lia.
  - intros Hle p ->. rewrite decide_False by lia.
    eexists. split; [done|]. simpl.
    assert (Hu : uint8 length = length)
      by (unfold uint8; apply Z.mod_small; lia).
    rewrite Hu. repeat split; try done; try (unfold MaxMultiWaiterSize; lia).
    simpl. by rewrite length_fmap, length_seq.
Qed.

Lemma create_outcome_witness :
  0 ≤ 0 ∧
  (0 > 8 → create 0 (Some 64) (λ _, EventWaiter_zero) Sched_empty
           = (Sched_empty, None, - EINVAL)) ∧
  (0 ≤ 8 → Some 64 = None →
   create 0 (Some 64) (λ _, EventWaiter_zero) Sched_empty
     = (Sched_empty, None, - ENOMEM)) ∧
  (0 ≤ 8 → ∀ p, Some 64 = Some p →
   ∃ m, create 0 (Some 64) (λ _, EventWaiter_zero) Sched_empty
          = (store p m Sched_empty, Some p, 0) ∧
     Length m = 0 ∧ usedLength m = 0 ∧ containedKinds m = 0 ∧
     next m = None ∧ MultiWaiter_wf m).
Proof.
  split; [lia|].
  apply (create_outcome 0 (Some 64) (λ _, EventWaiter_zero) Sched_empty).
  lia.
Defined.

(** C4, as stated, fails at capacity 0: with an allocation at hand, [create]
    returns the multiwaiter and sets [error] to 0, not to [-EINVAL]. *)
Lemma create_capacity_zero_succeeds :
  (create 0 (Some 64) (λ _, EventWaiter_zero) Sched_empty).1.2 = Some 64 ∧
  (create 0 (Some 64) (λ _, EventWaiter_zero) Sched_empty).2 = 0 ∧
  (create 0 (Some 64) (λ _, EventWaiter_zero) Sched_empty).2 ≠ - EINVAL.
Proof.
  split; [reflexivity|]. split; [reflexivity|].
  intros Hc. vm_compute in Hc. discriminate Hc.
Qed.

(** ** Collecting the results: [get_results] *)

Section GetResultsProperties.
Context `{Collaborators}.

Lemma get_results_loop_spec (slots : list EventWaiter) :
  ∀ (newEvents : list EventWaiterSource) (i : nat) (found : bool),
  (i + length newEvents ≤ length slots)%nat →
  ∃ out found',
    get_results_loop slots newEvents i found = Ok (out, found') ∧
    length out = length newEvents ∧
    (∀ j ev, newEvents !! j = Some ev →
       ∃ w, slots !! (i + j)%nat = Some w ∧
         out !! j = Some (mkEventWaiterSource (src_eventSource ev)
                            (readyEvents w) (src_kind ev))) ∧
    (found' = true ↔
     found = true ∨
     ∃ j w, (j < length newEvents)%nat ∧ slots !! (i + j)%nat = Some w ∧
       readyEvents w ≠ 0).
Proof.
  induction newEvents as [|ev rest IH]; intros i found Hlen; simpl in *.
  - exists [], found. repeat split; try done.
    + by left.
    + intros [?|(j & w & ? & _)]; [done|lia].
  - destruct (lookup_lt_is_Some_2 slots i) as [w Hw]; [lia|].
    rewrite Hw.
    destruct (IH (S i) (found || bool_decide (readyEvents w ≠ 0)))
      as (out & found' & -> & Hout & Hcopy & Hfound); [lia|].
    simpl. eexists _, found'. split; [done|]. simpl.
    repeat split.
    + by rewrite Hout.
    + intros [|j] ev' Hev'; simpl in Hev'.
      * simplify_eq. exists w. by rewrite Nat.add_0_r.
      * destruct (Hcopy j ev' Hev') as (w' & Hw' & Ho).
        exists w'. replace (i + S j)%nat with (S i + j)%nat by lia. done.
    + intros Hf. apply Hfound in Hf as [Hf|(j & w' & Hj & Hw' & Hr)].
      * apply orb_true_iff in Hf as [Hf|Hf]; [by left|].
        right. exists 0%nat, w. rewrite Nat.add_0_r.
        apply bool_decide_eq_true_1 in Hf. split; [lia|done].
      * right. exists (S j), w'.
        replace (i + S j)%nat with (S i + j)%nat by lia.
        split; [lia|done].
    + intros Hf. apply Hfound.
      destruct Hf as [->|([|j] & w' & Hj & Hw' & Hr)].
      * by left.
      * left. rewrite Nat.add_0_r in Hw'. simplify_eq.
        rewrite bool_decide_eq_true_2 by done. apply orb_true_r.
      * right. exists j, w'.
        replace (S i + j)%nat with (i + S j)%nat by lia.
        split; [lia|done].
Qed.

(** C8: on a well-formed list of woken multiwaiters, [get_results] with
    [count <= Length] first does what [remove_from_pending_wake_list] does,
    which takes the multiwaiter out of the list and changes nothing when the
    multiwaiter is not linked; it then writes [readyEvents] of event waiter
    [i] to [value] of entry [i] for every [i] below [count], and returns true
    exactly when one of these [readyEvents] is not zero.  With
    [count > Length] it stops at the failed assertion. *)
Theorem get_results_copies (this : Z) (newEvents : list EventWaiterSource)
    (s : Sched) (l : list Z) (me : MultiWaiter) :
  pending s l →
  heap s !! this = Some me →
  MultiWaiter_wf me →
  (Z.of_nat (length newEvents) ≤ Length me →
   ∃ s1 out found,
     get_results this newEvents s = Ok (s1, out, found) ∧
     remove_from_pending_wake_list this s = Ok s1 ∧
     (this ∈ l ∨ next me = None →
      pending s1 (filter (λ p, p ≠ this) l)) ∧
     (this ∉ l → next me = None → s1 = s) ∧
     length out = length newEvents ∧
     (∀ i ev, newEvents !! i = Some ev →
        ∃ w, events me !! i = Some w ∧
          out !! i = Some (mkEventWaiterSource (src_eventSource ev)
                             (readyEvents w) (src_kind ev))) ∧
     (found = true ↔
      ∃ i w, (i < length newEvents)%nat ∧ events me !! i = Some w ∧
        readyEvents w ≠ 0)) ∧
  (Length me < Z.of_nat (length newEvents) →
   get_results this newEvents s = Fault AssertionFailure).
Proof.
  intros Hl Hme (Hrange & _ & Hlen).
  destruct (remove_from_pending_wake_list_pending this s l me Hl Hme)
    as (s1 & Hrm & _ & _ & _ & Hme1 & Hpend & Hnoop).
  unfold get_results. rewrite Hrm. simpl.
  rewrite (load_Some _ _ _ Hme1). simpl. split.
  - intros Hcount. rewrite decide_True by done.
    destruct (get_results_loop_spec (events me) newEvents 0 false)
      as (out & found & -> & Hout & Hcopy & Hfound); [lia|].
    simpl. exists s1, out, found. repeat split; try done.
    + intros Hf. apply Hfound in Hf as [?|Hf]; done.
    + intros Hf. apply Hfound. by right.
  - intros Hcount. by rewrite decide_False by lia.
Qed.

End GetResultsProperties.

Lemma example_woken_pending : pending example_woken [64].
Proof.
  split; [reflexivity|]. exists (example_waitset 1). by split.
Defined.

Lemma example_waitset_wf (ready : Z) : MultiWaiter_wf (example_waitset ready).
Proof. split; [by vm_compute|]. split; [by vm_compute|]. reflexivity. Defined.

Lemma get_results_copies_witness :
  pending example_woken [64] ∧
  heap example_woken !! 64 = Some (example_waitset 1) ∧
  MultiWaiter_wf (example_waitset 1) ∧
  (Z.of_nat (length [example_spec 2 (Pointer 1000 true) 7])
     ≤ Length (example_waitset 1) →
   ∃ s1 out found,
     get_results 64 [example_spec 2 (Pointer 1000 true) 7] example_woken
       = Ok (s1, out, found) ∧
     remove_from_pending_wake_list 64 example_woken = Ok s1 ∧
     (64 ∈ [64] ∨ next (example_waitset 1) = None →
      pending s1 (filter (λ p, p ≠ 64) [64])) ∧
     (64 ∉ [64] → next (example_waitset 1) = None →
      s1 = example_woken) ∧
     length out = length [example_spec 2 (Pointer 1000 true) 7] ∧
     (∀ i ev, [example_spec 2 (Pointer 1000 true) 7] !! i = Some ev →
        ∃ w, events (example_waitset 1) !! i = Some w ∧
          out !! i = Some (mkEventWaiterSource (src_eventSource ev)
                             (readyEvents w) (src_kind ev))) ∧
     (found = true ↔
      ∃ i w, (i < length [example_spec 2 (Pointer 1000 true) 7])%nat ∧
        events (example_waitset 1) !! i = Some w ∧ readyEvents w ≠ 0)) ∧
  (Length (example_waitset 1)
     < Z.of_nat (length [example_spec 2 (Pointer 1000 true) 7]) →
   get_results 64 [example_spec 2 (Pointer 1000 true) 7] example_woken
     = Fault AssertionFailure).
Proof.
  assert (Hme : heap example_woken !! 64 = Some (example_waitset 1))
    by reflexivity.
  split; [exact example_woken_pending|]. split; [exact Hme|].
  split; [exact (example_waitset_wf 1)|].
  exact (get_results_copies 64 [example_spec 2 (Pointer 1000 true) 7]
           example_woken [64] (example_waitset 1) example_woken_pending Hme
           (example_waitset_wf 1)).
Defined.

(** Thread 1 has been woken by the futex: the results are the one
    [readyEvents], and the multiwaiter leaves the list of woken
    multiwaiters. *)
Example get_results_example :
  get_results 64 [example_spec 2 (Pointer 1000 true) 7] example_woken
    = Ok (mkSched (heap example_woken) (thread_table example_woken) [] None,
          [example_spec 2 (Pointer 1000 true) 1], true).
Proof. reflexivity. Qed.

(** ** Destruction *)

Lemma filter_all {A} (P : A → Prop) `{!∀ x, Decision (P x)} (l : list A) :
  (∀ x, x ∈ l → P x) → filter P l = l.
Proof.
  induction l as [|a l IH]; intros Hall; [done|].
  rewrite filter_cons_True by (apply Hall, elem_of_cons; by left).
  rewrite IH; [done|]. intros x Hx. apply Hall, elem_of_cons. by right.
Qed.

Lemma filter_iff_in {A} (P Q : A → Prop) `{!∀ x, Decision (P x)}
    `{!∀ x, Decision (Q x)} (l : list A) :
  (∀ x, x ∈ l → P x ↔ Q x) → filter P l = filter Q l.
Proof.
  induction l as [|a l IH]; intros Hiff; [done|].
  rewrite !filter_cons.
  rewrite IH by (intros x Hx; apply Hiff, elem_of_cons; by right).
  apply decide_ext. apply Hiff, elem_of_cons. by left.
Qed.

Lemma waiter_of_lookup (s : Sched) (t : Z) (th : Thread) :
  thread_table s !! t = Some th → waiter_of s t = multiWaiter th.
Proof. intros Hth. unfold waiter_of. by rewrite Hth. Qed.

(** What the destructor does to one thread. *)
Lemma destructor_visit_spec (this t : Z) (s : Sched) (th : Thread) :
  thread_table s !! t = Some th →
  destructor_visit this t s =
    Ok (if decide (multiWaiter th = Some this) then
          mkSched (heap s)
            (<[t := mkThread None (Ready WakeReason.Timer)]> (thread_table s))
            (filter (λ x, x ≠ t) (threads s)) (wokenMultiwaiters s)
        else s).
Proof.
  intros Hth. unfold destructor_visit.
  rewrite (load_thread_Some _ _ _ Hth). simpl.
  case_decide; [|done].
  unfold Thread_ready, load_thread, store_thread. simpl.
  rewrite lookup_insert_eq. simpl. by rewrite insert_insert_eq.
Qed.

(** The walk of the destructor over the threads [l]. *)
Lemma destructor_walk (this : Z) :
  ∀ (l : list Z) (s : Sched),
  (∀ t, t ∈ l → is_Some (thread_table s !! t)) →
  ∃ s', walk_thread_list l (destructor_visit this) (λ _, false) s = Ok s' ∧
    heap s' = heap s ∧
    wokenMultiwaiters s' = wokenMultiwaiters s ∧
    (∀ t, thread_table s' !! t =
       if decide (t ∈ l ∧ waits_on s this t)
       then Some (mkThread None (Ready WakeReason.Timer))
       else thread_table s !! t) ∧
    threads s' = filter (λ t, ¬ (t ∈ l ∧ waits_on s this t)) (threads s).
Proof.
  induction l as [|t l IH]; intros s Hall; cbn [walk_thread_list].
  - exists s. split; [done|]. split; [done|]. split; [done|]. split.
    + intros t. rewrite decide_False; [done|].
      intros [Hin _]. by apply elem_of_nil in Hin.
    + symmetry. apply filter_all. intros t _ [Hin _].
      by apply elem_of_nil in Hin.
  - destruct (Hall t) as [th Hth]; [apply elem_of_cons; by left|].
    rewrite (destructor_visit_spec this t s th Hth).
    change (Ok ?a ≫= ?k) with (k a). cbv beta.
    assert (Hw : waits_on s this t ↔ multiWaiter th = Some this).
    { unfold waits_on. by rewrite (waiter_of_lookup _ _ _ Hth). }
    destruct (decide (multiWaiter th = Some this)) as [Hm|Hm].
    + set (s1 := mkSched _ _ _ _).
      destruct (IH s1) as (s' & -> & Hh & Hk & Htt & Hts).
      { intros x Hx. subst s1. simpl.
        destruct (decide (x = t)) as [->|Hne].
        - rewrite lookup_insert_eq. by eexists.
        - rewrite lookup_insert_ne by done.
          apply Hall, elem_of_cons. by right. }
      assert (Hw1 : ∀ x,
                waits_on s1 this x ↔ x ≠ t ∧ waits_on s this x).
      { intros x. unfold waits_on, waiter_of. subst s1. simpl.
        destruct (decide (x = t)) as [->|Hne].
        - rewrite lookup_insert_eq. simpl. intuition congruence.
        - rewrite lookup_insert_ne by done. intuition congruence. }
      exists s'. split; [done|]. split; [done|]. split; [done|]. split.
      * intros x. rewrite Htt.
        destruct (decide (x = t)) as [->|Hne].
        -- rewrite decide_False by (rewrite Hw1; intuition congruence).
           rewrite decide_True.
           ++ subst s1. simpl. by rewrite lookup_insert_eq.
           ++ split; [apply elem_of_cons; by left|by apply Hw].
        -- subst s1. simpl. rewrite lookup_insert_ne by done.
           apply decide_ext. rewrite Hw1, elem_of_cons. intuition congruence.
      * rewrite Hts. subst s1. simpl. rewrite list_filter_filter.
        apply list_filter_iff. intros x.
        rewrite Hw1, elem_of_cons.
        destruct (decide (x = t)) as [->|Hne]; [|intuition congruence].
        split; [intuition congruence|]. intros Hc. exfalso. apply Hc.
        split; [by left|by apply Hw].
    + destruct (IH s) as (s' & -> & Hh & Hk & Htt & Hts).
      { intros x Hx. apply Hall, elem_of_cons. by right. }
      exists s'. split; [done|]. split; [done|]. split; [done|]. split.
      * intros x. rewrite Htt. apply decide_ext.
        rewrite elem_of_cons. split; [intuition congruence|].
        intros [[->|Hin] Hx]; [|done]. by apply Hw in Hx.
      * rewrite Hts. apply list_filter_iff. intros x.
        rewrite elem_of_cons. split; [|intuition congruence].
        intros Hn [[->|Hin] Hx]; [by apply Hw in Hx|intuition congruence].
Qed.

(** C1, as amended: on a well-formed list of woken multiwaiters, the
    destructor ends; it first takes the multiwaiter out of that list, and
    then every thread on the Sleeping-Thread List that records the
    multiwaiter has its reference cleared, is marked ready with the reason
    [Timer] and leaves the list.  Afterwards no thread on the
    Sleeping-Thread List records the destroyed multiwaiter.  Every other
    thread, on the list or not, is as it was. *)
Theorem destructor_wakes_sleepers (this : Z) (s : Sched) (l : list Z)
    (me : MultiWaiter) :
  pending s l →
  heap s !! this = Some me →
  (∀ t, t ∈ threads s → is_Some (thread_table s !! t)) →
  ∃ s1 s',
    remove_from_pending_wake_list this s = Ok s1 ∧
    walk_thread_list (threads s1) (destructor_visit this) (λ _, false) s1
      = Ok s' ∧
    destructor this s = Ok s' ∧
    (this ∈ l ∨ next me = None →
     pending s' (filter (λ p, p ≠ this) l)) ∧
    threads s' = filter (λ t, ¬ waits_on s this t) (threads s) ∧
    (∀ t, t ∈ threads s → waits_on s this t →
       thread_table s' !! t = Some (mkThread None (Ready WakeReason.Timer)) ∧
       t ∉ threads s') ∧
    (∀ t, t ∈ threads s' → ¬ waits_on s' this t) ∧
    (∀ t, ¬ (t ∈ threads s ∧ waits_on s this t) →
       thread_table s' !! t = thread_table s !! t).
Proof.
  intros Hl Hme Hall.
  destruct (remove_from_pending_wake_list_pending this s l me Hl Hme)
    as (s1 & Hrm & Htt1 & Hts1 & Her & Hme1 & Hpend & _).
  destruct (destructor_walk this (threads s1) s1)
    as (s' & Hwalk & Hh & Hk & Htt & Hts).
  { intros t Ht. rewrite Htt1. apply Hall. by rewrite <- Hts1. }
  assert (Hw1 : ∀ x, waits_on s1 this x ↔ waits_on s this x).
  { intros x. unfold waits_on, waiter_of. by rewrite Htt1. }
  assert (Hts' : threads s' = filter (λ t, ¬ waits_on s this t) (threads s)).
  { rewrite Hts, Hts1. apply filter_iff_in. intros x Hx.
    rewrite Hw1. intuition congruence. }
  exists s1, s'. split; [done|]. split; [done|]. split.
  { unfold destructor. rewrite Hrm. done. }
  split; [|split; [done|split; [|split]]].
  - intros Hc. unfold pending. rewrite Hh, Hk. by apply Hpend.
  - intros t Ht Hw. split.
    + rewrite Htt. rewrite decide_True; [done|].
      split; [by rewrite Hts1|by apply Hw1].
    + rewrite Hts'. intros Hin. apply list_elem_of_filter in Hin as [Hn _].
      done.
  - intros t Ht Hw. rewrite Hts' in Ht.
    apply list_elem_of_filter in Ht as [Hn Hin].
    unfold waits_on, waiter_of in Hw. rewrite Htt in Hw.
    rewrite decide_False in Hw by (rewrite Hw1; intuition congruence).
    rewrite Htt1 in Hw. by apply Hn.
  - intros t Hn. rewrite Htt. rewrite decide_False; [by rewrite Htt1|].
    rewrite Hts1, Hw1. done.
Qed.

Lemma destructor_wakes_sleepers_witness :
  pending example_sleeping [] ∧
  heap example_sleeping !! 64 = Some (example_waitset 0) ∧
  (∀ t, t ∈ threads example_sleeping →
     is_Some (thread_table example_sleeping !! t)) ∧
  ∃ s1 s',
    remove_from_pending_wake_list 64 example_sleeping = Ok s1 ∧
    walk_thread_list (threads s1) (destructor_visit 64) (λ _, false) s1
      = Ok s' ∧
    destructor 64 example_sleeping = Ok s' ∧
    (64 ∈ [] ∨ next (example_waitset 0) = None →
     pending s' (filter (λ p, p ≠ 64) [])) ∧
    threads s' = filter (λ t, ¬ waits_on example_sleeping 64 t)
                   (threads example_sleeping) ∧
    (∀ t, t ∈ threads example_sleeping →
       waits_on example_sleeping 64 t →
       thread_table s' !! t = Some (mkThread None (Ready WakeReason.Timer)) ∧
       t ∉ threads s') ∧
    (∀ t, t ∈ threads s' → ¬ waits_on s' 64 t) ∧
    (∀ t,
       ¬ (t ∈ threads example_sleeping ∧ waits_on example_sleeping 64 t) →
       thread_table s' !! t = thread_table example_sleeping !! t).
Proof.
  assert (Hl : pending example_sleeping []) by reflexivity.
  assert (Hme : heap example_sleeping !! 64 = Some (example_waitset 0))
    by reflexivity.
  assert (Hall : ∀ t, t ∈ threads example_sleeping →
                   is_Some (thread_table example_sleeping !! t)).
  { intros t Ht. apply list_elem_of_singleton in Ht as ->. by eexists. }
  split; [exact Hl|]. split; [exact Hme|]. split; [exact Hall|].
  exact (destructor_wakes_sleepers 64 example_sleeping [] (example_waitset 0)
           Hl Hme Hall).
Defined.

(** C1, as stated, fails for a thread that has been woken and has not run
    yet: after the futex is signalled thread 1 is ready, off the
    Sleeping-Thread List, and still records the multiwaiter at 64; the
    destructor does not visit it, and once the multiwaiter is destroyed and
    freed the thread records it still. *)
Lemma destroy_keeps_reference_of_woken_thread :
  create 2 (Some 64) (λ _, EventWaiter_zero) example_start
    = (example_created, Some 64, 0) ∧
  set_events_at example_env example_mem 64
    [example_spec 2 (Pointer 1000 true) 7] example_created
    = Ok (example_registered, Sleep) ∧
  wait_enter 1 64 0 example_registered = Ok example_sleeping ∧
  wake_waiters example_env (SourceFutex 1000) 0 1 example_sleeping
    = Ok (example_woken, 1) ∧
  destroy 64 example_woken = Ok example_destroyed ∧
  heap example_destroyed !! 64 = None ∧
  waiter_of example_destroyed 1 = Some 64.
Proof. repeat split; reflexivity. Qed.

(** ** The threads on the Sleeping-Thread List *)

Lemma bind_Ok_inv {A B} (m : result A) (k : A → result B) (b : B) :
  m ≫= k = Ok b → ∃ a, m = Ok a ∧ k a = Ok b.
Proof.
  destruct m as [a|f].
  - intros Hk. exists a. split; [done|exact Hk].
  - intros Hf. cbv in Hf. discriminate Hf.
Qed.

Lemma bind_Fault_inv {A B} (m : result A) (k : A → result B) (f : fault) :
  m ≫= k = Fault f → m = Fault f ∨ ∃ a, m = Ok a ∧ k a = Fault f.
Proof.
  destruct m as [a|f'].
  - intros Hk. right. exists a. split; [done|exact Hk].
  - intros Hf. left. cbv in Hf. by simplify_eq.
Qed.

Lemma load_Ok_inv (p : Z) (s : Sched) (m : MultiWaiter) :
  load p s = Ok m → heap s !! p = Some m.
Proof. unfold load. by destruct (heap s !! p); intros; simplify_eq. Qed.

Lemma load_thread_Ok_inv (t : Z) (s : Sched) (th : Thread) :
  load_thread t s = Ok th → thread_table s !! t = Some th.
Proof.
  unfold load_thread. by destruct (thread_table s !! t); intros; simplify_eq.
Qed.

Lemma load_not_null (p : Z) (s : Sched) : load p s ≠ Fault NullDereference.
Proof. unfold load. by destruct (heap s !! p). Qed.

Lemma load_thread_not_null (t : Z) (s : Sched) :
  load_thread t s ≠ Fault NullDereference.
Proof. unfold load_thread. by destruct (thread_table s !! t). Qed.

Lemma keeps_refl (s : Sched) : keeps s s.
Proof. split; [done|]. by intros x Hx. Qed.

Lemma keeps_trans (s1 s2 s3 : Sched) :
  keeps s1 s2 → keeps s2 s3 → keeps s1 s3.
Proof.
  intros [Hh12 Ht12] [Hh23 Ht23]. split.
  - intros p Hp. by apply Hh23, Hh12.
  - intros x Hx. destruct (Ht23 x Hx) as [Hx2 Heq2].
    destruct (Ht12 x Hx2) as [Hx1 Heq1].
    split; [done|]. by rewrite Heq2.
Qed.

Lemma keeps_store (p : Z) (m : MultiWaiter) (s : Sched) :
  keeps s (store p m s).
Proof.
  split; simpl.
  - intros q Hq. destruct (decide (p = q)) as [->|Hne].
    + rewrite lookup_insert_eq. by eexists.
    + by rewrite lookup_insert_ne.
  - by intros x Hx.
Qed.

Lemma keeps_set_wokenMultiwaiters (head : option Z) (s : Sched) :
  keeps s (set_wokenMultiwaiters head s).
Proof. split; simpl; [done|]. by intros x Hx. Qed.

Lemma keeps_Thread_ready (t : Z) (reason : WakeReason.t) (s s' : Sched) :
  Thread_ready t reason s = Ok s' → keeps s s'.
Proof.
  unfold Thread_ready. intros Hrun.
  apply bind_Ok_inv in Hrun as (th & _ & Hrun). simplify_eq.
  split; simpl; [done|].
  intros x Hx. apply list_elem_of_filter in Hx as [Hne Hx].
  split; [done|]. by rewrite lookup_insert_ne.
Qed.

Lemma sleepers_keeps (s s' : Sched) :
  sleepers_have_waiter s → keeps s s' → sleepers_have_waiter s'.
Proof.
  intros Hinv [Hh Ht] t Hin. destruct (Ht t Hin) as [Hin0 Heq].
  destruct (Hinv t Hin0) as (th & w & Hth & Hst & Hw & Hlive).
  exists th, w. rewrite Heq. repeat split; try done. by apply Hh.
Qed.

(** A walk keeps what each visit keeps. *)
Lemma walk_thread_list_preserves {S : Type} (R : S → S → Prop)
    (fn : Z → S → result S) (predicate : S → bool) :
  (∀ a, R a a) →
  (∀ a b c, R a b → R b c → R a c) →
  (∀ t s s', fn t s = Ok s' → R s s') →
  ∀ (l : list Z) (s s' : S),
  walk_thread_list l fn predicate s = Ok s' → R s s'.
Proof.
  intros Hrefl Htrans Hfn.
  induction l as [|t l IH]; intros s s' Hrun; simpl in Hrun.
  - by simplify_eq.
  - destruct (predicate s); [by simplify_eq|].
    apply bind_Ok_inv in Hrun as (s1 & H1 & H2).
    eapply Htrans; [by eapply Hfn|by apply IH].
Qed.

Lemma write_link_keeps (prev : Link) (v : option Z) (s s' : Sched) :
  write_link prev v s = Ok s' → keeps s s'.
Proof.
  destruct prev as [|p]; simpl; intros Hrun.
  - simplify_eq. apply keeps_set_wokenMultiwaiters.
  - apply bind_Ok_inv in Hrun as (m & _ & Hrun). simplify_eq.
    apply keeps_store.
Qed.

Lemma remove_from_pending_wake_list_keeps (this : Z) (s s' : Sched) :
  remove_from_pending_wake_list this s = Ok s' → keeps s s'.
Proof.
  unfold remove_from_pending_wake_list. intros Hrun.
  apply bind_Ok_inv in Hrun as (prev & _ & Hrun).
  apply bind_Ok_inv in Hrun as (me & _ & Hrun).
  apply bind_Ok_inv in Hrun as (s1 & Hw & Hrun).
  apply bind_Ok_inv in Hrun as (me1 & _ & Hrun). simplify_eq.
  eapply keeps_trans; [by eapply write_link_keeps|apply keeps_store].
Qed.

Lemma destructor_visit_keeps (this t : Z) (s s' : Sched) :
  destructor_visit this t s = Ok s' → keeps s s'.
Proof.
  unfold destructor_visit. intros Hrun.
  apply bind_Ok_inv in Hrun as (th & Hth & Hrun).
  apply load_thread_Ok_inv in Hth.
  case_decide; [|by simplify_eq].
  unfold Thread_ready, load_thread, store_thread in Hrun. simpl in Hrun.
  rewrite lookup_insert_eq in Hrun. simpl in Hrun. simplify_eq.
  split; simpl; [done|].
  intros x Hx. apply list_elem_of_filter in Hx as [Hne Hx].
  split; [done|]. by rewrite !lookup_insert_ne.
Qed.

Section InvariantProperties.
Context `{Collaborators}.

Lemma trigger_woken_keeps (e : Env) (source : Source) (info : Z) :
  ∀ (fuel : nat) (mw : option Z) (s s' : Sched),
  trigger_woken fuel e source info mw s = Ok s' → keeps s s'.
Proof.
  induction fuel as [|fuel IH]; intros mw s s' Hrun;
    destruct mw as [p|]; simpl in Hrun; try by simplify_eq.
  apply bind_Ok_inv in Hrun as (m & _ & Hrun).
  apply bind_Ok_inv in Hrun as ([m' b] & _ & Hrun).
  eapply keeps_trans; [apply (keeps_store p m')|by eapply IH].
Qed.

Lemma wake_visit_keeps (e : Env) (source : Source) (info : Z) (t : Z)
    (sw sw' : Sched * Z) :
  wake_visit e source info t sw = Ok sw' → keeps sw.1 sw'.1.
Proof.
  destruct sw as [s w]. unfold wake_visit. intros Hrun.
  apply bind_Ok_inv in Hrun as (th & _ & Hrun).
  destruct (multiWaiter th) as [p|]; [|done].
  apply bind_Ok_inv in Hrun as (m & _ & Hrun).
  apply bind_Ok_inv in Hrun as ([m' b] & _ & Hrun).
  destruct b; [|simplify_eq; apply keeps_store].
  apply bind_Ok_inv in Hrun as (s2 & Hready & Hrun).
  apply bind_Ok_inv in Hrun as (m2 & _ & Hrun). simplify_eq. simpl.
  eapply keeps_trans; [apply (keeps_store p m')|].
  eapply keeps_trans; [by eapply keeps_Thread_ready|].
  eapply keeps_trans;
    [apply (keeps_store p (set_next (wokenMultiwaiters s2) m2))|].
  apply keeps_set_wokenMultiwaiters.
Qed.

Lemma wake_visit_waiter_of (e : Env) (source : Source) (info : Z) (t : Z)
    (sw sw' : Sched * Z) :
  wake_visit e source info t sw = Ok sw' →
  ∀ x, waiter_of sw'.1 x = waiter_of sw.1 x.
Proof.
  destruct sw as [s w]. unfold wake_visit. intros Hrun x.
  apply bind_Ok_inv in Hrun as (th & _ & Hrun).
  destruct (multiWaiter th) as [p|]; [|done].
  apply bind_Ok_inv in Hrun as (m & _ & Hrun).
  apply bind_Ok_inv in Hrun as ([m' b] & _ & Hrun).
  destruct b; [|by simplify_eq].
  apply bind_Ok_inv in Hrun as (s2 & Hready & Hrun).
  apply bind_Ok_inv in Hrun as (m2 & _ & Hrun). simplify_eq. simpl.
  unfold Thread_ready in Hready.
  apply bind_Ok_inv in Hready as (th2 & Hth2 & Hready).
  apply load_thread_Ok_inv in Hth2. simpl in Hth2. simplify_eq.
  unfold waiter_of. simpl.
  destruct (decide (x = t)) as [->|Hne].
  - rewrite lookup_insert_eq, Hth2. done.
  - by rewrite lookup_insert_ne.
Qed.

Lemma wake_waiters_keeps (e : Env) (source : Source) (info maxWakes : Z)
    (s s' : Sched) (woken : Z) :
  wake_waiters e source info maxWakes s = Ok (s', woken) → keeps s s'.
Proof.
  unfold wake_waiters. intros Hrun.
  apply bind_Ok_inv in Hrun as (s1 & H1 & H2).
  eapply keeps_trans; [by eapply trigger_woken_keeps|].
  apply (walk_thread_list_preserves (λ a b, keeps a.1 b.1)) in H2; [done|..].
  - intros a. apply keeps_refl.
  - intros a b c Hab Hbc. by eapply keeps_trans.
  - intros t a b. apply wake_visit_keeps.
Qed.

Lemma EventWaiter_trigger_total (e : Env) (source : Source) (info : Z)
    (w : EventWaiter) :
  ∃ r, EventWaiter_trigger e source info w = Ok r.
Proof.
  destruct source; simpl; eauto.
  unfold trigger_futex. case_decide; [eauto|].
  rewrite set_ready_1. simpl. eauto.
Qed.

Lemma trigger_loop_fault (e : Env) (source : Source) (info : Z) (f : fault) :
  ∀ (n : nat) (slots : list EventWaiter) (wake : bool),
  trigger_loop e source info n slots wake = Fault f → f = OutOfBounds.
Proof.
  induction n as [|n IH]; intros slots wake Hrun; simpl in Hrun; [done|].
  destruct slots as [|w rest]; [by simplify_eq|].
  destruct (EventWaiter_trigger_total e source info w) as [[w' b] Hw].
  rewrite Hw in Hrun. simpl in Hrun.
  apply bind_Fault_inv in Hrun as [Hrun|([rest' wake'] & _ & Hrun)];
    [by eapply IH|done].
Qed.

Lemma trigger_fault (e : Env) (source : Source) (info : Z)
    (m : MultiWaiter) (f : fault) :
  trigger e source info m = Fault f → f = OutOfBounds.
Proof.
  unfold trigger. case_decide; [done|]. intros Hrun.
  apply bind_Fault_inv in Hrun as [Hrun|([slots wake] & _ & Hrun)];
    [by eapply trigger_loop_fault|done].
Qed.

Lemma trigger_woken_not_null (e : Env) (source : Source) (info : Z) :
  ∀ (fuel : nat) (mw : option Z) (s : Sched),
  trigger_woken fuel e source info mw s ≠ Fault NullDereference.
Proof.
  induction fuel as [|fuel IH]; intros mw s Hrun;
    destruct mw as [p|]; simpl in Hrun; try done.
  apply bind_Fault_inv in Hrun as [Hrun|(m & _ & Hrun)];
    [by eapply load_not_null|].
  apply bind_Fault_inv in Hrun as [Hrun|([m' b] & _ & Hrun)];
    [by apply trigger_fault in Hrun|].
  by eapply IH.
Qed.

(** The only null pointer that a visit of [wake_waiters] can dereference is
    the [multiWaiter] of the thread it visits. *)
Lemma wake_visit_null (e : Env) (source : Source) (info : Z) (t : Z)
    (s : Sched) (w : Z) :
  wake_visit e source info t (s, w) = Fault NullDereference →
  waiter_of s t = None.
Proof.
  unfold wake_visit. intros Hrun.
  apply bind_Fault_inv in Hrun as [Hrun|(th & Hth & Hrun)];
    [by apply load_thread_not_null in Hrun|].
  apply load_thread_Ok_inv in Hth.
  rewrite (waiter_of_lookup _ _ _ Hth).
  destruct (multiWaiter th) as [p|]; [exfalso|done].
  apply bind_Fault_inv in Hrun as [Hrun|(m & _ & Hrun)];
    [by eapply load_not_null|].
  apply bind_Fault_inv in Hrun as [Hrun|([m' b] & _ & Hrun)];
    [by apply trigger_fault in Hrun|].
  destruct b; [|done].
  apply bind_Fault_inv in Hrun as [Hrun|(s2 & _ & Hrun)].
  - unfold Thread_ready in Hrun.
    apply bind_Fault_inv in Hrun as [Hrun|(th2 & _ & Hrun)];
      [by apply load_thread_not_null in Hrun|done].
  - apply bind_Fault_inv in Hrun as [Hrun|(m2 & _ & Hrun)];
      [by eapply load_not_null|done].
Qed.

Lemma wake_walk_null (e : Env) (source : Source) (info : Z)
    (predicate : Sched * Z → bool) :
  ∀ (l : list Z) (s : Sched) (w : Z),
  walk_thread_list l (wake_visit e source info) predicate (s, w)
    = Fault NullDereference →
  ∃ t, t ∈ l ∧ waiter_of s t = None.
Proof.
  induction l as [|t l IH]; intros s w Hrun; simpl in Hrun; [done|].
  destruct (predicate (s, w)); [done|].
  apply bind_Fault_inv in Hrun as [Hrun|([s1 w1] & Hvisit & Hrun)].
  - exists t. split; [apply elem_of_cons; by left|].
    by apply (wake_visit_null e source info t s w).
  - apply IH in Hrun as (x & Hx & Hnone).
    exists x. split; [apply elem_of_cons; by right|].
    pose proof (wake_visit_waiter_of e source info t (s, w) (s1, w1)
                  Hvisit x) as Hsame.
    simpl in Hsame. by rewrite <- Hsame.
Qed.

Lemma wake_waiters_no_null (e : Env) (source : Source) (info maxWakes : Z)
    (s : Sched) :
  sleepers_have_waiter s →
  wake_waiters e source info maxWakes s ≠ Fault NullDereference.
Proof.
  intros Hinv Hrun. unfold wake_waiters in Hrun.
  apply bind_Fault_inv in Hrun as [Hrun|(s1 & H1 & Hrun)];
    [by eapply trigger_woken_not_null|].
  apply trigger_woken_keeps in H1.
  apply (sleepers_keeps _ _ Hinv) in H1.
  apply wake_walk_null in Hrun as (t & Ht & Hnone).
  destruct (H1 t Ht) as (th & w & Hth & _ & Hw & _).
  rewrite (waiter_of_lookup _ _ _ Hth) in Hnone. congruence.
Qed.

Lemma step_keeps_sleepers (s s' : Sched) :
  step s s' → sleepers_have_waiter s → sleepers_have_waiter s'.
Proof.
  intros Hstep Hinv.
  destruct Hstep as
    [s s' len p un Hfresh Hrun | s s' e mem this evs r Hrun
    | s s' t this pos th Hth Hst Hrun | s s' t Hrun | s s' t Hin Hrun
    | s s' this evs out found Hrun | s s' e source info maxWakes woken Hrun
    | s s' this Hrun].
  - unfold create in Hrun. case_decide; simplify_eq.
    eapply sleepers_keeps; [done|apply keeps_store].
  - unfold set_events_at in Hrun.
    apply bind_Ok_inv in Hrun as (me & _ & Hrun).
    apply bind_Ok_inv in Hrun as ([me' r'] & _ & Hrun). simplify_eq.
    eapply sleepers_keeps; [done|apply keeps_store].
  - unfold wait_enter in Hrun.
    apply bind_Ok_inv in Hrun as (th' & Hth' & Hrun).
    apply load_thread_Ok_inv in Hth'. simplify_eq.
    apply bind_Ok_inv in Hrun as (me & Hme & Hrun).
    apply load_Ok_inv in Hme.
    unfold suspend_enter, load_thread, store_thread in Hrun. simpl in Hrun.
    rewrite lookup_insert_eq in Hrun. simpl in Hrun. simplify_eq.
    intros x Hx. simpl in *.
    destruct (decide (x = t)) as [->|Hne].
    + exists (mkThread (Some this) Suspended), this.
      rewrite lookup_insert_eq. repeat split; try done; by eexists.
    + assert (Hx0 : x ∈ threads s).
      { rewrite <- (take_drop pos (threads s)).
        apply elem_of_app in Hx as [Hx|Hx]; apply elem_of_app;
          [by left|right].
        by apply elem_of_cons in Hx as [?|Hx]. }
      destruct (Hinv x Hx0) as (thx & w & Hthx & Hs & Hw & Hlive).
      exists thx, w. by rewrite !lookup_insert_ne.
  - unfold wait_exit, suspend_return in Hrun.
    destruct (thread_table s !! t) as [[w st]|] eqn:Hth; [|done].
    destruct st as [| |reason]; try done. simpl in Hrun.
    rewrite lookup_insert_eq in Hrun. simpl in Hrun. simplify_eq.
    intros x Hx. simpl in *.
    destruct (Hinv x Hx) as (thx & wx & Hthx & Hs & Hw & Hlive).
    assert (x ≠ t) by (intros ->; rewrite Hth in Hthx; by simplify_eq).
    exists thx, wx. by rewrite !lookup_insert_ne.
  - eapply sleepers_keeps; [done|by eapply keeps_Thread_ready].
  - unfold get_results in Hrun.
    apply bind_Ok_inv in Hrun as (s1 & Hrm & Hrun).
    apply bind_Ok_inv in Hrun as (me & _ & Hrun).
    case_decide; [|done].
    apply bind_Ok_inv in Hrun as ([out' found'] & _ & Hrun). simplify_eq.
    eapply sleepers_keeps; [done|by eapply remove_from_pending_wake_list_keeps].
  - eapply sleepers_keeps; [done|by eapply wake_waiters_keeps].
  - unfold destroy in Hrun.
    apply bind_Ok_inv in Hrun as (s2 & Hdes & Hrun). simplify_eq.
    unfold destructor in Hdes.
    apply bind_Ok_inv in Hdes as (s1 & Hrm & Hwalk).
    apply remove_from_pending_wake_list_keeps in Hrm.
    pose proof (sleepers_keeps _ _ Hinv Hrm) as Hinv1.
    destruct (destructor_walk this (threads s1) s1)
      as (s2' & Hwalk' & Hh & Hk & Htt & Hts).
    { intros t Ht. destruct (Hinv1 t Ht) as (th & _ & -> & _). by eexists. }
    rewrite Hwalk in Hwalk'. simplify_eq.
    intros x Hx. simpl in *. rewrite Hts in Hx.
    apply list_elem_of_filter in Hx as [Hn Hx].
    destruct (Hinv1 x Hx) as (thx & wx & Hthx & Hs & Hw & Hlive).
    exists thx, wx. rewrite Htt. rewrite decide_False by done.
    repeat split; try done.
    rewrite Hh. rewrite lookup_delete_ne; [done|].
    intros <-. apply Hn. split; [done|].
    unfold waits_on. by rewrite (waiter_of_lookup _ _ _ Hthx).
Qed.

(** C10: in every state that the scheduler can reach, every thread on the
    Sleeping-Thread List is suspended and records a multiwaiter, which is
    live: [wait] records it before the thread joins the list and clears it
    only when the thread runs again, off the list, and the destructor clears
    it only for a thread that it takes off the list.  So [wake_waiters]
    never dereferences a null [multiWaiter]. *)
Theorem sleeping_threads_have_waiter (s : Sched) :
  reachable s →
  sleepers_have_waiter s ∧
  ∀ (e : Env) (source : Source) (info maxWakes : Z),
    wake_waiters e source info maxWakes s ≠ Fault NullDereference.
Proof.
  intros Hreach.
  assert (Hinv : sleepers_have_waiter s).
  { induction Hreach as [s (_ & Hts & _)|s s' _ IH Hstep].
    - intros t Ht. rewrite Hts in Ht. by apply elem_of_nil in Ht.
    - by eapply step_keeps_sleepers. }
  split; [done|]. intros e source info maxWakes.
  by apply wake_waiters_no_null.
Qed.

End InvariantProperties.

Lemma example_start_initial : initial example_start.
Proof.
  split; [reflexivity|]. split; [reflexivity|]. split; [reflexivity|].
  intros t th Hth. unfold example_start, example_threads in Hth.
  simpl in Hth.
  apply lookup_insert_Some in Hth as [[_ <-]|[_ Hth]]; [done|].
  apply lookup_insert_Some in Hth as [[_ <-]|[_ Hth]]; [done|].
  by rewrite lookup_empty in Hth.
Defined.

Lemma example_sleeping_reachable : reachable example_sleeping.
Proof.
  apply (reachable_step example_registered).
  - apply (reachable_step example_created).
    + apply (reachable_step example_start).
      * apply reachable_initial, example_start_initial.
      * by apply (step_create (H := example_collaborators)
                    example_start example_created 2 64
                    (λ _, EventWaiter_zero)).
    + by apply (step_set_events (H := example_collaborators)
                  example_created example_registered
                  example_env example_mem 64
                  [example_spec 2 (Pointer 1000 true) 7] Sleep).
  - by apply (step_wait_enter (H := example_collaborators)
                example_registered example_sleeping 1 64 0%nat
                (mkThread None Running)).
Defined.

Lemma sleeping_threads_have_waiter_witness :
  reachable example_sleeping ∧
  sleepers_have_waiter example_sleeping ∧
  ∀ (e : Z → Z) (source : Source) (info maxWakes : Z),
    wake_waiters e source info maxWakes example_sleeping
      ≠ Fault NullDereference.
Proof.
  split; [exact example_sleeping_reachable|].
  exact (sleeping_threads_have_waiter (H := example_collaborators)
           example_sleeping example_sleeping_reachable).
Defined.

(** ** Waking the waiters: [wake_waiters] *)

Lemma visited_ext (f g : Z → bool) (l : list Z) :
  (∀ t, t ∈ l → f t = g t) →
  ∀ budget, visited f budget l = visited g budget l.
Proof.
  induction l as [|t l IH]; intros Hfg budget; [done|].
  destruct budget as [|b]; [done|]. simpl.
  rewrite (Hfg t) by (apply elem_of_cons; by left).
  f_equal. apply IH. intros x Hx. apply Hfg, elem_of_cons. by right.
Qed.

Lemma visited_prefix (f : Z → bool) (l : list Z) :
  ∀ budget, ∃ rest, l = visited f budget l ++ rest.
Proof.
  induction l as [|t l IH]; intros budget; [by exists []|].
  destruct budget as [|b]; [by exists (t :: l)|]. simpl.
  destruct (IH (if f t then b else S b)) as [rest Hrest].
  exists rest. by rewrite <- Hrest.
Qed.

(** The threads chosen are the first [budget] threads that fire. *)
Lemma filter_visited (f : Z → bool) (l : list Z) :
  ∀ budget,
  filter (λ t, f t = true) (visited f budget l)
    = take budget (filter (λ t, f t = true) l).
Proof.
  induction l as [|t l IH]; intros budget; [by destruct budget|].
  destruct budget as [|b]; [done|]. simpl visited.
  rewrite !filter_cons. destruct (f t) eqn:Hf.
  - rewrite !decide_True by done. simpl. by rewrite IH.
  - rewrite !decide_False by done. by rewrite IH.
Qed.

Section WakeProperties.
Context `{Collaborators}.

Lemma trigger_loop_total (e : Env) (source : Source) (info : Z) :
  ∀ (n : nat) (slots : list EventWaiter) (wake : bool),
  (n ≤ length slots)%nat →
  ∃ slots' wake',
    trigger_loop e source info n slots wake = Ok (slots', wake') ∧
    length slots' = length slots.
Proof.
  induction n as [|n IH]; intros slots wake Hn; simpl; [eauto|].
  destruct slots as [|w rest]; [simpl in Hn; lia|].
  destruct (EventWaiter_trigger_total e source info w) as [[w' b] ->].
  simpl in *.
  destruct (IH rest (wake || b)) as (rest' & wake' & -> & Hlen); [lia|].
  simpl. eexists _, _. split; [done|]. simpl. by rewrite Hlen.
Qed.

(** [trigger] on a well-formed multiwaiter returns, and changes nothing but
    the event waiters. *)
Lemma trigger_total (e : Env) (source : Source) (info : Z)
    (m : MultiWaiter) :
  MultiWaiter_wf m →
  ∃ m' b, trigger e source info m = Ok (m', b) ∧
    triggered e source info m = m' ∧ fires e source info m = b ∧
    next m' = next m ∧ MultiWaiter_wf m'.
Proof.
  intros (Hrange & Hused & Hlen). unfold triggered, fires, trigger.
  case_decide.
  - exists m, false. repeat split; first [done|lia].
  - destruct (trigger_loop_total e source info (Z.to_nat (usedLength m))
                (events m) false) as (slots & wake & -> & Hslots); [lia|].
    simpl. eexists _, _. repeat split; try done; simpl; lia.
Qed.

(** The first loop of [wake_waiters] on a well-formed list: it triggers each
    multiwaiter of the list once, in list order, and touches nothing
    else. *)
Lemma trigger_woken_each (e : Env) (source : Source) (info : Z) :
  ∀ (l : list Z) (fuel : nat) (mw : option Z) (s : Sched),
  lseg (heap s) mw l None →
  (∀ p m, heap s !! p = Some m → MultiWaiter_wf m) →
  (length l < fuel)%nat →
  ∃ s1,
    trigger_woken fuel e source info mw s = Ok s1 ∧
    trigger_each e source info l s = Ok s1 ∧
    thread_table s1 = thread_table s ∧
    threads s1 = threads s ∧
    wokenMultiwaiters s1 = wokenMultiwaiters s ∧
    (∀ p, p ∉ l → heap s1 !! p = heap s !! p) ∧
    (∀ p m, p ∈ l → heap s !! p = Some m →
       heap s1 !! p = Some (triggered e source info m)) ∧
    (∀ p, next <$> heap s1 !! p = next <$> heap s !! p) ∧
    (∀ p m, heap s1 !! p = Some m → MultiWaiter_wf m).
Proof.
  induction l as [|p l IH]; intros fuel mw s Hl Hwf Hfuel.
  - simpl in Hl. subst mw. exists s.
    destruct fuel; simpl; split_and!; try done.
    all: intros q m Hq; by apply elem_of_nil in Hq.
  - destruct fuel as [|fuel]; [simpl in Hfuel; lia|].
    pose proof (lseg_NoDup _ _ _ Hl) as Hnd.
    apply NoDup_cons in Hnd as [Hpl Hnd].
    simpl in Hl. destruct Hl as (-> & m & Hm & Hl). simpl.
    rewrite (load_Some _ _ _ Hm). simpl.
    destruct (trigger_total e source info m (Hwf _ _ Hm))
      as (m' & b & -> & Htr & _ & Hnext & Hwf').
    simpl.
    destruct (IH fuel (next m') (store p m' s))
      as (s1 & -> & Heach & Htt & Hts & Hk & Hout & Hin & Hnx & Hwf1).
    { rewrite Hnext. eapply lseg_frame; [|done]. intros q Hq. simpl.
      rewrite lookup_insert_ne; [done|]. by intros ->. }
    { intros q mq. simpl. intros Hq.
      apply lookup_insert_Some in Hq as [[_ <-]|[_ Hq]]; [done|].
      by eapply Hwf. }
    { simpl in Hfuel. lia. }
    exists s1. simpl in *. split_and!; try done.
    + intros q Hq. apply not_elem_of_cons in Hq as [Hne Hq].
      rewrite Hout by done. by rewrite lookup_insert_ne.
    + intros q mq Hq Hmq. apply elem_of_cons in Hq as [->|Hq].
      * rewrite Hout by done. rewrite lookup_insert_eq. by simplify_eq.
      * apply Hin; [done|]. rewrite lookup_insert_ne; [done|].
        by intros ->.
    + intros q. rewrite Hnx. destruct (decide (p = q)) as [<-|Hne].
      * rewrite lookup_insert_eq, Hm. simpl. by rewrite Hnext.
      * by rewrite lookup_insert_ne.
Qed.

Lemma waiter_of_Some (s : Sched) (t w : Z) :
  waiter_of s t = Some w →
  ∃ th, thread_table s !! t = Some th ∧ multiWaiter th = Some w.
Proof.
  unfold waiter_of. destruct (thread_table s !! t) as [th|]; [|done].
  intros Hw. by exists th.
Qed.

(** What [wake_waiters] does to one thread. *)
Lemma wake_visit_spec (e : Env) (source : Source) (info : Z) (t : Z)
    (s : Sched) (w wt : Z) (m : MultiWaiter) :
  waiter_of s t = Some wt →
  heap s !! wt = Some m →
  MultiWaiter_wf m →
  0 ≤ w < 2 ^ 32 - 1 →
  wake_visit e source info t (s, w) =
    Ok (if fires e source info m then
          (mkSched
             (<[wt := set_next (wokenMultiwaiters s)
                        (triggered e source info m)]> (heap s))
             (<[t := mkThread (Some wt) (Ready WakeReason.MultiWaiter)]>
                (thread_table s))
             (filter (λ x, x ≠ t) (threads s)) (Some wt), w + 1)
        else (store wt (triggered e source info m) s, w)).
Proof.
  intros Hw Hm Hwf Hrange.
  apply waiter_of_Some in Hw as (th & Hth & Hmw).
  unfold wake_visit. rewrite (load_thread_Some _ _ _ Hth). simpl.
  rewrite Hmw, (load_Some _ _ _ Hm). simpl.
  destruct (trigger_total e source info m Hwf)
    as (m' & b & -> & -> & -> & _ & _).
  simpl. destruct b; [|done].
  unfold Thread_ready, load_thread, load. simpl. rewrite Hth. simpl.
  rewrite lookup_insert_eq. simpl.
  unfold set_wokenMultiwaiters, store. simpl.
  rewrite insert_insert_eq, Hmw.
  unfold uint32. rewrite Z.mod_small by lia. done.
Qed.

(** The second loop of [wake_waiters], from a thread of the list on: [w] is
    the number of threads woken so far, [budget] the number that may still
    be woken, [lcur] the list of woken multiwaiters. *)
Lemma wake_walk_spec (e : Env) (source : Source) (info maxWakes : Z) :
  ∀ (rest wsr : list Z) (s : Sched) (lcur : list Z) (w : Z) (budget : nat),
  0 ≤ w →
  w + Z.of_nat budget = maxWakes →
  maxWakes < 2 ^ 32 →
  pending s lcur →
  NoDup rest →
  Forall2 (λ t wt, waiter_of s t = Some wt) rest wsr →
  NoDup (wsr ++ lcur) →
  (∀ wt, wt ∈ wsr → ∃ m, heap s !! wt = Some m ∧ MultiWaiter_wf m) →
  ∃ s' wc,
    walk_thread_list rest (wake_visit e source info)
      (λ sw, bool_decide (sw.2 >= maxWakes)) (s, w)
      = Ok (s', w + Z.of_nat (length
                     (filter (λ t, thread_fires e source info s t = true)
                        (visited (thread_fires e source info s) budget
                           rest)))) ∧
    threads s' =
      filter (λ t, t ∉ filter (λ t, thread_fires e source info s t = true)
                         (visited (thread_fires e source info s) budget rest))
        (threads s) ∧
    (∀ t, thread_table s' !! t =
       if decide (t ∈ filter (λ t, thread_fires e source info s t = true)
                        (visited (thread_fires e source info s) budget rest))
       then (λ th, mkThread (multiWaiter th) (Ready WakeReason.MultiWaiter))
              <$> thread_table s !! t
       else thread_table s !! t) ∧
    Forall2 (λ t wt, waiter_of s t = Some wt)
      (filter (λ t, thread_fires e source info s t = true)
         (visited (thread_fires e source info s) budget rest)) wc ∧
    pending s' (rev wc ++ lcur) ∧
    (∀ p, (∀ t, t ∈ visited (thread_fires e source info s) budget rest →
             waiter_of s t ≠ Some p) →
       heap s' !! p = heap s !! p).
Proof.
  induction rest as [|t rest IH];
    intros wsr s lcur w budget Hw Hbudget Hmax Hpend Hnd Hws Hdis Hlive.
  - exists s, []. destruct budget; simpl; rewrite Z.add_0_r.
    all: split_and!; try done.
    all: symmetry; apply filter_all; intros x _ Hx;
      by apply elem_of_nil in Hx.
  - destruct budget as [|b].
    { exists s, []. simpl. rewrite bool_decide_eq_true_2 by lia.
      rewrite Z.add_0_r. split_and!; try done.
      symmetry. apply filter_all. intros x _ Hx. by apply elem_of_nil in Hx. }
    apply Forall2_cons_inv_l in Hws as (wt & wsr' & Hwt & Hws & ->).
    apply NoDup_cons in Hnd as [Hnt Hnd].
    destruct (Hlive wt) as (m & Hm & Hwf); [apply elem_of_cons; by left|].
    simpl in Hdis. apply NoDup_cons in Hdis as [Hnwt Hdis].
    cbn [walk_thread_list visited]. simpl snd.
    rewrite bool_decide_eq_false_2 by lia.
    rewrite (wake_visit_spec e source info t s w wt m Hwt Hm Hwf) by lia.
    change (Ok ?a ≫= ?k) with (k a). cbv beta.
    assert (Hft : thread_fires e source info s t = fires e source info m).
    { unfold thread_fires. by rewrite Hwt, Hm. }
    rewrite Hft.
    assert (Hrest : ∀ x, x ∈ rest →
              ∃ wx, wx ∈ wsr' ∧ waiter_of s x = Some wx).
    { intros x Hx. apply list_elem_of_lookup in Hx as [i Hi].
      destruct (Forall2_lookup_l _ _ _ _ _ Hws Hi) as (wx & Hwx & Hx).
      exists wx. split; [by eapply list_elem_of_lookup_2|done]. }
    destruct (fires e source info m) eqn:Hfires.
    + set (sn := mkSched _ _ _ _).
      assert (Hwn : ∀ x, waiter_of sn x = waiter_of s x).
      { intros x. unfold waiter_of. subst sn. simpl.
        destruct (decide (x = t)) as [->|Hne].
        - rewrite lookup_insert_eq. simpl.
          apply waiter_of_Some in Hwt as (th & -> & ->). done.
        - by rewrite lookup_insert_ne. }
      assert (Hfn : ∀ x, x ∈ rest →
                thread_fires e source info sn x
                  = thread_fires e source info s x).
      { intros x Hx. destruct (Hrest x Hx) as (wx & Hwx & Hx').
        unfold thread_fires. rewrite Hwn, Hx'. subst sn. simpl.
        rewrite lookup_insert_ne; [done|].
        intros <-. apply Hnwt. apply elem_of_app. by left. }
      destruct (IH wsr' sn (wt :: lcur) (w + 1) b)
        as (s' & wc & Hwalk & Hts & Htt & Hwc & Hpend' & Hheap);
        try done; try lia.
      { subst sn. split; [done|]. simpl. eexists.
        rewrite lookup_insert_eq. split; [done|]. simpl.
        eapply lseg_frame; [|exact Hpend]. intros p Hp.
        rewrite lookup_insert_ne; [done|].
        intros <-. apply Hnwt. apply elem_of_app. by right. }
      { eapply Forall2_impl; [done|]. intros x wx Hx. by rewrite Hwn. }
      { rewrite <- Permutation_middle. by apply NoDup_cons. }
      { intros wx Hwx. subst sn. simpl.
        rewrite lookup_insert_ne.
        - apply Hlive. apply elem_of_cons. by right.
        - intros <-. apply Hnwt. apply elem_of_app. by left. }
      rewrite (visited_ext _ _ _ Hfn) in Hwalk, Hts, Htt, Hwc, Hheap.
      set (vis := visited (thread_fires e source info s) b rest) in *.
      assert (Hvis : ∀ x, x ∈ vis → x ∈ rest).
      { intros x Hx. subst vis.
        destruct (visited_prefix (thread_fires e source info s) rest b)
          as [tl Htl].
        rewrite Htl. apply elem_of_app. by left. }
      assert (Hch : filter (λ x, thread_fires e source info sn x = true) vis
                    = filter (λ x, thread_fires e source info s x = true) vis).
      { apply filter_iff_in. intros x Hx. by rewrite Hfn by by apply Hvis. }
      rewrite Hch in Hwalk, Hts, Htt, Hwc.
      set (ch := filter (λ x, thread_fires e source info s x = true) vis)
        in *.
      assert (Hnch : t ∉ ch).
      { intros Hin. apply list_elem_of_filter in Hin as [_ Hin].
        by apply Hnt, Hvis. }
      rewrite filter_cons_True by done. fold ch.
      exists s', (wt :: wc). split_and!.
      * rewrite Hwalk. do 2 f_equal. simpl length. lia.
      * rewrite Hts. subst sn. simpl. rewrite list_filter_filter.
        apply list_filter_iff. intros x. rewrite not_elem_of_cons.
        intuition congruence.
      * intros x. rewrite Htt. subst sn. simpl.
        destruct (decide (x = t)) as [->|Hne].
        -- rewrite decide_False by done.
           rewrite decide_True by (apply elem_of_cons; by left).
           rewrite lookup_insert_eq.
           apply waiter_of_Some in Hwt as (th & Hth & Hmw).
           rewrite Hth. simpl. by rewrite Hmw.
        -- rewrite lookup_insert_ne by done.
           apply decide_ext. rewrite elem_of_cons. intuition congruence.
      * constructor; [done|].
        eapply Forall2_impl; [done|]. intros x wx Hx. by rewrite <- Hwn.
      * simpl. by rewrite <- app_assoc.
      * intros p Hp. rewrite Hheap.
        -- subst sn. simpl. rewrite lookup_insert_ne; [done|].
           intros <-. apply (Hp t); [apply elem_of_cons; by left|done].
        -- intros x Hx. rewrite Hwn. apply Hp. apply elem_of_cons. by right.
    + set (sn := store wt (triggered e source info m) s).
      assert (Hwn : ∀ x, waiter_of sn x = waiter_of s x) by done.
      assert (Hfn : ∀ x, x ∈ rest →
                thread_fires e source info sn x
                  = thread_fires e source info s x).
      { intros x Hx. destruct (Hrest x Hx) as (wx & Hwx & Hx').
        unfold thread_fires. rewrite Hwn, Hx'. subst sn. simpl.
        rewrite lookup_insert_ne; [done|].
        intros <-. apply Hnwt. apply elem_of_app. by left. }
      destruct (IH wsr' sn lcur w (S b))
        as (s' & wc & Hwalk & Hts & Htt & Hwc & Hpend' & Hheap);
        try done; try lia.
      { subst sn. unfold pending. simpl.
        eapply lseg_frame; [|exact Hpend]. intros p Hp.
        rewrite lookup_insert_ne; [done|].
        intros <-. apply Hnwt. apply elem_of_app. by right. }
      { intros wx Hwx. subst sn. simpl.
        rewrite lookup_insert_ne.
        - apply Hlive. apply elem_of_cons. by right.
        - intros <-. apply Hnwt. apply elem_of_app. by left. }
      rewrite (visited_ext _ _ _ Hfn) in Hwalk, Hts, Htt, Hwc, Hheap.
      set (vis := visited (thread_fires e source info s) (S b) rest) in *.
      assert (Hvis : ∀ x, x ∈ vis → x ∈ rest).
      { intros x Hx. subst vis.
        destruct (visited_prefix (thread_fires e source info s) rest (S b))
          as [tl Htl].
        rewrite Htl. apply elem_of_app. by left. }
      assert (Hch : filter (λ x, thread_fires e source info sn x = true) vis
                    = filter (λ x, thread_fires e source info s x = true) vis).
      { apply filter_iff_in. intros x Hx. by rewrite Hfn by by apply Hvis. }
      rewrite Hch in Hwalk, Hts, Htt, Hwc.
      rewrite filter_cons_False by (rewrite Hft; done).
      exists s', wc. split_and!; try done.
      intros p Hp. rewrite Hheap.
      * subst sn. simpl. rewrite lookup_insert_ne; [done|].
        intros <-. apply (Hp t); [apply elem_of_cons; by left|done].
      * intros x Hx. rewrite Hwn. apply Hp. apply elem_of_cons. by right.
Qed.

Lemma wake_visit_counter (e : Env) (source : Source) (info : Z) (t : Z)
    (s s' : Sched) (w w' : Z) :
  wake_visit e source info t (s, w) = Ok (s', w') →
  w' = w ∨ w' = uint32 (w + 1).
Proof.
  unfold wake_visit. intros Hrun.
  apply bind_Ok_inv in Hrun as (th & _ & Hrun).
  destruct (multiWaiter th) as [p|]; [|done].
  apply bind_Ok_inv in Hrun as (m & _ & Hrun).
  apply bind_Ok_inv in Hrun as ([m' b] & _ & Hrun).
  destruct b; [|left; by simplify_eq].
  apply bind_Ok_inv in Hrun as (s2 & _ & Hrun).
  apply bind_Ok_inv in Hrun as (m2 & _ & Hrun).
  right. by simplify_eq.
Qed.

(** In any state, the counter of the second loop of [wake_waiters] never
    passes [maxWakes]. *)
Lemma wake_walk_bound (e : Env) (source : Source) (info maxWakes : Z) :
  ∀ (l : list Z) (s s' : Sched) (w w' : Z),
  walk_thread_list l (wake_visit e source info)
    (λ sw, bool_decide (sw.2 >= maxWakes)) (s, w) = Ok (s', w') →
  0 ≤ w ≤ maxWakes → maxWakes < 2 ^ 32 →
  w ≤ w' ≤ maxWakes.
Proof.
  induction l as [|t l IH]; intros s s' w w' Hrun Hw Hmax;
    cbn [walk_thread_list] in Hrun.
  - simplify_eq. lia.
  - simpl snd in Hrun. case_bool_decide as Hstop; [simplify_eq; lia|].
    apply bind_Ok_inv in Hrun as ([s1 w1] & Hvisit & Hrun).
    apply wake_visit_counter in Hvisit.
    assert (Hw1 : w ≤ w1 ≤ maxWakes).
    { destruct Hvisit as [->| ->]; [lia|].
      unfold uint32. rewrite Z.mod_small by lia. lia. }
    apply IH in Hrun; lia.
Qed.

(** C2: [wake_waiters] first triggers every multiwaiter of the list of woken
    multiwaiters, then walks the Sleeping-Thread List, and the count it
    returns never exceeds [maxWakes]; it frees no multiwaiter, puts no
    thread on the Sleeping-Thread List and leaves the threads that stay on
    it as they were.  In a state where the list of woken multiwaiters is
    well formed and the sleeping threads record distinct live multiwaiters
    that are not on it, the first loop triggers every multiwaiter of the
    list of woken multiwaiters, in list order, which marks no thread ready
    and leaves the two lists as they are; the second loop then walks the
    Sleeping-Thread List in list order from a count of 0 and stops once
    [maxWakes] threads have been woken: the threads woken are the first
    [maxWakes] threads of the list whose multiwaiter fires, each is marked
    ready with the reason [MultiWaiter] and leaves the list, its
    multiwaiter is pushed on the list of woken multiwaiters, and the count
    returned is their number.  The threads that are not woken, and the
    multiwaiters of the threads that the walk did not reach, are as they
    were. *)
Theorem wake_waiters_wakes_first_firing (e : Env) (source : Source)
    (info maxWakes : Z) (s : Sched) :
  0 ≤ maxWakes < 2 ^ 32 →
  (∀ s' woken,
     wake_waiters e source info maxWakes s = Ok (s', woken) →
     0 ≤ woken ≤ maxWakes ∧ keeps s s') ∧
  ∀ lp ws,
  wake_ready s lp ws →
  let chosen := take (Z.to_nat maxWakes)
                  (filter (λ t, thread_fires e source info s t = true)
                     (threads s)) in
  ∃ s1 s' wc,
    trigger_each e source info lp s = Ok s1 ∧
    thread_table s1 = thread_table s ∧
    threads s1 = threads s ∧
    pending s1 lp ∧
    walk_thread_list (threads s1) (wake_visit e source info)
      (λ sw, bool_decide (sw.2 >= maxWakes)) (s1, 0)
      = Ok (s', Z.of_nat (length chosen)) ∧
    wake_waiters e source info maxWakes s
      = Ok (s', Z.of_nat (length chosen)) ∧
    Z.of_nat (length chosen) ≤ maxWakes ∧
    threads s' = filter (λ t, t ∉ chosen) (threads s) ∧
    (∀ t, t ∈ chosen →
       ∃ w, waiter_of s t = Some w ∧
         thread_table s' !! t
           = Some (mkThread (Some w) (Ready WakeReason.MultiWaiter))) ∧
    (∀ t, t ∉ chosen → thread_table s' !! t = thread_table s !! t) ∧
    Forall2 (λ t w, waiter_of s t = Some w) chosen wc ∧
    pending s' (rev wc ++ lp) ∧
    (∀ p m, p ∈ lp → heap s !! p = Some m →
       heap s1 !! p = Some (triggered e source info m) ∧
       heap s' !! p = Some (triggered e source info m)) ∧
    (∀ p, p ∉ lp →
       (∀ t, t ∈ visited (thread_fires e source info s) (Z.to_nat maxWakes)
                   (threads s) → waiter_of s t ≠ Some p) →
       heap s' !! p = heap s !! p).
Proof.
  intros Hmax. split.
  { intros s' woken Hrun. split; [|by eapply wake_waiters_keeps].
    unfold wake_waiters in Hrun.
    apply bind_Ok_inv in Hrun as (s1 & _ & Hwalk).
    apply wake_walk_bound in Hwalk; lia. }
  intros lp ws (Hpend & Hnd & Hws & Hdis & Hlive & Hwf) chosen.
  destruct (trigger_woken_each e source info lp (S (size (heap s)))
              (wokenMultiwaiters s) s Hpend Hwf)
    as (s1 & Htw & Heach & Htt1 & Hts1 & Hk1 & Hout1 & Hin1 & Hnx1 & Hwf1).
  { pose proof (lseg_length _ _ _ Hpend). lia. }
  apply NoDup_app in Hdis as Hdis'. destruct Hdis' as (_ & Hsep & _).
  assert (Hpend1 : pending s1 lp).
  { unfold pending. rewrite Hk1. eapply lseg_frame; [|exact Hpend].
    intros p _. apply Hnx1. }
  assert (Hw1 : ∀ x, waiter_of s1 x = waiter_of s x).
  { intros x. unfold waiter_of. by rewrite Htt1. }
  assert (Hsleep : ∀ x, x ∈ threads s →
            ∃ wx, wx ∈ ws ∧ waiter_of s x = Some wx).
  { intros x Hx. apply list_elem_of_lookup in Hx as [i Hi].
    destruct (Forall2_lookup_l _ _ _ _ _ Hws Hi) as (wx & Hwx & Hx).
    exists wx. split; [by eapply list_elem_of_lookup_2|done]. }
  assert (Hf1 : ∀ x, x ∈ threads s1 →
            thread_fires e source info s1 x = thread_fires e source info s x).
  { intros x Hx. rewrite Hts1 in Hx.
    destruct (Hsleep x Hx) as (wx & Hwx & Hx').
    unfold thread_fires. rewrite Hw1, Hx'. by rewrite Hout1 by by apply Hsep. }
  destruct (wake_walk_spec e source info maxWakes (threads s1) ws s1 lp 0
              (Z.to_nat maxWakes))
    as (s' & wc & Hwalk & Hts & Htt & Hwc & Hpend' & Hheap);
    try done; try lia.
  { by rewrite Hts1. }
  { rewrite Hts1. eapply Forall2_impl; [done|].
    intros x wx Hx. by rewrite Hw1. }
  { intros wx Hwx. destruct (Hlive wx Hwx) as [m Hm].
    exists m. rewrite Hout1 by by apply Hsep. split; [done|by eapply Hwf]. }
  rewrite (visited_ext _ _ _ Hf1) in Hwalk, Hts, Htt, Hwc, Hheap.
  rewrite Hts1 in Hwalk, Hts, Htt, Hwc, Hheap.
  set (vis := visited (thread_fires e source info s) (Z.to_nat maxWakes)
                (threads s)) in *.
  assert (Hvis : ∀ x, x ∈ vis → x ∈ threads s).
  { intros x Hx. subst vis.
    destruct (visited_prefix (thread_fires e source info s) (threads s)
                (Z.to_nat maxWakes)) as [tl Htl].
    rewrite Htl. apply elem_of_app. by left. }
  assert (Hch : filter (λ x, thread_fires e source info s1 x = true) vis
                = chosen).
  { subst chosen vis. rewrite <- filter_visited.
    apply filter_iff_in. intros x Hx.
    rewrite Hf1; [done|]. rewrite Hts1. by apply Hvis. }
  rewrite Hch in Hwalk, Hts, Htt, Hwc. rewrite Z.add_0_l in Hwalk.
  assert (Hwc' : Forall2 (λ t w, waiter_of s t = Some w) chosen wc).
  { eapply Forall2_impl; [done|]. intros x wx Hx. by rewrite <- Hw1. }
  exists s1, s', wc. split_and!; try done.
  - by rewrite Hts1.
  - unfold wake_waiters. rewrite Htw.
    change (Ok ?a ≫= ?k) with (k a). cbv beta. by rewrite Hts1.
  - subst chosen. rewrite length_take. lia.
  - intros t Ht. apply list_elem_of_lookup in Ht as [i Hi].
    destruct (Forall2_lookup_l _ _ _ _ _ Hwc' Hi) as (w & _ & Hw).
    exists w. split; [done|]. rewrite Htt.
    rewrite decide_True by by eapply list_elem_of_lookup_2.
    rewrite Htt1. apply waiter_of_Some in Hw as (th & Hth & Hmw).
    rewrite Hth. simpl. by rewrite Hmw.
  - intros t Ht. rewrite Htt. rewrite decide_False by done. by rewrite Htt1.
  - intros p m Hp Hm. split; [by apply Hin1|].
    rewrite Hheap; [by apply Hin1|].
    intros t Ht Hc. rewrite Hw1 in Hc.
    destruct (Hsleep t (Hvis t Ht)) as (wx & Hwx & Hx).
    rewrite Hx in Hc. simplify_eq. by apply (Hsep p).
  - intros p Hp Hnot. rewrite Hheap; [by apply Hout1|].
    intros t Ht. rewrite Hw1. by apply Hnot.
Qed.

End WakeProperties.

Lemma example_two_sleepers_ready :
  wake_ready example_two_sleepers [32] [64; 96].
Proof.
  split_and!.
  - split; [reflexivity|]. exists (example_waitset 1). by split.
  - apply (bool_decide_unpack _). by vm_compute.
  - repeat constructor.
  - apply (bool_decide_unpack _). by vm_compute.
  - intros w Hw.
    repeat (apply elem_of_cons in Hw as [->|Hw]; [by eexists|]).
    by apply elem_of_nil in Hw.
  - intros p m Hm. unfold example_two_sleepers in Hm. simpl in Hm.
    repeat (apply lookup_insert_Some in Hm as [[_ <-]|[_ Hm]];
            [apply example_waitset_wf|]).
    by rewrite lookup_empty in Hm.
Defined.

Lemma wake_waiters_wakes_first_firing_witness :
  0 ≤ 1 < 2 ^ 32 ∧
  (∀ s' woken,
     wake_waiters example_env (SourceFutex 1000) 0 1 example_two_sleepers
       = Ok (s', woken) →
     0 ≤ woken ≤ 1 ∧ keeps example_two_sleepers s') ∧
  wake_ready example_two_sleepers [32] [64; 96] ∧
  let chosen := take (Z.to_nat 1)
                  (filter (λ t, thread_fires example_env (SourceFutex 1000) 0
                                  example_two_sleepers t = true)
                     (threads example_two_sleepers)) in
  ∃ s1 s' wc,
    trigger_each example_env (SourceFutex 1000) 0 [32] example_two_sleepers
      = Ok s1 ∧
    thread_table s1 = thread_table example_two_sleepers ∧
    threads s1 = threads example_two_sleepers ∧
    pending s1 [32] ∧
    walk_thread_list (threads s1)
      (wake_visit example_env (SourceFutex 1000) 0)
      (λ sw, bool_decide (sw.2 >= 1)) (s1, 0)
      = Ok (s', Z.of_nat (length chosen)) ∧
    wake_waiters example_env (SourceFutex 1000) 0 1 example_two_sleepers
      = Ok (s', Z.of_nat (length chosen)) ∧
    Z.of_nat (length chosen) ≤ 1 ∧
    threads s' = filter (λ t, t ∉ chosen) (threads example_two_sleepers) ∧
    (∀ t, t ∈ chosen →
       ∃ w, waiter_of example_two_sleepers t = Some w ∧
         thread_table s' !! t
           = Some (mkThread (Some w) (Ready WakeReason.MultiWaiter))) ∧
    (∀ t, t ∉ chosen →
       thread_table s' !! t = thread_table example_two_sleepers !! t) ∧
    Forall2 (λ t w, waiter_of example_two_sleepers t = Some w) chosen wc ∧
    pending s' (rev wc ++ [32]) ∧
    (∀ p m, p ∈ [32] → heap example_two_sleepers !! p = Some m →
       heap s1 !! p = Some (triggered example_env (SourceFutex 1000) 0 m) ∧
       heap s' !! p = Some (triggered example_env (SourceFutex 1000) 0 m)) ∧
    (∀ p, p ∉ [32] →
       (∀ t, t ∈ visited (thread_fires example_env (SourceFutex 1000) 0
                            example_two_sleepers) (Z.to_nat 1)
                   (threads example_two_sleepers) →
          waiter_of example_two_sleepers t ≠ Some p) →
       heap s' !! p = heap example_two_sleepers !! p).
Proof.
  assert (Hmax : 0 ≤ 1 < 2 ^ 32) by lia.
  split; [exact Hmax|].
  split;
    [exact (proj1 (wake_waiters_wakes_first_firing
                     (H := example_collaborators) example_env
                     (SourceFutex 1000) 0 1 example_two_sleepers Hmax))|].
  split; [exact example_two_sleepers_ready|].
  exact (proj2 (wake_waiters_wakes_first_firing
                  (H := example_collaborators) example_env
                  (SourceFutex 1000) 0 1 example_two_sleepers Hmax)
           [32] [64; 96] example_two_sleepers_ready).
Defined.

(** With two sleeping threads whose multiwaiters both fire and [maxWakes]
    1, the first thread of the list is woken and the second sleeps on. *)
Example wake_waiters_example :
  ∃ s', wake_waiters example_env (SourceFutex 1000) 0 1 example_two_sleepers
          = Ok (s', 1) ∧
    threads s' = [2] ∧
    wokenMultiwaiters s' = Some 64 ∧
    next <$> heap s' !! 64 = Some (Some 32) ∧
    heap s' !! 96 = Some (example_waitset 0) ∧
    state <$> thread_table s' !! 1 = Some (Ready WakeReason.MultiWaiter) ∧
    state <$> thread_table s' !! 2 = Some Suspended.
Proof. eexists. split; [reflexivity|]. repeat split. Qed.

(** * Further properties of the code *)

(** ** Event waiters *)

Lemma below_pow2_bits (a n : Z) :
  0 ≤ a → 0 ≤ n →
  a < 2 ^ n ↔ ∀ i, n ≤ i → Z.testbit a i = false.
Proof.
  intros Ha Hn. split.
  - intros Hlt i Hi. destruct (decide (a = 0)) as [->|Hne];
      [apply Z.bits_0|].
    apply Z.bits_above_log2; [done|].
    assert (Z.log2 a < n) by (apply Z.log2_lt_pow2; lia). lia.
  - intros Hbits.
    assert (Hmod : a mod 2 ^ n = a).
    { apply Z.bits_inj'. intros i Hi.
      destruct (decide (i < n)).
      - by apply Z.mod_pow2_bits_low.
      - rewrite Z.mod_pow2_bits_high by lia. symmetry. apply Hbits. lia. }
    rewrite <- Hmod. apply Z.mod_pos_bound. by apply Z.pow_pos_nonneg.
Qed.

Lemma lor_below_pow2 (a b n : Z) :
  0 ≤ a < 2 ^ n → 0 ≤ b < 2 ^ n → 0 ≤ n → 0 ≤ Z.lor a b < 2 ^ n.
Proof.
  intros [Ha Han] [Hb Hbn] Hn.
  assert (Hnonneg : 0 ≤ Z.lor a b) by (apply Z.lor_nonneg; lia).
  split; [done|].
  apply below_pow2_bits; [done|done|]. intros i Hi.
  rewrite Z.lor_spec.
  rewrite (proj1 (below_pow2_bits a n Ha Hn) Han i Hi).
  by rewrite (proj1 (below_pow2_bits b n Hb Hn) Hbn i Hi).
Qed.

Lemma bits24_small (a : Z) : 0 ≤ a < 2 ^ 24 → bits24 a = a.
Proof.
  intros Ha. unfold bits24. change 16777215 with (Z.ones 24).
  rewrite Z.land_ones by lia. apply Z.mod_small. lia.
Qed.

(** The check of [set_ready] on a 32-bit value: the top byte is clear
    exactly when the value fits in 24 bits. *)
Lemma top_byte_clear (value : Z) :
  0 ≤ value < 2 ^ 32 →
  Z.land value 4278190080 = 0 ↔ value < 2 ^ 24.
Proof.
  intros [Hv Hv32].
  rewrite (below_pow2_bits value 24) by lia.
  change 4278190080 with (Z.shiftl (Z.ones 8) 24). split.
  - intros Hz i Hi.
    destruct (decide (i < 32)) as [Hlt|Hge].
    + assert (Hb : Z.testbit (Z.land value (Z.shiftl (Z.ones 8) 24)) i
                   = false) by (rewrite Hz; apply Z.bits_0).
      rewrite Z.land_spec, Z.shiftl_spec, Z.testbit_ones_nonneg in Hb by lia.
      destruct (Z.ltb_spec (i - 24) 8); [|lia].
      by rewrite andb_true_r in Hb.
    + apply (proj1 (below_pow2_bits value 32 Hv ltac:(lia)) Hv32). lia.
  - intros Hbits. apply Z.bits_inj'. intros i Hi.
    rewrite Z.land_spec, Z.bits_0.
    destruct (decide (i < 24)) as [Hlt|Hge].
    + rewrite Z.shiftl_spec by lia.
      rewrite (Z.testbit_neg_r (Z.ones 8)) by lia. apply andb_false_r.
    + rewrite Hbits by lia. done.
Qed.

(** X1: [set_ready] with a 32-bit value traps exactly when the value does
    not fit in 24 bits; otherwise it ORs the value into [readyEvents], which
    stays within 24 bits, clears no bit that was set, leaves the other fields
    alone, and the waiter has fired afterwards exactly when it had fired
    before or the value is not zero. *)
Theorem set_ready_accumulates (value : Z) (w : EventWaiter) :
  0 ≤ value < 2 ^ 32 →
  0 ≤ readyEvents w < 2 ^ 24 →
  (2 ^ 24 ≤ value → set_ready value w = Fault AssertionFailure) ∧
  (value < 2 ^ 24 →
   ∃ w', set_ready value w = Ok w' ∧
     readyEvents w' = Z.lor (readyEvents w) value ∧
     0 ≤ readyEvents w' < 2 ^ 24 ∧
     (∀ i, Z.testbit (readyEvents w) i = true →
        Z.testbit (readyEvents w') i = true) ∧
     eventSource w' = eventSource w ∧ eventValue w' = eventValue w ∧
     kind w' = kind w ∧ flags w' = flags w ∧
     has_fired w' = has_fired w || bool_decide (value ≠ 0)).
Proof.
  intros Hv Hr. unfold set_ready. split.
  - intros Hbig. rewrite decide_False; [done|].
    rewrite top_byte_clear by done. lia.
  - intros Hsmall. rewrite decide_True by (by apply top_byte_clear).
    assert (Hlor : 0 ≤ Z.lor (readyEvents w) value < 2 ^ 24)
      by (apply lor_below_pow2; lia).
    eexists. split; [done|]. simpl. rewrite bits24_small by done.
    split_and!; try done; try lia.
    + intros i Hi. rewrite Z.lor_spec, Hi. done.
    + unfold has_fired. simpl.
      destruct (decide (readyEvents w = 0)) as [Hz|Hnz].
      * rewrite Hz, Z.lor_0_l.
        rewrite (bool_decide_eq_false_2 (0 ≠ 0)) by (intros Hc; by apply Hc).
        done.
      * rewrite (bool_decide_eq_true_2 (readyEvents w ≠ 0)) by done.
        apply bool_decide_eq_true_2. intros Hc.
        apply Z.lor_eq_0_iff in Hc as [Hc _]. done.
Qed.

Lemma set_ready_accumulates_witness :
  0 ≤ 1 < 2 ^ 32 ∧
  0 ≤ readyEvents (mkEventWaiter 1000 7 EventWaiterFutex 0 4) < 2 ^ 24 ∧
  (2 ^ 24 ≤ 1 →
   set_ready 1 (mkEventWaiter 1000 7 EventWaiterFutex 0 4)
     = Fault AssertionFailure) ∧
  (1 < 2 ^ 24 →
   ∃ w', set_ready 1 (mkEventWaiter 1000 7 EventWaiterFutex 0 4) = Ok w' ∧
     readyEvents w'
       = Z.lor (readyEvents (mkEventWaiter 1000 7 EventWaiterFutex 0 4)) 1 ∧
     0 ≤ readyEvents w' < 2 ^ 24 ∧
     (∀ i, Z.testbit (readyEvents (mkEventWaiter 1000 7 EventWaiterFutex 0 4))
             i = true →
        Z.testbit (readyEvents w') i = true) ∧
     eventSource w' = eventSource (mkEventWaiter 1000 7 EventWaiterFutex 0 4) ∧
     eventValue w' = eventValue (mkEventWaiter 1000 7 EventWaiterFutex 0 4) ∧
     kind w' = kind (mkEventWaiter 1000 7 EventWaiterFutex 0 4) ∧
     flags w' = flags (mkEventWaiter 1000 7 EventWaiterFutex 0 4) ∧
     has_fired w'
       = has_fired (mkEventWaiter 1000 7 EventWaiterFutex 0 4)
         || bool_decide (1 ≠ 0)).
Proof.
  assert (Hv : 0 ≤ 1 < 2 ^ 32) by lia.
  assert (Hr : 0 ≤ readyEvents (mkEventWaiter 1000 7 EventWaiterFutex 0 4)
               < 2 ^ 24) by (simpl; lia).
  split; [exact Hv|]. split; [exact Hr|].
  exact (set_ready_accumulates 1 (mkEventWaiter 1000 7 EventWaiterFutex 0 4)
           Hv Hr).
Defined.

(** X2: [trigger] for a futex on an event waiter fires exactly when the
    waiter is a futex waiter for the triggered address.  When it does not
    fire the waiter is unchanged; when it fires, bit 0 is set in
    [readyEvents], nothing else changes and the waiter has fired.
    Triggering a second time changes nothing more. *)
Theorem trigger_futex_fires_iff_registered (a : Z) (w : EventWaiter) :
  0 ≤ readyEvents w < 2 ^ 24 →
  ∃ w',
    trigger_futex a w
      = Ok (w', bool_decide (kind w = EventWaiterFutex ∧ eventSource w = a)) ∧
    (¬ (kind w = EventWaiterFutex ∧ eventSource w = a) → w' = w) ∧
    (kind w = EventWaiterFutex ∧ eventSource w = a →
     w' = mkEventWaiter (eventSource w) (eventValue w) (kind w) (flags w)
            (Z.lor (readyEvents w) 1) ∧
     Z.testbit (readyEvents w') 0 = true ∧ has_fired w' = true) ∧
    0 ≤ readyEvents w' < 2 ^ 24 ∧
    trigger_futex a w'
      = Ok (w', bool_decide (kind w = EventWaiterFutex ∧ eventSource w = a)).
Proof.
  intros Hr. unfold trigger_futex.
  assert (Hlor : 0 ≤ Z.lor (readyEvents w) 1 < 2 ^ 24)
    by (apply lor_below_pow2; lia).
  destruct (decide (kind w ≠ EventWaiterFutex ∨ eventSource w ≠ a))
    as [Hno|Hyes].
  - assert (Hn : ¬ (kind w = EventWaiterFutex ∧ eventSource w = a))
      by (intros [? ?]; destruct Hno; done).
    exists w. rewrite bool_decide_eq_false_2 by done.
    rewrite decide_True by done. split_and!; first [done|lia|tauto].
  - assert (Hy : kind w = EventWaiterFutex ∧ eventSource w = a).
    { split; apply dec_stable; intros Hc; apply Hyes; [by left|by right]. }
    rewrite set_ready_1. simpl. rewrite bits24_small by done.
    eexists. rewrite bool_decide_eq_true_2 by done.
    split; [done|]. simpl. split_and!; try done; try lia.
    + intros _. split_and!; [done| |].
      * rewrite <- Z.bit0_odd, Z.lor_spec. apply orb_true_r.
      * unfold has_fired. simpl. apply bool_decide_eq_true_2.
        intros Hc. apply Z.lor_eq_0_iff in Hc as [_ Hc]. done.
    + rewrite decide_False by done.
      rewrite <- Z.lor_assoc. change (Z.lor 1 1) with 1.
      by rewrite bits24_small.
Qed.

Lemma trigger_futex_fires_iff_registered_witness :
  0 ≤ readyEvents (mkEventWaiter 1000 7 EventWaiterFutex 0 0) < 2 ^ 24 ∧
  ∃ w',
    trigger_futex 1000 (mkEventWaiter 1000 7 EventWaiterFutex 0 0)
      = Ok (w', bool_decide
                  (kind (mkEventWaiter 1000 7 EventWaiterFutex 0 0)
                     = EventWaiterFutex ∧
                   eventSource (mkEventWaiter 1000 7 EventWaiterFutex 0 0)
                     = 1000)) ∧
    (¬ (kind (mkEventWaiter 1000 7 EventWaiterFutex 0 0) = EventWaiterFutex ∧
        eventSource (mkEventWaiter 1000 7 EventWaiterFutex 0 0) = 1000) →
     w' = mkEventWaiter 1000 7 EventWaiterFutex 0 0) ∧
    (kind (mkEventWaiter 1000 7 EventWaiterFutex 0 0) = EventWaiterFutex ∧
     eventSource (mkEventWaiter 1000 7 EventWaiterFutex 0 0) = 1000 →
     w' = mkEventWaiter
            (eventSource (mkEventWaiter 1000 7 EventWaiterFutex 0 0))
            (eventValue (mkEventWaiter 1000 7 EventWaiterFutex 0 0))
            (kind (mkEventWaiter 1000 7 EventWaiterFutex 0 0))
            (flags (mkEventWaiter 1000 7 EventWaiterFutex 0 0))
            (Z.lor (readyEvents (mkEventWaiter 1000 7 EventWaiterFutex 0 0))
               1) ∧
     Z.testbit (readyEvents w') 0 = true ∧ has_fired w' = true) ∧
    0 ≤ readyEvents w' < 2 ^ 24 ∧
    trigger_futex 1000 w'
      = Ok (w', bool_decide
                  (kind (mkEventWaiter 1000 7 EventWaiterFutex 0 0)
                     = EventWaiterFutex ∧
                   eventSource (mkEventWaiter 1000 7 EventWaiterFutex 0 0)
                     = 1000)).
Proof.
  assert (Hr : 0 ≤ readyEvents (mkEventWaiter 1000 7 EventWaiterFutex 0 0)
               < 2 ^ 24) by (simpl; lia).
  split; [exact Hr|].
  exact (trigger_futex_fires_iff_registered 1000
           (mkEventWaiter 1000 7 EventWaiterFutex 0 0) Hr).
Defined.

Section SlotComposition.
Context `{Collaborators}.

(** X3: an event waiter that has been reset for a futex fires on a trigger
    for the address it was reset with, whether or not the reset had already
    fired, and then holds exactly 1 in [readyEvents]; a trigger for any other
    address leaves it as the reset left it and returns false. *)
Theorem reset_futex_then_trigger (mem : Z → Z) (addr : Cap) (value : Z)
    (w : EventWaiter) (a : Z) :
  ∃ w1 b1 w2,
    reset_futex mem addr value w = Ok (w1, b1) ∧
    trigger_futex a w1 = Ok (w2, bool_decide (a = address addr)) ∧
    (a = address addr →
     w2 = mkEventWaiter (address addr) value EventWaiterFutex 0 1 ∧
     has_fired w2 = true) ∧
    (a ≠ address addr → w2 = w1).
Proof.
  assert (Hreset : ∃ r b1,
            reset_futex mem addr value w
              = Ok (mkEventWaiter (address addr) value EventWaiterFutex 0 r,
                    b1) ∧ (r = 0 ∨ r = 1)).
  { unfold reset_futex. case_decide.
    - rewrite set_ready_1. simpl. eexists _, _. split; [done|]. by right.
    - eexists _, _. split; [done|]. by left. }
  destruct Hreset as (r & b1 & -> & Hr).
  exists (mkEventWaiter (address addr) value EventWaiterFutex 0 r), b1.
  unfold trigger_futex. cbn [kind eventSource].
  destruct (decide (a = address addr)) as [->|Hne].
  - rewrite bool_decide_eq_true_2 by done.
    rewrite decide_False by (intros [?|?]; done).
    rewrite set_ready_1. cbn.
    eexists. split; [done|]. split; [done|].
    split; [|done]. intros _. by destruct Hr as [-> | ->].
  - rewrite bool_decide_eq_false_2 by done.
    rewrite decide_True by (right; congruence).
    eexists. split; [done|]. split; [done|]. split; done.
Qed.

End SlotComposition.

(** ** Triggering a multiwaiter *)

Section TriggerProperties.
Context `{Collaborators}.

(** What the loop of [trigger] has done when it is over. *)
Lemma trigger_loop_inv (e : Env) (source : Source) (info : Z) :
  ∀ (n : nat) (slots slots' : list EventWaiter) (wake wake' : bool),
  trigger_loop e source info n slots wake = Ok (slots', wake') →
  length slots' = length slots ∧
  (∀ i, (n ≤ i)%nat → slots' !! i = slots !! i) ∧
  (∀ i w, (i < n)%nat → slots !! i = Some w →
     ∃ r, EventWaiter_trigger e source info w = Ok r ∧
       slots' !! i = Some r.1) ∧
  (wake' = true ↔
   wake = true ∨
   ∃ i w r, (i < n)%nat ∧ slots !! i = Some w ∧
     EventWaiter_trigger e source info w = Ok r ∧ r.2 = true).
Proof.
  induction n as [|n IH]; intros slots slots' wake wake' Hrun;
    simpl in Hrun.
  - simplify_eq. split_and!; try done.
    + intros i w Hi. lia.
    + split; [by left|]. intros [?|(i & _ & _ & Hi & _)]; [done|lia].
  - destruct slots as [|w0 rest]; [done|].
    apply bind_Ok_inv in Hrun as ([w0' b0] & Hw0 & Hrun).
    apply bind_Ok_inv in Hrun as ([rest' wake1] & Hrest & Hrun).
    simplify_eq.
    apply IH in Hrest as (Hlen & Hframe & Hslots & Hwake).
    split_and!.
    + simpl. by rewrite Hlen.
    + intros [|i] Hi; [lia|]. simpl. apply Hframe. lia.
    + intros [|i] w Hi Hw; simpl in *.
      * simplify_eq. by exists (w0', b0).
      * apply Hslots; [lia|done].
    + rewrite Hwake. split.
      * intros [Hor|(i & w & r & Hi & Hw & Hr & Hb)].
        -- apply orb_true_iff in Hor as [?|Hb0]; [by left|].
           right. exists 0%nat, w0, (w0', b0). split_and!; try done. lia.
        -- right. exists (S i), w, r. split_and!; try done. lia.
      * intros [->|([|i] & w & r & Hi & Hw & Hr & Hb)]; simpl in *.
        -- by left.
        -- simplify_eq. rewrite Hw0 in Hr. simplify_eq. left.
           simpl in *. subst. by destruct wake.
        -- right. exists i, w, r. split_and!; try done. lia.
Qed.

(** X4: when the kind of the source is in [containedKinds], [trigger] on a
    multiwaiter replaces each of the first [usedLength] event waiters by
    what the event waiter's own [trigger] makes of it, and returns true
    exactly when one of those returned true; the event waiters from
    [usedLength] on, [Length], [usedLength], [containedKinds] and [next] are
    not touched. *)
Theorem trigger_visits_used_slots (e : Env) (source : Source) (info : Z)
    (m m' : MultiWaiter) (b : bool) :
  trigger e source info m = Ok (m', b) →
  Z.testbit (containedKinds m) (kind_code (KindFor source)) = true →
  Length m' = Length m ∧ usedLength m' = usedLength m ∧
  containedKinds m' = containedKinds m ∧ next m' = next m ∧
  length (events m') = length (events m) ∧
  (∀ i, (Z.to_nat (usedLength m) ≤ i)%nat →
     events m' !! i = events m !! i) ∧
  (∀ i w, (i < Z.to_nat (usedLength m))%nat → events m !! i = Some w →
     ∃ r, EventWaiter_trigger e source info w = Ok r ∧
       events m' !! i = Some r.1) ∧
  (b = true ↔
   ∃ i w r, (i < Z.to_nat (usedLength m))%nat ∧ events m !! i = Some w ∧
     EventWaiter_trigger e source info w = Ok r ∧ r.2 = true).
Proof.
  intros Hrun Hbit. unfold trigger in Hrun.
  rewrite decide_False in Hrun.
  2:{ rewrite land_bit_zero by (by destruct source). by rewrite Hbit. }
  apply bind_Ok_inv in Hrun as ([slots wake] & Hloop & Hrun). simplify_eq.
  apply trigger_loop_inv in Hloop as (Hlen & Hframe & Hslots & Hwake).
  simpl. split_and!; try done.
  rewrite Hwake. split; [|by right].
  intros [?|?]; done.
Qed.

Lemma trigger_loop_futex_env (e e' : Env) (a info info' : Z) :
  ∀ (n : nat) (slots : list EventWaiter) (wake : bool),
  trigger_loop e (SourceFutex a) info n slots wake
  = trigger_loop e' (SourceFutex a) info' n slots wake.
Proof.
  induction n as [|n IH]; intros slots wake; [done|].
  destruct slots as [|w rest]; [done|].
  simpl. destruct (trigger_futex a w) as [[w' b]|f]; [|done].
  cbn. by rewrite IH.
Qed.

(** The futex trigger of an event waiter, as one equation. *)
Lemma EventWaiter_trigger_futex (e : Env) (a info : Z) (w : EventWaiter) :
  EventWaiter_trigger e (SourceFutex a) info w
  = Ok (if decide (kind w = EventWaiterFutex ∧ eventSource w = a)
        then (mkEventWaiter (eventSource w) (eventValue w) (kind w)
                (flags w) (bits24 (Z.lor (readyEvents w) 1)), true)
        else (w, false)).
Proof.
  simpl. unfold trigger_futex.
  destruct (decide (kind w ≠ EventWaiterFutex ∨ eventSource w ≠ a))
    as [Hno|Hyes].
  - rewrite decide_False; [done|]. intros [? ?]. by destruct Hno.
  - rewrite decide_True; [by rewrite set_ready_1|].
    split; apply dec_stable; intros Hc; apply Hyes; [by left|by right].
Qed.

(** [trigger] for a futex on a well-formed multiwaiter, slot by slot. *)
Lemma trigger_futex_slots (e : Env) (a info : Z) (m : MultiWaiter) :
  MultiWaiter_wf m →
  ∃ m' b,
    trigger e (SourceFutex a) info m = Ok (m', b) ∧
    next m' = next m ∧ Length m' = Length m ∧ MultiWaiter_wf m' ∧
    (b = true ↔
     Z.testbit (containedKinds m) (kind_code EventWaiterFutex) = true ∧
     ∃ i w, (i < Z.to_nat (usedLength m))%nat ∧ events m !! i = Some w ∧
       kind w = EventWaiterFutex ∧ eventSource w = a) ∧
    (∀ i w, events m !! i = Some w →
       events m' !! i =
         Some (if decide
                    (Z.testbit (containedKinds m)
                       (kind_code EventWaiterFutex) = true ∧
                     (i < Z.to_nat (usedLength m))%nat ∧
                     kind w = EventWaiterFutex ∧ eventSource w = a)
               then mkEventWaiter (eventSource w) (eventValue w) (kind w)
                      (flags w) (bits24 (Z.lor (readyEvents w) 1))
               else w)).
Proof.
  intros Hwf.
  destruct (trigger_total e (SourceFutex a) info m Hwf)
    as (m' & b & Hrun & _ & _ & Hnext & Hwf').
  exists m', b. split; [done|]. split; [done|].
  assert (HLen : Length m' = Length m).
  { unfold trigger in Hrun. case_decide; [by simplify_eq|].
    apply bind_Ok_inv in Hrun as ([slots wake] & _ & Hrun).
    by simplify_eq. }
  split; [done|]. split; [done|].
  destruct (Z.testbit (containedKinds m) (kind_code EventWaiterFutex))
    eqn:Hbit.
  - unfold trigger in Hrun. rewrite decide_False in Hrun.
    2:{ rewrite land_bit_zero by done. simpl KindFor. by rewrite Hbit. }
    apply bind_Ok_inv in Hrun as ([slots wake] & Hloop & Hrun). simplify_eq.
    apply trigger_loop_inv in Hloop as (Hlen & Hframe & Hslots & Hwake).
    simpl. split.
    + rewrite Hwake. split.
      * intros [?|(i & w & r & Hi & Hw & Hr & Hb)]; [done|].
        split; [done|]. exists i, w. split; [done|]. split; [done|].
        rewrite EventWaiter_trigger_futex in Hr.
        case_decide; by simplify_eq.
      * intros (_ & i & w & Hi & Hw & Hk & Ha). right.
        eexists i, w, _. split; [done|]. split; [done|].
        split; [apply EventWaiter_trigger_futex|]. by rewrite decide_True.
    + intros i w Hw.
      destruct (decide (i < Z.to_nat (usedLength m))%nat) as [Hi|Hi].
      * destruct (Hslots i w Hi Hw) as (r & Hr & ->).
        rewrite EventWaiter_trigger_futex in Hr. simplify_eq. f_equal.
        destruct (decide (kind w = EventWaiterFutex ∧ eventSource w = a)).
        -- by rewrite decide_True.
        -- rewrite decide_False; [done|]. tauto.
      * rewrite Hframe by lia. rewrite Hw.
        rewrite decide_False; [done|]. tauto.
  - unfold trigger in Hrun. rewrite decide_True in Hrun.
    2:{ rewrite land_bit_zero by done. simpl KindFor. by rewrite Hbit. }
    simplify_eq. split.
    + split; [done|]. by intros [? _].
    + intros i w Hw. rewrite Hw. rewrite decide_False; [done|].
      by intros [? _].
Qed.

(** X5: on a well-formed multiwaiter, [trigger] for a futex returns, and
    returns true exactly when futexes are among the kinds registered and one
    of the first [usedLength] event waiters is a futex waiter for that
    address; each such waiter then has bit 0 of [readyEvents] set and every
    other event waiter is unchanged.  The outcome depends neither on [info]
    nor on the state of the queues and event channels. *)
Theorem trigger_futex_source (e : Env) (a info : Z) (m : MultiWaiter) :
  MultiWaiter_wf m →
  ∃ m' b,
    trigger e (SourceFutex a) info m = Ok (m', b) ∧
    (∀ e' info', trigger e' (SourceFutex a) info' m = Ok (m', b)) ∧
    (b = true ↔
     Z.testbit (containedKinds m) (kind_code EventWaiterFutex) = true ∧
     ∃ i w, (i < Z.to_nat (usedLength m))%nat ∧ events m !! i = Some w ∧
       kind w = EventWaiterFutex ∧ eventSource w = a) ∧
    (∀ i w, events m !! i = Some w →
       events m' !! i =
         Some (if decide
                    (Z.testbit (containedKinds m)
                       (kind_code EventWaiterFutex) = true ∧
                     (i < Z.to_nat (usedLength m))%nat ∧
                     kind w = EventWaiterFutex ∧ eventSource w = a)
               then mkEventWaiter (eventSource w) (eventValue w) (kind w)
                      (flags w) (bits24 (Z.lor (readyEvents w) 1))
               else w)).
Proof.
  intros Hwf.
  destruct (trigger_futex_slots e a info m Hwf)
    as (m' & b & Hrun & _ & _ & _ & Hb & Hslots).
  exists m', b. split; [done|]. split; [|done].
  clear Hb Hslots. intros e' info'. rewrite <- Hrun. unfold trigger.
  case_decide; [done|].
  by rewrite (trigger_loop_futex_env e' e a info' info).
Qed.

End TriggerProperties.

Lemma trigger_visits_used_slots_witness :
  trigger example_env (SourceFutex 1000) 0 (example_waitset 0)
    = Ok (example_waitset 1, true) ∧
  Z.testbit (containedKinds (example_waitset 0))
    (kind_code (KindFor (SourceFutex 1000))) = true ∧
  Length (example_waitset 1) = Length (example_waitset 0) ∧
  usedLength (example_waitset 1) = usedLength (example_waitset 0) ∧
  containedKinds (example_waitset 1) = containedKinds (example_waitset 0) ∧
  next (example_waitset 1) = next (example_waitset 0) ∧
  length (events (example_waitset 1)) = length (events (example_waitset 0)) ∧
  (∀ i, (Z.to_nat (usedLength (example_waitset 0)) ≤ i)%nat →
     events (example_waitset 1) !! i = events (example_waitset 0) !! i) ∧
  (∀ i w, (i < Z.to_nat (usedLength (example_waitset 0)))%nat →
     events (example_waitset 0) !! i = Some w →
     ∃ r, EventWaiter_trigger example_env (SourceFutex 1000) 0 w = Ok r ∧
       events (example_waitset 1) !! i = Some r.1) ∧
  (true = true ↔
   ∃ i w r, (i < Z.to_nat (usedLength (example_waitset 0)))%nat ∧
     events (example_waitset 0) !! i = Some w ∧
     EventWaiter_trigger example_env (SourceFutex 1000) 0 w = Ok r ∧
     r.2 = true).
Proof.
  assert (Hrun : trigger example_env (SourceFutex 1000) 0 (example_waitset 0)
                 = Ok (example_waitset 1, true)) by reflexivity.
  assert (Hbit : Z.testbit (containedKinds (example_waitset 0))
                   (kind_code (KindFor (SourceFutex 1000))) = true)
    by reflexivity.
  split; [exact Hrun|]. split; [exact Hbit|].
  exact (trigger_visits_used_slots (H := example_collaborators) example_env
           (SourceFutex 1000) 0 (example_waitset 0) (example_waitset 1) true
           Hrun Hbit).
Defined.

Lemma trigger_futex_source_witness :
  MultiWaiter_wf (example_waitset 0) ∧
  ∃ m' b,
    trigger example_env (SourceFutex 1000) 0 (example_waitset 0)
      = Ok (m', b) ∧
    (∀ (e' : Z → Z) info',
       trigger e' (SourceFutex 1000) info' (example_waitset 0)
         = Ok (m', b)) ∧
    (b = true ↔
     Z.testbit (containedKinds (example_waitset 0))
       (kind_code EventWaiterFutex) = true ∧
     ∃ i w, (i < Z.to_nat (usedLength (example_waitset 0)))%nat ∧
       events (example_waitset 0) !! i = Some w ∧
       kind w = EventWaiterFutex ∧ eventSource w = 1000) ∧
    (∀ i w, events (example_waitset 0) !! i = Some w →
       events m' !! i =
         Some (if decide
                    (Z.testbit (containedKinds (example_waitset 0))
                       (kind_code EventWaiterFutex) = true ∧
                     (i < Z.to_nat (usedLength (example_waitset 0)))%nat ∧
                     kind w = EventWaiterFutex ∧ eventSource w = 1000)
               then mkEventWaiter (eventSource w) (eventValue w) (kind w)
                      (flags w) (bits24 (Z.lor (readyEvents w) 1))
               else w)).
Proof.
  split; [exact (example_waitset_wf 0)|].
  exact (trigger_futex_source (H := example_collaborators) example_env 1000 0
           (example_waitset 0) (example_waitset_wf 0)).
Defined.

(** ** Registration followed by a trigger *)

Section RegistrationProperties.
Context `{Collaborators}.

(** A futex spec that validates carries its own capability on. *)
Lemma validate_futex (ev : EventWaiterSource) (v : Validated) :
  src_kind ev = kind_code EventWaiterFutex →
  validate ev = Some v → v = ValidFutex (src_eventSource ev).
Proof.
  intros Hk. unfold validate. rewrite Hk. simpl.
  destruct (check_pointer_Load (src_eventSource ev)); by intros [= <-].
Qed.

(** A number whose bits from 3 on are clear is below 8. *)
Lemma bits_below_8 (z : Z) :
  (∀ k, 3 ≤ k → Z.testbit z k = false) → 0 ≤ z < 8.
Proof.
  intros Hhigh.
  assert (Hz : z = Z.land z (Z.ones 3)).
  { apply Z.bits_inj'. intros k Hk. rewrite Z.land_spec.
    destruct (Z.ltb_spec k 3) as [Hlt|Hge].
    - rewrite Z.ones_spec_low by lia. by rewrite andb_true_r.
    - rewrite Hhigh by lia. done. }
  rewrite Z.land_ones in Hz by lia.
  pose proof (Z.mod_pos_bound z (2 ^ 3) ltac:(lia)). lia.
Qed.

(** Well-formedness is kept by [set_events] when the batch fits. *)
Lemma set_events_wf (e : Env) (mem : Z → Z)
    (newEvents : list EventWaiterSource) (this this' : MultiWaiter)
    (r : EventOperationResult) :
  MultiWaiter_wf this →
  Z.of_nat (length newEvents) ≤ Length this →
  set_events e mem newEvents this = Ok (this', r) →
  MultiWaiter_wf this'.
Proof.
  intros (Hrange & Hused & Hlen) Hcount Hrun.
  apply set_events_inv in Hrun as
    (regs & HL & HN & HE & Hn & Hres & Hreg & Hframe & Hbits).
  unfold MultiWaiter_wf. rewrite HL, HE. split; [done|]. split; [|done].
  destruct r.
  - destruct Hres as [-> _]. done.
  - destruct Hres as (-> & _). unfold uint8, MaxMultiWaiterSize in *.
    rewrite Z.mod_small; lia.
  - destruct Hres as (-> & _). unfold uint8, MaxMultiWaiterSize in *.
    rewrite Z.mod_small; lia.
Qed.

(** X6: [set_events] with a batch that fits takes a well-formed multiwaiter
    to a well-formed one, whatever it returns: [Length], [next] and the
    number of event waiters are unchanged, [usedLength] stays within
    [Length], and [containedKinds] never has a bit other than those of the
    three kinds. *)
Theorem set_events_keeps_wf (e : Env) (mem : Z → Z)
    (newEvents : list EventWaiterSource) (this : MultiWaiter) :
  MultiWaiter_wf this →
  Z.of_nat (length newEvents) ≤ Length this →
  ∃ this' r,
    set_events e mem newEvents this = Ok (this', r) ∧
    MultiWaiter_wf this' ∧
    Length this' = Length this ∧
    next this' = next this ∧
    length (events this') = length (events this) ∧
    0 ≤ containedKinds this' < 8.
Proof.
  intros Hwf Hcount.
  destruct (set_events_total e mem newEvents this Hwf Hcount)
    as (this' & r & Hrun).
  exists this', r. split; [done|].
  split; [by eapply set_events_wf|].
  apply set_events_inv in Hrun as
    (regs & HL & HN & HE & Hn & Hres & Hreg & Hframe & Hbits).
  do 3 (split; [done|]).
  apply bits_below_8. intros k Hk. rewrite Hbits by lia.
  apply not_true_is_false. intros Hex.
  apply existsb_exists in Hex as (ev & Hin & Hev).
  apply bool_decide_eq_true in Hev.
  apply list_elem_of_In, list_elem_of_lookup in Hin as [j Hj].
  apply lookup_take_Some in Hj as [Hj Hlt].
  destruct (Hreg j ev Hlt Hj) as (v & _ & _ & Hv & _).
  apply validate_Some_kind in Hv. lia.
Qed.

(** X7: after [set_events], whatever it returned, [trigger] for a source of
    a kind that no spec of the batch has returns false and changes nothing;
    in particular after [set_events] with an empty batch no source triggers
    the multiwaiter, whatever its event waiters still hold. *)
Theorem set_events_then_trigger_other_kind (e : Env) (mem : Z → Z)
    (newEvents : list EventWaiterSource) (this this' : MultiWaiter)
    (r : EventOperationResult) (e' : Env) (source : Source) (info : Z) :
  set_events e mem newEvents this = Ok (this', r) →
  (∀ ev, ev ∈ newEvents → src_kind ev ≠ kind_code (KindFor source)) →
  trigger e' source info this' = Ok (this', false).
Proof.
  intros Hrun Hkind.
  apply set_events_inv in Hrun as
    (regs & HL & HN & HE & Hn & Hres & Hreg & Hframe & Hbits).
  unfold trigger. rewrite decide_True; [done|].
  apply land_bit_zero; [by destruct source|].
  rewrite Hbits by (by destruct source).
  apply not_true_is_false. intros Hex.
  apply existsb_exists in Hex as (ev & Hin & Hev).
  apply bool_decide_eq_true in Hev.
  apply list_elem_of_In in Hin.
  apply elem_of_take in Hin as (j & Hj & _).
  apply list_elem_of_lookup_2 in Hj. by apply (Hkind ev).
Qed.

(** X8: after [set_events] has registered a batch that fits and in which
    every spec validates, [trigger] for the address of any futex spec of the
    batch returns true, and the event waiter at the index of that spec then
    has bit 0 of [readyEvents] set. *)
Theorem set_events_then_trigger_futex (e : Env) (mem : Z → Z)
    (newEvents : list EventWaiterSource) (this : MultiWaiter)
    (i : nat) (ev : EventWaiterSource) (e' : Env) (info : Z) :
  MultiWaiter_wf this →
  Z.of_nat (length newEvents) ≤ Length this →
  (∀ ev, ev ∈ newEvents → ¬ fails_validation ev) →
  newEvents !! i = Some ev →
  src_kind ev = kind_code EventWaiterFutex →
  ∃ this' r m' w,
    set_events e mem newEvents this = Ok (this', r) ∧
    trigger e' (SourceFutex (address (src_eventSource ev))) info this'
      = Ok (m', true) ∧
    events m' !! i = Some w ∧
    kind w = EventWaiterFutex ∧
    eventSource w = address (src_eventSource ev) ∧
    eventValue w = src_value ev ∧
    Z.testbit (readyEvents w) 0 = true ∧
    has_fired w = true.
Proof.
  intros Hwf Hcount Hvalid Hev Hkind.
  destruct (set_events_total e mem newEvents this Hwf Hcount)
    as (this' & r & Hrun).
  pose proof (set_events_wf e mem newEvents this this' r Hwf Hcount Hrun)
    as Hwf'.
  destruct (trigger_total e' (SourceFutex (address (src_eventSource ev)))
              info this' Hwf') as (m' & b & Htrig & _).
  apply set_events_inv in Hrun as Hinv.
  destruct Hinv as (regs & HL & HN & HE & Hn & Hres & Hreg & Hframe & Hbits).
  assert (Hall : length regs = length newEvents ∧
                 usedLength this' = Z.of_nat (length newEvents)).
  { destruct Hwf as (Hrange & _ & _). unfold MaxMultiWaiterSize in Hrange.
    destruct r.
    - destruct Hres as (_ & bad & Hbad & Hnone).
      apply validate_None_iff in Hnone.
      apply list_elem_of_lookup_2 in Hbad. by destruct (Hvalid bad).
    - destruct Hres as (-> & -> & _). split; [done|].
      unfold uint8. rewrite Z.mod_small; lia.
    - destruct Hres as (-> & -> & _). split; [done|].
      unfold uint8. rewrite Z.mod_small; lia. }
  destruct Hall as [Hregs Hused].
  assert (Hi : (i < length newEvents)%nat) by (by eapply lookup_lt_Some).
  destruct (Hreg i ev) as (v & slot & reg & Hv & Hslot & Hreset & _ & Hnew);
    [lia|done|].
  apply (validate_futex ev v Hkind) in Hv as ->. simpl in Hreset.
  assert (Hbit : Z.testbit (containedKinds this')
                   (kind_code EventWaiterFutex) = true).
  { rewrite Hbits by done. apply existsb_exists. exists ev. split.
    - apply list_elem_of_In. rewrite Hregs, firstn_all.
      by eapply list_elem_of_lookup_2.
    - by apply bool_decide_eq_true. }
  assert (Hshape : kind reg.1 = EventWaiterFutex ∧
                   eventSource reg.1 = address (src_eventSource ev) ∧
                   eventValue reg.1 = src_value ev ∧
                   (readyEvents reg.1 = 0 ∨ readyEvents reg.1 = 1)).
  { unfold reset_futex in Hreset. case_decide.
    - rewrite set_ready_1 in Hreset. simpl in Hreset. simplify_eq.
      simpl. split_and!; try done. by right.
    - simplify_eq. simpl. split_and!; try done. by left. }
  destruct Hshape as (Hk & Ha & Hval & Hready).
  pose proof Htrig as Htrig0.
  unfold trigger in Htrig. rewrite decide_False in Htrig.
  2:{ rewrite land_bit_zero by done. simpl KindFor. by rewrite Hbit. }
  apply bind_Ok_inv in Htrig as Hloop.
  destruct Hloop as ([slots wake] & Hloop & Hret). simplify_eq.
  apply trigger_loop_inv in Hloop as (Hlen & Hframe' & Hslots & Hwake).
  assert (Hfire : EventWaiter_trigger e'
                    (SourceFutex (address (src_eventSource ev))) info reg.1
                  = Ok (mkEventWaiter (eventSource reg.1) (eventValue reg.1)
                          (kind reg.1) (flags reg.1)
                          (bits24 (Z.lor (readyEvents reg.1) 1)), true)).
  { simpl. unfold trigger_futex.
    rewrite decide_False by (intros [?|?]; done).
    by rewrite set_ready_1. }
  destruct (Hslots i reg.1) as (res & Hres' & Hat); [lia|done|].
  rewrite Hfire in Hres'. simplify_eq. simpl in Hat.
  assert (Hb : b = true).
  { apply Hwake. right. eexists i, reg.1, _. split; [lia|].
    split; [done|]. split; [exact Hfire|done]. }
  subst b. eexists this', r, _, _. split; [done|]. split; [exact Htrig0|].
  split; [exact Hat|]. simpl. split_and!; try done.
  - destruct Hready as [->| ->]; reflexivity.
  - destruct Hready as [->| ->]; reflexivity.
Qed.

End RegistrationProperties.

Lemma set_events_keeps_wf_witness :
  MultiWaiter_wf (example_waiter 3) ∧
  Z.of_nat (length example_batch_bad) ≤ Length (example_waiter 3) ∧
  ∃ this' r,
    set_events example_env example_mem example_batch_bad (example_waiter 3)
      = Ok (this', r) ∧
    MultiWaiter_wf this' ∧
    Length this' = Length (example_waiter 3) ∧
    next this' = next (example_waiter 3) ∧
    length (events this') = length (events (example_waiter 3)) ∧
    0 ≤ containedKinds this' < 8.
Proof.
  assert (Hwf : MultiWaiter_wf (example_waiter 3))
    by (apply example_waiter_wf; unfold MaxMultiWaiterSize; lia).
  assert (Hcount : Z.of_nat (length example_batch_bad)
                   ≤ Length (example_waiter 3)) by (simpl; lia).
  split; [exact Hwf|]. split; [exact Hcount|].
  exact (set_events_keeps_wf example_env example_mem example_batch_bad
           (example_waiter 3) Hwf Hcount).
Defined.

Lemma set_events_then_trigger_other_kind_witness :
  set_events example_env example_mem [example_spec 2 (Pointer 1000 true) 7]
    (example_waiter 2) = Ok (example_waitset 0, Sleep) ∧
  (∀ ev, ev ∈ [example_spec 2 (Pointer 1000 true) 7] →
     src_kind ev ≠ kind_code (KindFor (SourceQueue 100))) ∧
  trigger example_env (SourceQueue 100) 0 (example_waitset 0)
    = Ok (example_waitset 0, false).
Proof.
  assert (Hrun : set_events example_env example_mem
                   [example_spec 2 (Pointer 1000 true) 7] (example_waiter 2)
                 = Ok (example_waitset 0, Sleep)) by reflexivity.
  assert (Hkind : ∀ ev, ev ∈ [example_spec 2 (Pointer 1000 true) 7] →
            src_kind ev ≠ kind_code (KindFor (SourceQueue 100))).
  { intros ev Hin. apply list_elem_of_singleton in Hin as ->. simpl. lia. }
  split; [exact Hrun|]. split; [exact Hkind|].
  exact (set_events_then_trigger_other_kind example_env example_mem
           [example_spec 2 (Pointer 1000 true) 7] (example_waiter 2)
           (example_waitset 0) Sleep example_env (SourceQueue 100) 0
           Hrun Hkind).
Defined.

Lemma set_events_then_trigger_futex_witness :
  MultiWaiter_wf (example_waiter 2) ∧
  Z.of_nat (length example_batch_ok) ≤ Length (example_waiter 2) ∧
  (∀ ev, ev ∈ example_batch_ok → ¬ fails_validation ev) ∧
  example_batch_ok !! 1%nat = Some (example_spec 2 (Pointer 1000 true) 5) ∧
  src_kind (example_spec 2 (Pointer 1000 true) 5)
    = kind_code EventWaiterFutex ∧
  ∃ this' r m' w,
    set_events example_env example_mem example_batch_ok (example_waiter 2)
      = Ok (this', r) ∧
    trigger example_env
      (SourceFutex
         (address (src_eventSource (example_spec 2 (Pointer 1000 true) 5))))
      0 this' = Ok (m', true) ∧
    events m' !! 1%nat = Some w ∧
    kind w = EventWaiterFutex ∧
    eventSource w
      = address (src_eventSource (example_spec 2 (Pointer 1000 true) 5)) ∧
    eventValue w = src_value (example_spec 2 (Pointer 1000 true) 5) ∧
    Z.testbit (readyEvents w) 0 = true ∧
    has_fired w = true.
Proof.
  assert (Hwf : MultiWaiter_wf (example_waiter 2))
    by (apply example_waiter_wf; unfold MaxMultiWaiterSize; lia).
  assert (Hcount : Z.of_nat (length example_batch_ok)
                   ≤ Length (example_waiter 2)) by (simpl; lia).
  assert (Hev : example_batch_ok !! 1%nat
                = Some (example_spec 2 (Pointer 1000 true) 5))
    by reflexivity.
  assert (Hkind : src_kind (example_spec 2 (Pointer 1000 true) 5)
                  = kind_code EventWaiterFutex) by reflexivity.
  split; [exact Hwf|]. split; [exact Hcount|].
  split; [exact example_batch_ok_valid|].
  split; [exact Hev|]. split; [exact Hkind|].
  exact (set_events_then_trigger_futex example_env example_mem
           example_batch_ok (example_waiter 2) 1
           (example_spec 2 (Pointer 1000 true) 5) example_env 0
           Hwf Hcount example_batch_ok_valid Hev Hkind).
Defined.

(** ** The list of woken multiwaiters and the results *)

(** X9: on a null-terminated list of woken multiwaiters,
    [remove_from_pending_wake_list] takes the multiwaiter off the list,
    keeps the others in their order, sets its [next] to [nullptr] and
    changes no field other than [next] of any multiwaiter and no thread; a
    second call changes nothing. *)
Theorem remove_from_pending_wake_list_twice (this : Z) (s : Sched)
    (l : list Z) (me : MultiWaiter) :
  pending s l →
  heap s !! this = Some me →
  (this ∈ l ∨ next me = None) →
  ∃ s1,
    remove_from_pending_wake_list this s = Ok s1 ∧
    remove_from_pending_wake_list this s1 = Ok s1 ∧
    pending s1 (filter (λ p, p ≠ this) l) ∧
    (this ∉ filter (λ p, p ≠ this) l) ∧
    heap s1 !! this = Some (set_next None me) ∧
    heap_erase (heap s1) = heap_erase (heap s) ∧
    thread_table s1 = thread_table s ∧
    threads s1 = threads s.
Proof.
  intros Hl Hme Hon.
  destruct (remove_from_pending_wake_list_pending this s l me Hl Hme)
    as (s1 & Hrm & Htt & Hts & Her & Hme1 & Hpend & _).
  specialize (Hpend Hon).
  assert (Hout : this ∉ filter (λ p, p ≠ this) l).
  { intros Hin. apply list_elem_of_filter in Hin as [Hne _]. done. }
  destruct (remove_from_pending_wake_list_pending this s1 _ _ Hpend Hme1)
    as (s2 & Hrm2 & _ & _ & _ & _ & _ & Hsame).
  rewrite (Hsame Hout eq_refl) in Hrm2.
  exists s1. by split_and!.
Qed.

Lemma remove_from_pending_wake_list_twice_witness :
  pending example_woken [64] ∧
  heap example_woken !! 64 = Some (example_waitset 1) ∧
  (64 ∈ [64] ∨ next (example_waitset 1) = None) ∧
  ∃ s1,
    remove_from_pending_wake_list 64 example_woken = Ok s1 ∧
    remove_from_pending_wake_list 64 s1 = Ok s1 ∧
    pending s1 (filter (λ p, p ≠ 64) [64]) ∧
    (64 ∉ filter (λ p, p ≠ 64) [64]) ∧
    heap s1 !! 64 = Some (set_next None (example_waitset 1)) ∧
    heap_erase (heap s1) = heap_erase (heap example_woken) ∧
    thread_table s1 = thread_table example_woken ∧
    threads s1 = threads example_woken.
Proof.
  assert (Hme : heap example_woken !! 64 = Some (example_waitset 1))
    by reflexivity.
  assert (Hon : 64 ∈ [64] ∨ next (example_waitset 1) = None)
    by (right; reflexivity).
  split; [exact example_woken_pending|]. split; [exact Hme|].
  split; [exact Hon|].
  exact (remove_from_pending_wake_list_twice 64 example_woken [64]
           (example_waitset 1) example_woken_pending Hme Hon).
Defined.

Section ResultsProperties.
Context `{Collaborators}.

(** The loop of [get_results] gives the same answer on its own output. *)
Lemma get_results_loop_again (slots : list EventWaiter) :
  ∀ (newEvents out : list EventWaiterSource) (i : nat) (found found' : bool),
  get_results_loop slots newEvents i found = Ok (out, found') →
  get_results_loop slots out i found = Ok (out, found').
Proof.
  induction newEvents as [|ev rest IH]; intros out i found found' Hrun;
    simpl in Hrun.
  - by simplify_eq.
  - destruct (slots !! i) as [w|] eqn:Hw; [|done].
    apply bind_Ok_inv in Hrun as ([rest' f1] & Hrest & Hrun).
    simplify_eq. apply IH in Hrest.
    simpl. rewrite Hw, Hrest. done.
Qed.

(** X10: [get_results] does not consume what it reports: it changes no
    event waiter, so that calling it again, with the same array or with the
    array it has filled in, returns the same values and the same flag and
    leaves the state as the first call left it. *)
Theorem get_results_twice (this : Z) (newEvents : list EventWaiterSource)
    (s : Sched) (l : list Z) (me : MultiWaiter) :
  pending s l →
  heap s !! this = Some me →
  MultiWaiter_wf me →
  Z.of_nat (length newEvents) ≤ Length me →
  (this ∈ l ∨ next me = None) →
  ∃ s1 out found,
    get_results this newEvents s = Ok (s1, out, found) ∧
    heap s1 !! this = Some (set_next None me) ∧
    heap_erase (heap s1) = heap_erase (heap s) ∧
    get_results this newEvents s1 = Ok (s1, out, found) ∧
    get_results this out s1 = Ok (s1, out, found).
Proof.
  intros Hl Hme (Hrange & Hused & Hlen) Hcount Hon.
  destruct (remove_from_pending_wake_list_pending this s l me Hl Hme)
    as (s1 & Hrm & _ & _ & Her & Hme1 & Hpend & _).
  specialize (Hpend Hon).
  assert (Hout : this ∉ filter (λ p, p ≠ this) l).
  { intros Hin. apply list_elem_of_filter in Hin as [Hne _]. done. }
  destruct (remove_from_pending_wake_list_pending this s1 _ _ Hpend Hme1)
    as (s2 & Hrm2 & _ & _ & _ & _ & _ & Hsame).
  rewrite (Hsame Hout eq_refl) in Hrm2.
  destruct (get_results_loop_spec (events me) newEvents 0 false)
    as (out & found & Hloop & Hout_len & _); [lia|].
  pose proof (get_results_loop_again _ _ _ _ _ _ Hloop) as Hloop2.
  exists s1, out, found.
  assert (Hcall : ∀ evs s0,
    remove_from_pending_wake_list this s0 = Ok s1 →
    length evs = length newEvents →
    get_results_loop (events me) evs 0 false = Ok (out, found) →
    get_results this evs s0 = Ok (s1, out, found)).
  { intros evs s0 Hrm0 Hevs Hrun. unfold get_results. rewrite Hrm0. simpl.
    rewrite (load_Some _ _ _ Hme1). simpl.
    rewrite decide_True by (rewrite Hevs; done).
    by rewrite Hrun. }
  split_and!; try done.
  - by apply Hcall.
  - by apply Hcall.
  - by apply Hcall.
Qed.

(** What [set_events] makes of a batch of futex specs whose addresses can
    be loaded from. *)
Lemma set_events_futex_spec (e : Env) (mem : Z → Z)
    (newEvents : list EventWaiterSource) (me : MultiWaiter) :
  MultiWaiter_wf me →
  Z.of_nat (length newEvents) ≤ Length me →
  (∀ ev, ev ∈ newEvents →
     src_kind ev = kind_code EventWaiterFutex ∧
     check_pointer_Load (src_eventSource ev) = true) →
  ∃ me' r,
    set_events e mem newEvents me = Ok (me', r) ∧
    MultiWaiter_wf me' ∧
    Length me' = Length me ∧
    next me' = next me ∧
    usedLength me' = Z.of_nat (length newEvents) ∧
    (newEvents ≠ [] →
     Z.testbit (containedKinds me') (kind_code EventWaiterFutex) = true) ∧
    r ≠ Error ∧
    (r = Wake ↔
     ∃ ev, ev ∈ newEvents ∧
       mem (address (src_eventSource ev)) ≠ src_value ev) ∧
    (∀ i ev, newEvents !! i = Some ev →
       events me' !! i =
         Some (mkEventWaiter (address (src_eventSource ev)) (src_value ev)
                 EventWaiterFutex 0
                 (if decide (mem (address (src_eventSource ev))
                             ≠ src_value ev) then 1 else 0))).
Proof.
  intros Hwf Hcount Hfutex.
  assert (Hvalid : ∀ ev, ev ∈ newEvents →
            validate ev = Some (ValidFutex (src_eventSource ev))).
  { intros ev Hin. destruct (Hfutex ev Hin) as [Hk Hload].
    unfold validate. rewrite Hk. simpl. by rewrite Hload. }
  destruct (set_events_total e mem newEvents me Hwf Hcount)
    as (me' & r & Hrun).
  pose proof (set_events_wf e mem newEvents me me' r Hwf Hcount Hrun)
    as Hwf'.
  apply set_events_inv in Hrun as Hinv.
  destruct Hinv as (regs & HL & HN & HE & Hn & Hres & Hreg & Hframe & Hbits).
  assert (Hok : r ≠ Error).
  { intros ->. destruct Hres as (_ & bad & Hbad & Hnone).
    apply list_elem_of_lookup_2 in Hbad. rewrite Hvalid in Hnone; done. }
  assert (Hall : length regs = length newEvents ∧
                 usedLength me' = uint8 (Z.of_nat (length newEvents)) ∧
                 r = (if existsb snd regs then Wake else Sleep)).
  { destruct r; [done| |]; by destruct Hres as (? & ? & ?). }
  destruct Hall as (Hregs & Hused & Hr).
  assert (Hfact : ∀ i ev, newEvents !! i = Some ev →
    ∃ reg, regs !! i = Some reg ∧ events me' !! i = Some reg.1 ∧
      reg = (mkEventWaiter (address (src_eventSource ev)) (src_value ev)
               EventWaiterFutex 0
               (if decide (mem (address (src_eventSource ev))
                           ≠ src_value ev) then 1 else 0),
             bool_decide (mem (address (src_eventSource ev))
                          ≠ src_value ev))).
  { intros i ev Hev.
    destruct (Hreg i ev) as (v & slot & reg & Hv & _ & Hreset & Hri & Hei);
      [rewrite Hregs; by eapply lookup_lt_Some|done|].
    rewrite Hvalid in Hv by (by eapply list_elem_of_lookup_2).
    simplify_eq. simpl in Hreset. unfold reset_futex in Hreset.
    exists reg. split; [done|]. split; [done|].
    case_decide as Hd.
    - rewrite (bool_decide_eq_true_2 _ Hd).
      rewrite set_ready_1 in Hreset. simpl in Hreset. by simplify_eq.
    - rewrite bool_decide_eq_false_2 by (intros Hc; by apply Hc).
      by simplify_eq. }
  exists me', r. split; [done|]. split; [done|]. split; [done|].
  split; [done|]. split.
  { rewrite Hused. destruct Hwf as (Hrange & _ & _).
    unfold uint8, MaxMultiWaiterSize in *. rewrite Z.mod_small; lia. }
  split.
  { intros Hne. rewrite Hbits by done. apply existsb_exists.
    destruct newEvents as [|ev rest]; [done|]. exists ev. split.
    - apply list_elem_of_In. rewrite Hregs, firstn_all. by left.
    - apply bool_decide_eq_true. symmetry.
      apply (Hfutex ev). by left. }
  split; [done|]. split.
  { rewrite Hr. split.
    - intros Hw. destruct (existsb snd regs) eqn:Hex; [|done].
      apply existsb_exists in Hex as (reg & Hin & Hsnd).
      apply list_elem_of_In, list_elem_of_lookup in Hin as [i Hi].
      destruct (lookup_lt_is_Some_2 newEvents i) as [ev Hev];
        [rewrite <- Hregs; by eapply lookup_lt_Some|].
      destruct (Hfact i ev Hev) as (reg' & Hri & _ & ->).
      rewrite Hi in Hri. simplify_eq. simpl in Hsnd.
      apply bool_decide_eq_true in Hsnd.
      exists ev. split; [by eapply list_elem_of_lookup_2|done].
    - intros (ev & Hin & Hne).
      apply list_elem_of_lookup in Hin as [i Hev].
      destruct (Hfact i ev Hev) as (reg & Hri & _ & ->).
      assert (Hex : existsb snd regs = true).
      { apply existsb_exists. eexists. split.
        - apply list_elem_of_In. by eapply list_elem_of_lookup_2.
        - simpl. by apply bool_decide_eq_true. }
      by rewrite Hex. }
  intros i ev Hev. by destruct (Hfact i ev Hev) as (reg & _ & -> & ->).
Qed.

(** Writing a multiwaiter back with its [next] as it was keeps the list of
    woken multiwaiters. *)
Lemma pending_store (this : Z) (me me' : MultiWaiter) (s : Sched)
    (l : list Z) :
  pending s l → heap s !! this = Some me → next me' = next me →
  pending (store this me' s) l.
Proof.
  intros Hl Hme HN. unfold pending. simpl.
  eapply lseg_frame; [|exact Hl].
  intros p _. destruct (decide (p = this)) as [->|Hne].
  - rewrite lookup_insert_eq, Hme. simpl. by rewrite HN.
  - by rewrite lookup_insert_ne.
Qed.

(** X11: for a batch of futex specs whose addresses can be loaded from,
    registered on a multiwaiter with room for it, [set_events] followed by
    [get_results] gives each spec the value 1 when the word at its address
    differs from the expected value and 0 when it does not; [set_events]
    returns [Wake] exactly when some word differs, and [get_results] then
    returns true exactly when [set_events] returned [Wake]. *)
Theorem set_events_then_get_results_futex (e : Env) (mem : Z → Z)
    (this : Z) (newEvents : list EventWaiterSource) (s : Sched)
    (l : list Z) (me : MultiWaiter) :
  pending s l →
  heap s !! this = Some me →
  MultiWaiter_wf me →
  Z.of_nat (length newEvents) ≤ Length me →
  (∀ ev, ev ∈ newEvents →
     src_kind ev = kind_code EventWaiterFutex ∧
     check_pointer_Load (src_eventSource ev) = true) →
  ∃ s1 r s2 out found,
    set_events_at e mem this newEvents s = Ok (s1, r) ∧
    get_results this newEvents s1 = Ok (s2, out, found) ∧
    r ≠ Error ∧
    (r = Wake ↔
     ∃ ev, ev ∈ newEvents ∧
       mem (address (src_eventSource ev)) ≠ src_value ev) ∧
    (found = true ↔ r = Wake) ∧
    length out = length newEvents ∧
    (∀ i ev, newEvents !! i = Some ev →
       out !! i =
         Some (mkEventWaiterSource (src_eventSource ev)
                 (if decide (mem (address (src_eventSource ev))
                             ≠ src_value ev) then 1 else 0)
                 (src_kind ev))).
Proof.
  intros Hl Hme Hwf Hcount Hfutex.
  destruct (set_events_futex_spec e mem newEvents me Hwf Hcount Hfutex)
    as (me' & r & Hrun & Hwf' & HL & HN & _ & _ & Hok & Hwake & Hfact).
  assert (Hs1 : set_events_at e mem this newEvents s
                = Ok (store this me' s, r)).
  { unfold set_events_at. rewrite (load_Some _ _ _ Hme). simpl.
    by rewrite Hrun. }
  pose proof (pending_store this me me' s l Hl Hme HN) as Hl1.
  assert (Hme1 : heap (store this me' s) !! this = Some me')
    by apply lookup_insert_eq.
  destruct (remove_from_pending_wake_list_pending this _ l me' Hl1 Hme1)
    as (s2 & Hrm & _ & _ & _ & Hme2 & _).
  destruct Hwf' as (Hrange & Hused & Hlen).
  destruct (get_results_loop_spec (events me') newEvents 0 false)
    as (out & found & Hloop & Hout_len & Hcopy & Hfound); [lia|].
  exists (store this me' s), r, s2, out, found.
  split; [done|]. split.
  { unfold get_results. rewrite Hrm. simpl.
    rewrite (load_Some _ _ _ Hme2). simpl.
    rewrite decide_True by (rewrite HL; done).
    by rewrite Hloop. }
  split; [done|]. split; [done|]. split.
  { rewrite Hwake, Hfound. split.
    - intros [?|(j & w & Hj & Hw & Hne)]; [done|].
      destruct (lookup_lt_is_Some_2 newEvents j) as [ev Hev]; [done|].
      simpl in Hw. rewrite (Hfact j ev Hev) in Hw. simplify_eq.
      simpl in Hne. exists ev.
      split; [by eapply list_elem_of_lookup_2|].
      by case_decide.
    - intros (ev & Hin & Hne). right.
      apply list_elem_of_lookup in Hin as [j Hev].
      eexists j, _. split; [by eapply lookup_lt_Some|].
      split; [exact (Hfact j ev Hev)|]. simpl. by rewrite decide_True. }
  split; [done|].
  intros i ev Hev.
  destruct (Hcopy i ev Hev) as (w & Hw & ->).
  simpl in Hw. rewrite (Hfact i ev Hev) in Hw. by simplify_eq.
Qed.

End ResultsProperties.

Lemma get_results_twice_witness :
  pending example_woken [64] ∧
  heap example_woken !! 64 = Some (example_waitset 1) ∧
  MultiWaiter_wf (example_waitset 1) ∧
  Z.of_nat (length [example_spec 2 (Pointer 1000 true) 7])
    ≤ Length (example_waitset 1) ∧
  (64 ∈ [64] ∨ next (example_waitset 1) = None) ∧
  ∃ s1 out found,
    get_results 64 [example_spec 2 (Pointer 1000 true) 7] example_woken
      = Ok (s1, out, found) ∧
    heap s1 !! 64 = Some (set_next None (example_waitset 1)) ∧
    heap_erase (heap s1) = heap_erase (heap example_woken) ∧
    get_results 64 [example_spec 2 (Pointer 1000 true) 7] s1
      = Ok (s1, out, found) ∧
    get_results 64 out s1 = Ok (s1, out, found).
Proof.
  assert (Hme : heap example_woken !! 64 = Some (example_waitset 1))
    by reflexivity.
  assert (Hcount : Z.of_nat (length [example_spec 2 (Pointer 1000 true) 7])
                   ≤ Length (example_waitset 1)) by (simpl; lia).
  assert (Hon : 64 ∈ [64] ∨ next (example_waitset 1) = None)
    by (right; reflexivity).
  split; [exact example_woken_pending|]. split; [exact Hme|].
  split; [exact (example_waitset_wf 1)|]. split; [exact Hcount|].
  split; [exact Hon|].
  exact (get_results_twice (H := example_collaborators) 64
           [example_spec 2 (Pointer 1000 true) 7] example_woken [64]
           (example_waitset 1) example_woken_pending Hme
           (example_waitset_wf 1) Hcount Hon).
Defined.

Lemma example_created_pending : pending example_created [].
Proof. reflexivity. Defined.

Lemma set_events_then_get_results_futex_witness :
  pending example_created [] ∧
  heap example_created !! 64 = Some (example_waiter 2) ∧
  MultiWaiter_wf (example_waiter 2) ∧
  Z.of_nat (length [example_spec 2 (Pointer 1000 true) 5])
    ≤ Length (example_waiter 2) ∧
  (∀ ev, ev ∈ [example_spec 2 (Pointer 1000 true) 5] →
     src_kind ev = kind_code EventWaiterFutex ∧
     check_pointer_Load (src_eventSource ev) = true) ∧
  ∃ s1 r s2 out found,
    set_events_at example_env example_mem 64
      [example_spec 2 (Pointer 1000 true) 5] example_created = Ok (s1, r) ∧
    get_results 64 [example_spec 2 (Pointer 1000 true) 5] s1
      = Ok (s2, out, found) ∧
    r ≠ Error ∧
    (r = Wake ↔
     ∃ ev, ev ∈ [example_spec 2 (Pointer 1000 true) 5] ∧
       example_mem (address (src_eventSource ev)) ≠ src_value ev) ∧
    (found = true ↔ r = Wake) ∧
    length out = length [example_spec 2 (Pointer 1000 true) 5] ∧
    (∀ i ev, [example_spec 2 (Pointer 1000 true) 5] !! i = Some ev →
       out !! i =
         Some (mkEventWaiterSource (src_eventSource ev)
                 (if decide (example_mem (address (src_eventSource ev))
                             ≠ src_value ev) then 1 else 0)
                 (src_kind ev))).
Proof.
  assert (Hme : heap example_created !! 64 = Some (example_waiter 2))
    by reflexivity.
  assert (Hwf : MultiWaiter_wf (example_waiter 2))
    by (apply example_waiter_wf; unfold MaxMultiWaiterSize; lia).
  assert (Hcount : Z.of_nat (length [example_spec 2 (Pointer 1000 true) 5])
                   ≤ Length (example_waiter 2)) by (simpl; lia).
  assert (Hfutex : ∀ ev, ev ∈ [example_spec 2 (Pointer 1000 true) 5] →
            src_kind ev = kind_code EventWaiterFutex ∧
            check_pointer_Load (src_eventSource ev) = true).
  { intros ev Hin. apply list_elem_of_singleton in Hin as ->.
    split; reflexivity. }
  split; [exact example_created_pending|]. split; [exact Hme|].
  split; [exact Hwf|]. split; [exact Hcount|]. split; [exact Hfutex|].
  exact (set_events_then_get_results_futex (H := example_collaborators)
           example_env example_mem 64
           [example_spec 2 (Pointer 1000 true) 5] example_created []
           (example_waiter 2) example_created_pending Hme Hwf Hcount Hfutex).
Defined.

(** ** Creation and destruction *)



(** X13: creating a multiwaiter at an address that holds none and destroying
    it again, while no thread on the Sleeping-Thread List records that
    address, gives back the state before the creation. *)
Theorem create_then_destroy (length : Z) (p : Z)
    (uninitialised : nat → EventWaiter) (s : Sched) (l : list Z) :
  0 ≤ length ≤ MaxMultiWaiterSize →
  heap s !! p = None →
  pending s l →
  (∀ t, t ∈ threads s →
     is_Some (thread_table s !! t) ∧ ¬ waits_on s p t) →
  ∃ s1,
    create length (Some p) uninitialised s = (s1, Some p, 0) ∧
    is_Some (heap s1 !! p) ∧
    destroy p s1 = Ok s.
Proof.
  intros Hlen Hfresh Hl Hthreads. unfold create.
  rewrite decide_False by lia.
  set (m := mkMultiWaiter (uint8 length) 0 0 None
              (uninitialised <$> seq 0 (Z.to_nat length))).
  exists (store p m s). split; [done|].
  assert (Hm : heap (store p m s) !! p = Some m) by apply lookup_insert_eq.
  split; [by rewrite Hm|].
  assert (Hout : p ∉ l).
  { intros Hin. destruct (lseg_lookup _ _ _ _ _ Hl Hin) as [m' Hm'].
    congruence. }
  assert (Hl1 : pending (store p m s) l).
  { unfold pending. simpl. eapply lseg_frame; [|exact Hl].
    intros q Hq. rewrite lookup_insert_ne; [done|]. by intros <-. }
  destruct (remove_from_pending_wake_list_pending p _ l m Hl1 Hm)
    as (s1 & Hrm & _ & _ & _ & _ & _ & Hsame).
  rewrite (Hsame Hout eq_refl) in Hrm.
  destruct (destructor_walk p (threads (store p m s)) (store p m s))
    as (s2 & Hwalk & Hh & Hk & Htt & Hts).
  { intros t Ht. by apply Hthreads. }
  assert (Hd : destructor p (store p m s) = Ok s2)
    by (unfold destructor; rewrite Hrm; exact Hwalk).
  unfold destroy. rewrite Hd. simpl.
  f_equal. destruct s as [h tt ts wm]. simpl in *.
  rewrite Hh, Hk, Hts. f_equal.
  - by rewrite delete_insert_eq, delete_id.
  - apply map_eq. intros t. rewrite Htt.
    rewrite decide_False; [done|]. intros [Hin Hw].
    by destruct (Hthreads t Hin).
  - apply filter_all. intros t Ht [_ Hw]. by destruct (Hthreads t Ht).
Qed.

Lemma create_then_destroy_witness :
  0 ≤ 2 ≤ MaxMultiWaiterSize ∧
  heap example_start !! 64 = None ∧
  pending example_start [] ∧
  (∀ t, t ∈ threads example_start →
     is_Some (thread_table example_start !! t) ∧
     ¬ waits_on example_start 64 t) ∧
  ∃ s1,
    create 2 (Some 64) (λ _, EventWaiter_zero) example_start
      = (s1, Some 64, 0) ∧
    is_Some (heap s1 !! 64) ∧
    destroy 64 s1 = Ok example_start.
Proof.
  assert (Hlen : 0 ≤ 2 ≤ MaxMultiWaiterSize)
    by (unfold MaxMultiWaiterSize; lia).
  assert (Hfresh : heap example_start !! 64 = None) by reflexivity.
  assert (Hl : pending example_start []) by reflexivity.
  assert (Hthreads : ∀ t, t ∈ threads example_start →
            is_Some (thread_table example_start !! t) ∧
            ¬ waits_on example_start 64 t).
  { intros t Ht. by apply elem_of_nil in Ht. }
  split; [exact Hlen|]. split; [exact Hfresh|]. split; [exact Hl|].
  split; [exact Hthreads|].
  exact (create_then_destroy 2 64 (λ _, EventWaiter_zero) example_start []
           Hlen Hfresh Hl Hthreads).
Defined.

(** ** Dispatching events: [wake_waiters] *)

(** A null-terminated list has every path from its start as a prefix. *)
Lemma lseg_prefix (h : gmap Z MultiWaiter) :
  ∀ (l2 l : list Z) (from c : option Z),
  lseg h from l None → lseg h from l2 c →
  ∃ l3, l = l2 ++ l3 ∧ lseg h c l3 None.
Proof.
  induction l2 as [|p l2 IH]; intros l from c Hl Hl2; simpl in Hl2.
  - subst c. by exists l.
  - destruct Hl2 as (-> & m & Hm & Hl2).
    destruct l as [|p' l']; simpl in Hl; [done|].
    destruct Hl as ([= <-] & m' & Hm' & Hl).
    assert (m' = m) as -> by congruence.
    destruct (IH l' (next m) c Hl Hl2) as (l3 & -> & Hl3).
    by exists l3.
Qed.

Section DispatchProperties.
Context `{Collaborators}.

Lemma trigger_skip (e : Env) (source : Source) (info : Z) (m : MultiWaiter) :
  Z.testbit (containedKinds m) (kind_code (KindFor source)) = false →
  trigger e source info m = Ok (m, false).
Proof.
  intros Hbit. unfold trigger. rewrite decide_True; [done|].
  apply land_bit_zero; [by destruct source|done].
Qed.

Lemma trigger_woken_skip (e : Env) (source : Source) (info : Z) :
  ∀ (l : list Z) (fuel : nat) (mw : option Z) (s : Sched),
  lseg (heap s) mw l None →
  (∀ p m, heap s !! p = Some m →
     Z.testbit (containedKinds m) (kind_code (KindFor source)) = false) →
  (length l < fuel)%nat →
  trigger_woken fuel e source info mw s = Ok s.
Proof.
  induction l as [|p l IH]; intros fuel mw s Hl Hbit Hfuel; simpl in Hl.
  - subst mw. by destruct fuel.
  - destruct Hl as (-> & m & Hm & Hl).
    destruct fuel as [|fuel]; [simpl in Hfuel; lia|].
    simpl. rewrite (load_Some _ _ _ Hm). simpl.
    rewrite (trigger_skip e source info m (Hbit p m Hm)). simpl.
    rewrite (store_same _ _ _ Hm).
    apply IH; [done|done|simpl in Hfuel; lia].
Qed.

(** X14: [wake_waiters] for a source of a kind that no multiwaiter has
    among its [containedKinds] wakes no thread, returns 0 and leaves the
    scheduler's state exactly as it was, whatever [maxWakes] is. *)
Theorem wake_waiters_unregistered_kind (e : Env) (source : Source)
    (info maxWakes : Z) (s : Sched) (lp : list Z) :
  pending s lp →
  (∀ t, t ∈ threads s →
     ∃ w, waiter_of s t = Some w ∧ is_Some (heap s !! w)) →
  (∀ p m, heap s !! p = Some m →
     Z.testbit (containedKinds m) (kind_code (KindFor source)) = false) →
  wake_waiters e source info maxWakes s = Ok (s, 0).
Proof.
  intros Hl Hthreads Hbit. unfold wake_waiters.
  rewrite (trigger_woken_skip e source info lp);
    [|done|done|pose proof (lseg_length _ _ _ Hl); lia].
  simpl.
  assert (Hwalk : ∀ (l : list Z) (woken : Z),
    (∀ t, t ∈ l → t ∈ threads s) →
    walk_thread_list l (wake_visit e source info)
      (λ sw, bool_decide (sw.2 >= maxWakes)) (s, woken) = Ok (s, woken)).
  { induction l as [|t l IH]; intros woken Hin; [done|].
    cbn [walk_thread_list]. destruct (bool_decide _); [done|].
    destruct (Hthreads t) as (w & Hw & [m Hm]);
      [apply Hin; by left|].
    apply waiter_of_Some in Hw as (th & Hth & Hmw).
    unfold wake_visit. rewrite (load_thread_Some _ _ _ Hth). simpl.
    rewrite Hmw, (load_Some _ _ _ Hm). simpl.
    rewrite (trigger_skip e source info m (Hbit w m Hm)). simpl.
    rewrite (store_same _ _ _ Hm).
    apply IH. intros t' Ht'. apply Hin. by right. }
  by apply Hwalk.
Qed.

(** A walk along [next] that cannot reach [nullptr] does not end. *)
Lemma trigger_woken_cycle (e : Env) (source : Source) (info : Z) :
  ∀ (fuel : nat) (mw : option Z) (s : Sched),
  (∀ l, ¬ lseg (heap s) mw l None) →
  (∀ p m, heap s !! p = Some m →
     MultiWaiter_wf m ∧ ∀ q, next m = Some q → is_Some (heap s !! q)) →
  (∀ p, mw = Some p → is_Some (heap s !! p)) →
  trigger_woken fuel e source info mw s = Fault NoTermination.
Proof.
  induction fuel as [|fuel IH]; intros mw s Hcyc Hclosed Hlive.
  - destruct mw as [p|]; [done|]. by destruct (Hcyc []).
  - destruct mw as [p|]; [|by destruct (Hcyc [])].
    destruct (Hlive p eq_refl) as [m Hm].
    destruct (Hclosed p m Hm) as [Hwf Hnext].
    destruct (trigger_total e source info m Hwf)
      as (m' & b & Htrig & _ & _ & Hn & Hwf').
    simpl. rewrite (load_Some _ _ _ Hm). simpl. rewrite Htrig. simpl.
    assert (Hsame : ∀ q, next <$> heap (store p m' s) !! q
                         = next <$> heap s !! q).
    { intros q. simpl. destruct (decide (q = p)) as [->|Hne].
      - rewrite lookup_insert_eq, Hm. simpl. by rewrite Hn.
      - by rewrite lookup_insert_ne. }
    assert (Hkeep : ∀ q, is_Some (heap s !! q) →
                         is_Some (heap (store p m' s) !! q)).
    { intros q Hq. apply (fmap_is_Some next). rewrite Hsame.
      by apply fmap_is_Some. }
    apply IH.
    + intros l Hl. apply (Hcyc (p :: l)). simpl. split; [done|].
      exists m. split; [done|]. rewrite <- Hn.
      eapply lseg_frame; [|exact Hl]. intros q _. by rewrite Hsame.
    + intros q mq Hq. simpl in Hq.
      destruct (decide (q = p)) as [->|Hne].
      * rewrite lookup_insert_eq in Hq. simplify_eq. split; [done|].
        intros q' Hq'. apply Hkeep, Hnext. by rewrite <- Hn.
      * rewrite lookup_insert_ne in Hq by done.
        destruct (Hclosed q mq Hq) as [Hwfq Hnq]. split; [done|].
        intros q' Hq'. by apply Hkeep, Hnq.
    + intros q Hq. apply Hkeep, Hnext. by rewrite <- Hn.
Qed.

(** X15: when the only thread on the Sleeping-Thread List sleeps on a
    multiwaiter that is still on the list of woken multiwaiters and the
    event fires for it, [wake_waiters] wakes the thread and puts the
    multiwaiter at the head of the list a second time, with the old head
    as its [next]: the list has become a cycle, it no longer ends in
    [nullptr], and no later call of [wake_waiters] gets to the end of its
    first loop. *)
Theorem wake_waiters_relinks_woken_multiwaiter (e : Env) (source : Source)
    (info maxWakes : Z) (s : Sched) (lp : list Z) (t w : Z)
    (m : MultiWaiter) :
  0 < maxWakes < 2 ^ 32 →
  pending s lp →
  w ∈ lp →
  threads s = [t] →
  waiter_of s t = Some w →
  heap s !! w = Some m →
  (∀ p mp, heap s !! p = Some mp →
     MultiWaiter_wf mp ∧ ∀ q, next mp = Some q → is_Some (heap s !! q)) →
  fires e source info (triggered e source info m) = true →
  ∃ s' m',
    wake_waiters e source info maxWakes s = Ok (s', 1) ∧
    wokenMultiwaiters s' = Some w ∧
    heap s' !! w = Some m' ∧
    next m' = wokenMultiwaiters s ∧
    is_Some (wokenMultiwaiters s) ∧
    (∀ l, ¬ pending s' l) ∧
    (∀ e2 source2 info2 maxWakes2,
       wake_waiters e2 source2 info2 maxWakes2 s' = Fault NoTermination).
Proof.
  intros Hmax Hl Hin Hts Hw Hm Hclosed Hfires.
  destruct (trigger_woken_each e source info lp (S (size (heap s)))
              (wokenMultiwaiters s) s)
    as (s1 & Hfirst & _ & Htt & Hts1 & Hk & _ & Htrig & Hnext & Hwf1);
    [done|intros p mp Hp; by destruct (Hclosed p mp Hp)
    |pose proof (lseg_length _ _ _ Hl); lia|].
  pose proof (Htrig w m Hin Hm) as Hm1.
  assert (Hw1 : waiter_of s1 t = Some w)
    by (unfold waiter_of; by rewrite Htt).
  pose proof (wake_visit_spec e source info t s1 0 w
                (triggered e source info m) Hw1 Hm1 (Hwf1 _ _ Hm1)
                ltac:(lia)) as Hvisit.
  rewrite Hfires in Hvisit.
  set (m' := set_next (wokenMultiwaiters s1)
               (triggered e source info (triggered e source info m)))
    in Hvisit.
  set (s' := mkSched (<[w := m']> (heap s1))
               (<[t := mkThread (Some w) (Ready WakeReason.MultiWaiter)]>
                  (thread_table s1))
               (filter (λ x, x ≠ t) (threads s1)) (Some w)) in Hvisit.
  assert (Hrun : wake_waiters e source info maxWakes s = Ok (s', 1)).
  { unfold wake_waiters. rewrite Hfirst.
    change (Ok ?a ≫= ?k) with (k a). cbv beta. rewrite Hts1, Hts.
    cbn [walk_thread_list]. simpl snd.
    rewrite bool_decide_eq_false_2 by lia.
    rewrite Hvisit. done. }
  assert (Hhead : ∃ a b, lp = a ++ w :: b ∧ (w ∉ a) ∧
            lseg (heap s) (wokenMultiwaiters s) a (Some w)).
  { apply list_elem_of_split_l in Hin as (a & b & -> & Hna).
    exists a, b. split; [done|]. split; [done|].
    apply lseg_app in Hl as (b0 & Ha & Hb). simpl in Hb.
    destruct Hb as (-> & _). done. }
  destruct Hhead as (a & b & -> & Hna & Ha).
  assert (Hsome : is_Some (wokenMultiwaiters s)).
  { destruct a as [|p a]; simpl in Ha.
    - rewrite Ha. by eexists.
    - destruct Ha as (-> & _). by eexists. }
  assert (Hnext' : ∀ q, q ≠ w →
            next <$> heap s' !! q = next <$> heap s !! q).
  { intros q Hq. simpl. rewrite lookup_insert_ne by done. apply Hnext. }
  assert (Hcyc : ∀ l, ¬ lseg (heap s') (Some w) l None).
  { intros l Hl'. pose proof (lseg_NoDup _ _ _ Hl') as Hnd.
    destruct l as [|p l1]; simpl in Hl'; [done|].
    destruct Hl' as ([= <-] & mw & Hmw & Hl1).
    simpl in Hmw. rewrite lookup_insert_eq in Hmw. simplify_eq.
    simpl in Hl1.
    assert (Ha' : lseg (heap s') (wokenMultiwaiters s1) a (Some w)).
    { rewrite Hk. eapply lseg_frame; [|exact Ha]. intros q Hq.
      apply Hnext'. by intros ->. }
    destruct (lseg_prefix _ _ _ _ _ Hl1 Ha') as (l3 & -> & Hl3).
    destruct l3 as [|p3 l3]; simpl in Hl3; [done|].
    destruct Hl3 as ([= <-] & _).
    apply NoDup_cons in Hnd as [Hnd _]. apply Hnd.
    apply elem_of_app. right. by left. }
  assert (Hkeep : ∀ q, is_Some (heap s !! q) → is_Some (heap s' !! q)).
  { intros q Hq. simpl. destruct (decide (q = w)) as [->|Hne].
    - rewrite lookup_insert_eq. by eexists.
    - rewrite lookup_insert_ne by done.
      apply (fmap_is_Some next). rewrite Hnext. by apply fmap_is_Some. }
  assert (Hclosed' : ∀ p mp, heap s' !! p = Some mp →
            MultiWaiter_wf mp ∧
            ∀ q, next mp = Some q → is_Some (heap s' !! q)).
  { intros p mp Hp. simpl in Hp.
    destruct (decide (p = w)) as [->|Hne].
    - rewrite lookup_insert_eq in Hp. simplify_eq. split.
      + destruct (trigger_total e source info (triggered e source info m)
                    (Hwf1 _ _ Hm1)) as (m2 & b2 & _ & <- & _ & _ & Hwf2).
        exact Hwf2.
      + intros q Hq. simpl in Hq. rewrite Hk in Hq.
        destruct a as [|p a]; simpl in Ha.
        * rewrite Ha in Hq. simplify_eq. apply Hkeep. by eexists.
        * destruct Ha as (Hh & mh & Hmh & _). rewrite Hh in Hq.
          simplify_eq. apply Hkeep. by eexists.
    - rewrite lookup_insert_ne in Hp by done. split; [by eapply Hwf1|].
      intros q Hq. apply Hkeep.
      pose proof (Hnext p) as Hnp. rewrite Hp in Hnp. simpl in Hnp.
      destruct (heap s !! p) as [mp0|] eqn:Hp0; [|done].
      simpl in Hnp. simplify_eq.
      destruct (Hclosed p mp0 Hp0) as [_ Hlive]. apply Hlive. congruence. }
  exists s', m'. split; [done|]. split; [done|].
  split; [apply lookup_insert_eq|]. split; [by rewrite <- Hk|].
  split; [done|]. split; [exact Hcyc|].
  intros e2 source2 info2 maxWakes2. unfold wake_waiters.
  rewrite (trigger_woken_cycle e2 source2 info2 _ (wokenMultiwaiters s') s');
    [done|exact Hcyc|exact Hclosed'|].
  intros p [= <-]. simpl. rewrite lookup_insert_eq. by eexists.
Qed.

End DispatchProperties.

Lemma wake_waiters_unregistered_kind_witness :
  pending example_two_sleepers [32] ∧
  (∀ t, t ∈ threads example_two_sleepers →
     ∃ w, waiter_of example_two_sleepers t = Some w ∧
       is_Some (heap example_two_sleepers !! w)) ∧
  (∀ p m, heap example_two_sleepers !! p = Some m →
     Z.testbit (containedKinds m) (kind_code (KindFor (SourceQueue 100)))
       = false) ∧
  wake_waiters example_env (SourceQueue 100) 0 5 example_two_sleepers
    = Ok (example_two_sleepers, 0).
Proof.
  assert (Hl : pending example_two_sleepers [32]).
  { split; [reflexivity|]. exists (example_waitset 1). by split. }
  assert (Hthreads : ∀ t, t ∈ threads example_two_sleepers →
            ∃ w, waiter_of example_two_sleepers t = Some w ∧
              is_Some (heap example_two_sleepers !! w)).
  { intros t Ht. simpl in Ht.
    repeat (apply elem_of_cons in Ht as [->|Ht];
            [eexists; split; [reflexivity|by eexists]|]).
    by apply elem_of_nil in Ht. }
  assert (Hbit : ∀ p m, heap example_two_sleepers !! p = Some m →
            Z.testbit (containedKinds m)
              (kind_code (KindFor (SourceQueue 100))) = false).
  { intros p m Hm. unfold example_two_sleepers in Hm. simpl in Hm.
    repeat (apply lookup_insert_Some in Hm as [[_ <-]|[_ Hm]];
            [reflexivity|]).
    by rewrite lookup_empty in Hm. }
  split; [exact Hl|]. split; [exact Hthreads|]. split; [exact Hbit|].
  exact (wake_waiters_unregistered_kind (H := example_collaborators)
           example_env (SourceQueue 100) 0 5 example_two_sleepers [32]
           Hl Hthreads Hbit).
Defined.

Lemma wake_waiters_relinks_woken_multiwaiter_witness :
  0 < 1 < 2 ^ 32 ∧
  pending example_waiting_again [64] ∧
  64 ∈ [64] ∧
  threads example_waiting_again = [1] ∧
  waiter_of example_waiting_again 1 = Some 64 ∧
  heap example_waiting_again !! 64 = Some (example_waitset 1) ∧
  (∀ p mp, heap example_waiting_again !! p = Some mp →
     MultiWaiter_wf mp ∧
     ∀ q, next mp = Some q → is_Some (heap example_waiting_again !! q)) ∧
  fires example_env (SourceFutex 1000) 0
    (triggered example_env (SourceFutex 1000) 0 (example_waitset 1))
    = true ∧
  ∃ s' m',
    wake_waiters example_env (SourceFutex 1000) 0 1 example_waiting_again
      = Ok (s', 1) ∧
    wokenMultiwaiters s' = Some 64 ∧
    heap s' !! 64 = Some m' ∧
    next m' = wokenMultiwaiters example_waiting_again ∧
    is_Some (wokenMultiwaiters example_waiting_again) ∧
    (∀ l, ¬ pending s' l) ∧
    (∀ (e2 : Z → Z) source2 info2 maxWakes2,
       wake_waiters e2 source2 info2 maxWakes2 s' = Fault NoTermination).
Proof.
  assert (Hmax : 0 < 1 < 2 ^ 32) by lia.
  assert (Hl : pending example_waiting_again [64]).
  { split; [reflexivity|]. exists (example_waitset 1). by split. }
  assert (Hin : 64 ∈ [64]) by (by left).
  assert (Hts : threads example_waiting_again = [1]) by reflexivity.
  assert (Hw : waiter_of example_waiting_again 1 = Some 64) by reflexivity.
  assert (Hm : heap example_waiting_again !! 64 = Some (example_waitset 1))
    by reflexivity.
  assert (Hclosed : ∀ p mp, heap example_waiting_again !! p = Some mp →
            MultiWaiter_wf mp ∧
            ∀ q, next mp = Some q →
              is_Some (heap example_waiting_again !! q)).
  { intros p mp Hp. unfold example_waiting_again in Hp. simpl in Hp.
    apply lookup_insert_Some in Hp as [[_ <-]|[_ Hp]].
    - split; [apply example_waitset_wf|]. intros q Hq. done.
    - by rewrite lookup_empty in Hp. }
  assert (Hfires : fires example_env (SourceFutex 1000) 0
                     (triggered example_env (SourceFutex 1000) 0
                        (example_waitset 1)) = true) by reflexivity.
  split; [exact Hmax|]. split; [exact Hl|]. split; [exact Hin|].
  split; [exact Hts|]. split; [exact Hw|]. split; [exact Hm|].
  split; [exact Hclosed|]. split; [exact Hfires|].
  exact (wake_waiters_relinks_woken_multiwaiter (H := example_collaborators)
           example_env (SourceFutex 1000) 0 1 example_waiting_again [64] 1 64
           (example_waitset 1) Hmax Hl Hin Hts Hw Hm Hclosed Hfires).
Defined.

(** ** A wait from registration to results *)

Section WaitCycle.
Context `{Collaborators}.

(** X16: a thread registers a batch of futex specs whose words all hold the
    expected values, sleeps on the multiwaiter, and an event on the address
    of one of the specs is dispatched.  Then [set_events] returns [Sleep],
    [wake_waiters] wakes the thread and puts the multiwaiter on the list of
    woken multiwaiters, and once the thread runs again [get_results] takes
    the multiwaiter off that list, returns true, and reports 1 for exactly
    the specs of that address and 0 for the others. *)
Theorem futex_wait_wake_results (e e' : Env) (mem : Z → Z) (this cur : Z)
    (newEvents : list EventWaiterSource) (s : Sched) (lp : list Z)
    (me : MultiWaiter) (th : Thread) (pos : nat) (a info maxWakes : Z) :
  pending s lp →
  threads s = [] →
  thread_table s !! cur = Some th →
  heap s !! this = Some me →
  this ∉ lp →
  next me = None →
  (∀ p m, heap s !! p = Some m → MultiWaiter_wf m) →
  Z.of_nat (length newEvents) ≤ Length me →
  (∀ ev, ev ∈ newEvents →
     src_kind ev = kind_code EventWaiterFutex ∧
     check_pointer_Load (src_eventSource ev) = true ∧
     mem (address (src_eventSource ev)) = src_value ev) →
  (∃ ev, ev ∈ newEvents ∧ address (src_eventSource ev) = a) →
  0 < maxWakes < 2 ^ 32 →
  ∃ s1 s2 s3 s4 s5 out,
    set_events_at e mem this newEvents s = Ok (s1, Sleep) ∧
    wait_enter cur this pos s1 = Ok s2 ∧
    threads s2 = [cur] ∧
    waiter_of s2 cur = Some this ∧
    wake_waiters e' (SourceFutex a) info maxWakes s2 = Ok (s3, 1) ∧
    threads s3 = [] ∧
    pending s3 (this :: lp) ∧
    wait_exit cur s3 = Some s4 ∧
    thread_table s4 !! cur = Some (mkThread None Running) ∧
    get_results this newEvents s4 = Ok (s5, out, true) ∧
    pending s5 lp ∧
    (∀ i ev, newEvents !! i = Some ev →
       out !! i =
         Some (mkEventWaiterSource (src_eventSource ev)
                 (if decide (address (src_eventSource ev) = a)
                  then 1 else 0)
                 (src_kind ev))).
Proof.
  intros Hl Hts Hth Hme Hout Hnone Hwfall Hcount Hfutex Hsome Hmax.
  (* registration *)
  destruct (set_events_futex_spec e mem newEvents me (Hwfall _ _ Hme) Hcount)
    as (me' & r & Hrun & Hwf' & HL & HN & Hused & Hbit & Hok & Hwake & Hfact).
  { intros ev Hin. destruct (Hfutex ev Hin) as (? & ? & ?). done. }
  assert (r = Sleep) as ->.
  { destruct r; [done| |done].
    destruct Hwake as [Hwake _].
    destruct (Hwake eq_refl) as (ev & Hin & Hne).
    destruct (Hfutex ev Hin) as (_ & _ & Heq). done. }
  assert (Hslot0 : ∀ i ev, newEvents !! i = Some ev →
            events me' !! i =
              Some (mkEventWaiter (address (src_eventSource ev))
                      (src_value ev) EventWaiterFutex 0 0)).
  { intros i ev Hev. rewrite (Hfact i ev Hev).
    destruct (Hfutex ev) as (_ & _ & Heq);
      [by eapply list_elem_of_lookup_2|].
    by rewrite decide_False by (intros Hc; by apply Hc). }
  set (s1 := store this me' s).
  assert (Hs1 : set_events_at e mem this newEvents s = Ok (s1, Sleep)).
  { unfold set_events_at. rewrite (load_Some _ _ _ Hme). simpl.
    by rewrite Hrun. }
  pose proof (pending_store this me me' s lp Hl Hme HN) as Hl1.
  (* going to sleep *)
  set (s2 := mkSched (heap s1)
               (<[cur := mkThread (Some this) Suspended]>
                  (<[cur := mkThread (Some this) (state th)]>
                     (thread_table s1)))
               [cur] (wokenMultiwaiters s1)).
  assert (Hs2 : wait_enter cur this pos s1 = Ok s2).
  { unfold wait_enter. rewrite (load_thread_Some cur th s1) by done.
    simpl. rewrite (load_Some this me' s1) by apply lookup_insert_eq.
    simpl. unfold suspend_enter.
    rewrite (load_thread_Some cur (mkThread (Some this) (state th)))
      by apply lookup_insert_eq.
    simpl. rewrite Hts, take_nil, drop_nil. done. }
  assert (Hw2 : waiter_of s2 cur = Some this).
  { unfold waiter_of. simpl. by rewrite lookup_insert_eq. }
  assert (Hwf2 : ∀ p m, heap s2 !! p = Some m → MultiWaiter_wf m).
  { intros p m Hp. simpl in Hp.
    apply lookup_insert_Some in Hp as [[_ <-]|[_ Hp]]; [done|].
    by eapply Hwfall. }
  (* the event is dispatched *)
  destruct (trigger_woken_each e' (SourceFutex a) info lp
              (S (size (heap s2))) (wokenMultiwaiters s2) s2)
    as (s2a & Hfirst & _ & Htt & Hts2 & Hk & Hframe & _ & Hnext & Hwf2a);
    [exact Hl1|exact Hwf2|pose proof (lseg_length _ _ _ Hl1) as Hlen;
                          simpl in *; lia|].
  assert (Hme2a : heap s2a !! this = Some me').
  { rewrite Hframe by done. apply lookup_insert_eq. }
  assert (Hw2a : waiter_of s2a cur = Some this)
    by (unfold waiter_of; by rewrite Htt).
  destruct (trigger_futex_slots e' a info me' Hwf')
    as (m3 & b & Htrig & Hn3 & HL3 & Hwf3 & Hb & Hslots).
  destruct Hsome as (ev0 & Hin0 & Ha0).
  apply list_elem_of_lookup in Hin0 as Hi0. destruct Hi0 as [i0 Hev0].
  assert (Hne : newEvents ≠ []) by (by destruct newEvents).
  assert (Hi0 : (i0 < Z.to_nat (usedLength me'))%nat).
  { rewrite Hused, Nat2Z.id. by eapply lookup_lt_Some. }
  assert (b = true) as ->.
  { apply Hb. split; [by apply Hbit|].
    eexists i0, _. split; [done|]. split; [exact (Hslot0 i0 ev0 Hev0)|].
    done. }
  assert (Hfires : fires e' (SourceFutex a) info me' = true)
    by (unfold fires; by rewrite Htrig).
  assert (Htriggered : triggered e' (SourceFutex a) info me' = m3)
    by (unfold triggered; by rewrite Htrig).
  pose proof (wake_visit_spec e' (SourceFutex a) info cur s2a 0 this me'
                Hw2a Hme2a Hwf' ltac:(lia)) as Hvisit.
  rewrite Hfires, Htriggered, Hk, Hts2, Htt in Hvisit.
  set (m4 := set_next (wokenMultiwaiters s2) m3) in Hvisit.
  set (s3 := mkSched (<[this := m4]> (heap s2a))
               (<[cur := mkThread (Some this) (Ready WakeReason.MultiWaiter)]>
                  (thread_table s2))
               (filter (λ x, x ≠ cur) (threads s2)) (Some this)) in Hvisit.
  assert (Hs3 : wake_waiters e' (SourceFutex a) info maxWakes s2
                = Ok (s3, 1)).
  { unfold wake_waiters. rewrite Hfirst.
    change (Ok ?x ≫= ?k) with (k x). cbv beta. rewrite Hts2.
    change (threads s2) with [cur].
    cbn [walk_thread_list]. simpl snd.
    rewrite bool_decide_eq_false_2 by lia.
    rewrite Hvisit. done. }
  assert (Hts3 : threads s3 = []).
  { simpl. rewrite filter_cons, decide_False by (intros Hc; by apply Hc).
    done. }
  assert (Hl3 : pending s3 (this :: lp)).
  { split; [done|]. exists m4. split; [apply lookup_insert_eq|].
    simpl. eapply lseg_frame; [|exact Hl]. intros p Hp.
    assert (p ≠ this) by (by intros ->).
    rewrite lookup_insert_ne by done. rewrite Hnext. simpl.
    by rewrite lookup_insert_ne. }
  (* the thread runs again *)
  set (s4 := store_thread cur (mkThread None Running)
               (store_thread cur (mkThread (Some this) Running) s3)).
  assert (Hs4 : wait_exit cur s3 = Some s4).
  { unfold wait_exit, suspend_return. simpl.
    rewrite lookup_insert_eq. simpl. rewrite lookup_insert_eq. done. }
  assert (Hl4 : pending s4 (this :: lp)) by exact Hl3.
  assert (Hme4 : heap s4 !! this = Some m4) by apply lookup_insert_eq.
  (* the results *)
  destruct (remove_from_pending_wake_list_pending this s4 _ m4 Hl4 Hme4)
    as (s5 & Hrm & _ & _ & _ & Hme5 & Hpend & _).
  assert (Hl5 : pending s5 lp).
  { assert (Hf : filter (λ p, p ≠ this) (this :: lp) = lp).
    { rewrite filter_cons, decide_False by (intros Hc; by apply Hc).
      by apply filter_ne_not_in. }
    rewrite <- Hf. apply Hpend. left. by left. }
  destruct Hwf3 as (Hrange3 & Hused3 & Hlen3).
  destruct (get_results_loop_spec (events m3) newEvents 0 false)
    as (out & found & Hloop & Hout_len & Hcopy & Hfound); [lia|].
  assert (Hready : ∀ i ev, newEvents !! i = Some ev →
            ∃ w, events m3 !! i = Some w ∧
              readyEvents w =
                if decide (address (src_eventSource ev) = a) then 1 else 0).
  { intros i ev Hev. rewrite (Hslots i _ (Hslot0 i ev Hev)). simpl.
    eexists. split; [done|].
    assert (Hi : (i < Z.to_nat (usedLength me'))%nat).
    { rewrite Hused, Nat2Z.id. by eapply lookup_lt_Some. }
    destruct (decide (address (src_eventSource ev) = a)) as [Ha|Ha].
    - rewrite decide_True; [done|]. split; [by apply Hbit|]. done.
    - rewrite decide_False; [done|]. intros (_ & _ & _ & Hc). done. }
  assert (found = true) as ->.
  { apply Hfound. right. destruct (Hready i0 ev0 Hev0) as (w & Hw & Hr).
    exists i0, w. split; [by eapply lookup_lt_Some|]. split; [done|].
    rewrite Hr, decide_True by done. done. }
  exists s1, s2, s3, s4, s5, out.
  split; [exact Hs1|]. split; [exact Hs2|]. split; [done|].
  split; [exact Hw2|]. split; [exact Hs3|]. split; [exact Hts3|].
  split; [exact Hl3|]. split; [exact Hs4|].
  split; [apply lookup_insert_eq|]. split; [|split; [exact Hl5|]].
  - unfold get_results. rewrite Hrm. simpl.
    rewrite (load_Some _ _ _ Hme5). simpl.
    rewrite decide_True by lia. by rewrite Hloop.
  - intros i ev Hev. destruct (Hcopy i ev Hev) as (w & Hw & ->).
    destruct (Hready i ev Hev) as (w' & Hw' & Hr).
    simpl in Hw. rewrite Hw in Hw'. simplify_eq. by rewrite Hr.
Qed.

End WaitCycle.

Lemma futex_wait_wake_results_witness :
  pending example_created [] ∧
  threads example_created = [] ∧
  thread_table example_created !! 1 = Some (mkThread None Running) ∧
  heap example_created !! 64 = Some (example_waiter 2) ∧
  (64 ∉ ([] : list Z)) ∧
  next (example_waiter 2) = None ∧
  (∀ p m, heap example_created !! p = Some m → MultiWaiter_wf m) ∧
  Z.of_nat (length [example_spec 2 (Pointer 1000 true) 7])
    ≤ Length (example_waiter 2) ∧
  (∀ ev, ev ∈ [example_spec 2 (Pointer 1000 true) 7] →
     src_kind ev = kind_code EventWaiterFutex ∧
     check_pointer_Load (src_eventSource ev) = true ∧
     example_mem (address (src_eventSource ev)) = src_value ev) ∧
  (∃ ev, ev ∈ [example_spec 2 (Pointer 1000 true) 7] ∧
     address (src_eventSource ev) = 1000) ∧
  0 < 1 < 2 ^ 32 ∧
  ∃ s1 s2 s3 s4 s5 out,
    set_events_at example_env example_mem 64
      [example_spec 2 (Pointer 1000 true) 7] example_created
      = Ok (s1, Sleep) ∧
    wait_enter 1 64 0 s1 = Ok s2 ∧
    threads s2 = [1] ∧
    waiter_of s2 1 = Some 64 ∧
    wake_waiters example_env (SourceFutex 1000) 0 1 s2 = Ok (s3, 1) ∧
    threads s3 = [] ∧
    pending s3 (64 :: []) ∧
    wait_exit 1 s3 = Some s4 ∧
    thread_table s4 !! 1 = Some (mkThread None Running) ∧
    get_results 64 [example_spec 2 (Pointer 1000 true) 7] s4
      = Ok (s5, out, true) ∧
    pending s5 [] ∧
    (∀ i ev, [example_spec 2 (Pointer 1000 true) 7] !! i = Some ev →
       out !! i =
         Some (mkEventWaiterSource (src_eventSource ev)
                 (if decide (address (src_eventSource ev) = 1000)
                  then 1 else 0)
                 (src_kind ev))).
Proof.
  assert (Hts : threads example_created = []) by reflexivity.
  assert (Hth : thread_table example_created !! 1
                = Some (mkThread None Running)) by reflexivity.
  assert (Hme : heap example_created !! 64 = Some (example_waiter 2))
    by reflexivity.
  assert (Hout : 64 ∉ ([] : list Z)) by apply not_elem_of_nil.
  assert (Hnone : next (example_waiter 2) = None) by reflexivity.
  assert (Hwf : MultiWaiter_wf (example_waiter 2))
    by (apply example_waiter_wf; unfold MaxMultiWaiterSize; lia).
  assert (Hwfall : ∀ p m, heap example_created !! p = Some m →
                     MultiWaiter_wf m).
  { intros p m Hp. unfold example_created in Hp. simpl in Hp.
    apply lookup_insert_Some in Hp as [[_ <-]|[_ Hp]]; [exact Hwf|].
    by rewrite lookup_empty in Hp. }
  assert (Hcount : Z.of_nat (length [example_spec 2 (Pointer 1000 true) 7])
                   ≤ Length (example_waiter 2)) by (simpl; lia).
  assert (Hfutex : ∀ ev, ev ∈ [example_spec 2 (Pointer 1000 true) 7] →
            src_kind ev = kind_code EventWaiterFutex ∧
            check_pointer_Load (src_eventSource ev) = true ∧
            example_mem (address (src_eventSource ev)) = src_value ev).
  { intros ev Hin. apply list_elem_of_singleton in Hin as ->.
    split_and!; reflexivity. }
  assert (Hsome : ∃ ev, ev ∈ [example_spec 2 (Pointer 1000 true) 7] ∧
                    address (src_eventSource ev) = 1000).
  { eexists. split; [by left|reflexivity]. }
  assert (Hmax : 0 < 1 < 2 ^ 32) by lia.
  split; [exact example_created_pending|]. split; [exact Hts|].
  split; [exact Hth|]. split; [exact Hme|]. split; [exact Hout|].
  split; [exact Hnone|]. split; [exact Hwfall|]. split; [exact Hcount|].
  split; [exact Hfutex|]. split; [exact Hsome|]. split; [exact Hmax|].
  exact (futex_wait_wake_results (H := example_collaborators) example_env
           example_env example_mem 64 1
           [example_spec 2 (Pointer 1000 true) 7] example_created []
           (example_waiter 2) (mkThread None Running) 0 1000 0 1
           example_created_pending Hts Hth Hme Hout Hnone Hwfall Hcount
           Hfutex Hsome Hmax).
Defined.
